(** * isolated-vm: the Environment / Executor / Scheduler triad

    A shallow embedding of [src/isolate/environment.cc] and the properties
    its design document states about it.

    The C++ code is stateful and calls out into three opaque collaborators:
    the script engine (v8), the libuv loop / thread pool, and user supplied
    callbacks ([Runnable::Run], weak-reference cleanups).  The embedding is

    - a record [World] holding the fields of one [IsolateEnvironment], the
      state of its engine instance and the process-wide statics;
    - a state / failure / event-log monad [M] in which every member function
      is written in the order of its C++ statements;
    - a type class [Engine] for the calls into v8, and section variables for
      the user callbacks.

    In the world an [Executor::Lock] is reduced to its effect on
    [current_env] and to a pair of events in the log; the timers
    ([CpuTimer], [WallTimer]) and the part of the lock that drives them have
    a state of their own, in the module [Timers], with the readings of the
    clocks as inputs.  [binding.gyp] does not define [NDEBUG], so every
    [assert] is live: a failed one ends the process. *)

From Stdlib Require Import NArith ZArith Lia String.
From stdpp Require Import base option list gmap.

Local Open Scope N_scope.

(** ** Machine integers *)

(** [size_t] on the 64-bit targets the add-on is built for. *)
Definition SIZE_MAX : N := 2 ^ 64 - 1.
Definition size_t_add (a b : N) : N := (a + b) mod 2 ^ 64.

(** [std::atomic<unsigned int>]: pre-increment and pre-decrement. *)
Definition uint_incr (n : N) : N := (n + 1) mod 2 ^ 32.
Definition uint_decr (n : N) : N := (n + 2 ^ 32 - 1) mod 2 ^ 32.

(** ** Identities of heap objects *)

Definition EnvPtr := N.       (* IsolateEnvironment*           *)
Definition IsolatePtr := N.   (* v8::Isolate*                  *)
Definition HolderPtr := N.    (* IsolateHolder*                *)
Definition AgentPtr := N.     (* InspectorAgent*               *)
Definition Handle := N.       (* v8::Persistent<v8::Object>*   *)
Definition FnPtr := N.        (* void(*)(void*)                *)
Definition Param := N.        (* void*                         *)
Definition Runnable := N.     (* the object behind a unique_ptr<Runnable> *)
Definition ThreadId := N.     (* std::thread::id               *)

(** ** Enumerations *)

Inductive Status := Waiting | Running.

Inductive MemoryPressureLevel := kNone | kModerate | kCritical.

#[global] Instance Status_eq_dec : EqDecision Status.
Proof. solve_decision. Defined.

#[global] Instance MemoryPressureLevel_eq_dec : EqDecision MemoryPressureLevel.
Proof. solve_decision. Defined.

(** [v8::GCCallbackFlags] is a bit set; these are the values of v8.h. *)
Definition kNoGCCallbackFlags : Z := 0%Z.
Definition kGCCallbackFlagForced : Z := Z.shiftl 1 2.
Definition kGCCallbackFlagCollectAllAvailableGarbage : Z := Z.shiftl 1 4.

(** The C++ test [if (gc_flags & mask)]. *)
Definition flag_set (gc_flags mask : Z) : bool :=
  negb (Z.land gc_flags mask =? 0)%Z.

(** ** Data model *)

Record Scheduler := mkScheduler {
  status : Status;
  tasks : list Runnable;
  handle_tasks : list Runnable;
  interrupts : list Runnable;
  sync_interrupts : list Runnable
}.

Record IsolateEnvironment := mkEnv {
  this : EnvPtr;
  isolate : IsolatePtr;
  holder : HolderPtr;
  root : bool;
  scheduler : Scheduler;
  memory_limit : N;
  misc_memory_size : N;
  initial_heap_size_limit : N;
  extra_allocated_memory : N;
  hit_memory_limit : bool;
  terminated : bool;
  did_adjust_heap_limit : bool;
  memory_pressure : MemoryPressureLevel;
  weak_persistents : gmap Handle (FnPtr * Param);
  inspector_agent : option AgentPtr
}.

Record HeapStatistics := mkHeap {
  used_heap_size : N;
  heap_size_limit : N
}.

(** The calls this file makes on a [v8::Isolate].  [I] is the state of one
    engine instance.  Garbage-collection callbacks which the engine issues
    on its own are separate entry points of the model
    ([MarkSweepCompactEpilogue], [NearHeapLimitCallback]). *)
Class Engine (I : Type) := {
  GetHeapStatistics : I → HeapStatistics;
  LowMemoryNotification : I → I;
  MemoryPressureNotification : MemoryPressureLevel → I → I;
  TerminateExecution : I → I;
  RemoveNearHeapLimitCallback : N → I → I;
  AddNearHeapLimitCallback : I → I;
  SetStackLimit : N → I → I;
  Dispose : I → I
}.

(** Callbacks handed to [Isolate::RequestInterrupt]. *)
Inductive InterruptCallback :=
  | AsyncCallbackInterrupt
  | SyncCallbackInterrupt
  | MemoryPressureInterrupt.

(** What the outside world can observe of a run, in program order. *)
Inductive Event :=
  | EvRun (r : Runnable)                     (* r->Run()                     *)
  | EvDestroy (r : Runnable)                 (* ~unique_ptr<Runnable>        *)
  | EvWeakCallback (fn : FnPtr) (p : Param)  (* fn(param)                    *)
  | EvExecutorLock (e : EnvPtr)              (* Executor::Lock ctor          *)
  | EvExecutorUnlock (e : EnvPtr)            (* Executor::Lock dtor          *)
  | EvSchedulerLock                          (* Scheduler::Lock ctor         *)
  | EvSchedulerUnlock                        (* Scheduler::Lock dtor         *)
  | EvAgentTerminate (a : AgentPtr)          (* inspector_agent->Terminate() *)
  | EvAgentDestroy (a : AgentPtr)            (* agent_ptr.reset()            *)
  | EvRequestInterrupt (cb : InterruptCallback)
  | EvUvRef
  | EvUvUnref
  | EvUvAsyncSend                            (* uv_async_send(&root_async)   *)
  | EvThreadPoolExec (arg : EnvPtr)          (* thread_pool.exec(.., ptr)    *)
  | EvIsolateDispose (cur : option EnvPtr).  (* isolate->Dispose(), with the
                                                current_env it runs under    *)

(** How a call ends other than by returning. *)
Inductive Exception :=
  | std_logic_error (what : string)
  | js_fatal_error (what : string)
  | js_runtime_error.

Inductive Stop :=
  | throw (e : Exception)            (* a C++ exception propagates        *)
  | assertion_failed (cond : string) (* assert(cond) aborts the process   *)
  | undefined_behaviour (what : string)
  | out_of_fuel.                     (* the bounded model of while(true)  *)

Inductive Outcome (A : Type) :=
  | Return (a : A)
  | Stopped (s : Stop).
Arguments Return {A} a.
Arguments Stopped {A} s.

Section Model.

Context {I : Type} `{Engine I}.

(** One environment, its engine instance, and the statics it shares with the
    rest of the process.  [other_envs] are the other live environments, by
    address.  [holder_isolate] is the [isolate] member of the
    [IsolateHolder] objects, keyed by their address: a holder that still
    refers to an environment has an entry. *)
Record World := mkWorld {
  env : IsolateEnvironment;
  v8 : I;
  other_envs : gmap EnvPtr IsolateEnvironment;
  uv_ref_count : N;
  root_async_data : option EnvPtr;
  isolate_map : gmap IsolatePtr EnvPtr;
  holder_isolate : gmap HolderPtr EnvPtr;
  current_env : option EnvPtr;
  this_thread : ThreadId;
  default_thread : ThreadId
}.

(** *** Field updates *)

Definition with_status (st : Status) (s : Scheduler) : Scheduler :=
  mkScheduler st (tasks s) (handle_tasks s) (interrupts s) (sync_interrupts s).
Definition with_tasks (q : list Runnable) (s : Scheduler) : Scheduler :=
  mkScheduler (status s) q (handle_tasks s) (interrupts s) (sync_interrupts s).
Definition with_handle_tasks (q : list Runnable) (s : Scheduler) : Scheduler :=
  mkScheduler (status s) (tasks s) q (interrupts s) (sync_interrupts s).
Definition with_interrupts (q : list Runnable) (s : Scheduler) : Scheduler :=
  mkScheduler (status s) (tasks s) (handle_tasks s) q (sync_interrupts s).
Definition with_sync_interrupts (q : list Runnable) (s : Scheduler) : Scheduler :=
  mkScheduler (status s) (tasks s) (handle_tasks s) (interrupts s) q.

Definition with_scheduler (s : Scheduler) (e : IsolateEnvironment) :=
  mkEnv (this e) (isolate e) (holder e) (root e) s (memory_limit e)
    (misc_memory_size e) (initial_heap_size_limit e) (extra_allocated_memory e)
    (hit_memory_limit e) (terminated e) (did_adjust_heap_limit e)
    (memory_pressure e) (weak_persistents e) (inspector_agent e).
Definition with_hit_memory_limit (b : bool) (e : IsolateEnvironment) :=
  mkEnv (this e) (isolate e) (holder e) (root e) (scheduler e) (memory_limit e)
    (misc_memory_size e) (initial_heap_size_limit e) (extra_allocated_memory e)
    b (terminated e) (did_adjust_heap_limit e)
    (memory_pressure e) (weak_persistents e) (inspector_agent e).
Definition with_terminated (b : bool) (e : IsolateEnvironment) :=
  mkEnv (this e) (isolate e) (holder e) (root e) (scheduler e) (memory_limit e)
    (misc_memory_size e) (initial_heap_size_limit e) (extra_allocated_memory e)
    (hit_memory_limit e) b (did_adjust_heap_limit e)
    (memory_pressure e) (weak_persistents e) (inspector_agent e).
Definition with_did_adjust_heap_limit (b : bool) (e : IsolateEnvironment) :=
  mkEnv (this e) (isolate e) (holder e) (root e) (scheduler e) (memory_limit e)
    (misc_memory_size e) (initial_heap_size_limit e) (extra_allocated_memory e)
    (hit_memory_limit e) (terminated e) b
    (memory_pressure e) (weak_persistents e) (inspector_agent e).
Definition with_memory_pressure (p : MemoryPressureLevel) (e : IsolateEnvironment) :=
  mkEnv (this e) (isolate e) (holder e) (root e) (scheduler e) (memory_limit e)
    (misc_memory_size e) (initial_heap_size_limit e) (extra_allocated_memory e)
    (hit_memory_limit e) (terminated e) (did_adjust_heap_limit e)
    p (weak_persistents e) (inspector_agent e).
Definition with_weak_persistents (m : gmap Handle (FnPtr * Param)) (e : IsolateEnvironment) :=
  mkEnv (this e) (isolate e) (holder e) (root e) (scheduler e) (memory_limit e)
    (misc_memory_size e) (initial_heap_size_limit e) (extra_allocated_memory e)
    (hit_memory_limit e) (terminated e) (did_adjust_heap_limit e)
    (memory_pressure e) m (inspector_agent e).
Definition with_inspector_agent (a : option AgentPtr) (e : IsolateEnvironment) :=
  mkEnv (this e) (isolate e) (holder e) (root e) (scheduler e) (memory_limit e)
    (misc_memory_size e) (initial_heap_size_limit e) (extra_allocated_memory e)
    (hit_memory_limit e) (terminated e) (did_adjust_heap_limit e)
    (memory_pressure e) (weak_persistents e) a.

Definition with_env (e : IsolateEnvironment) (w : World) : World :=
  mkWorld e (v8 w) (other_envs w) (uv_ref_count w) (root_async_data w) (isolate_map w)
    (holder_isolate w) (current_env w) (this_thread w) (default_thread w).
Definition with_v8 (i : I) (w : World) : World :=
  mkWorld (env w) i (other_envs w) (uv_ref_count w) (root_async_data w) (isolate_map w)
    (holder_isolate w) (current_env w) (this_thread w) (default_thread w).
Definition with_uv_ref_count (n : N) (w : World) : World :=
  mkWorld (env w) (v8 w) (other_envs w) n (root_async_data w) (isolate_map w)
    (holder_isolate w) (current_env w) (this_thread w) (default_thread w).
Definition with_root_async_data (d : option EnvPtr) (w : World) : World :=
  mkWorld (env w) (v8 w) (other_envs w) (uv_ref_count w) d (isolate_map w)
    (holder_isolate w) (current_env w) (this_thread w) (default_thread w).
Definition with_isolate_map (m : gmap IsolatePtr EnvPtr) (w : World) : World :=
  mkWorld (env w) (v8 w) (other_envs w) (uv_ref_count w) (root_async_data w) m
    (holder_isolate w) (current_env w) (this_thread w) (default_thread w).
Definition with_holder_isolate (m : gmap HolderPtr EnvPtr) (w : World) : World :=
  mkWorld (env w) (v8 w) (other_envs w) (uv_ref_count w) (root_async_data w) (isolate_map w)
    m (current_env w) (this_thread w) (default_thread w).
Definition with_current_env (c : option EnvPtr) (w : World) : World :=
  mkWorld (env w) (v8 w) (other_envs w) (uv_ref_count w) (root_async_data w) (isolate_map w)
    (holder_isolate w) c (this_thread w) (default_thread w).

(** ** The monad

    A computation takes the world and yields an outcome, the world it left
    behind and the events it emitted.  A C++ exception and a failed
    [assert] both stop the computation; the world at that point is kept:
    the design says what a failing operation leaves behind. *)

Definition M (A : Type) : Type := World → Outcome A * World * list Event.

Definition ret {A} (a : A) : M A := λ w, (Return a, w, []).

Definition bind {A B} (m : M A) (k : A → M B) : M B :=
  λ w, match m w with
       | (Return a, w1, ev1) =>
           match k a w1 with (o, w2, ev2) => (o, w2, ev1 ++ ev2) end
       | (Stopped s, w1, ev1) => (Stopped s, w1, ev1)
       end.

Notation "'do' x <- m ; k" := (bind m (λ x, k))
  (at level 10, x name, m at level 100, k at level 200).
Notation "m >> k" := (bind m (λ _, k))
  (at level 65, right associativity).

Definition stop {A} (s : Stop) : M A := λ w, (Stopped s, w, []).
Definition get {A} (f : World → A) : M A := λ w, (Return (f w), w, []).
Definition modify (f : World → World) : M unit := λ w, (Return tt, f w, []).
Definition emit (e : Event) : M unit := λ w, (Return tt, w, [e]).
Definition cxx_assert (cond : string) (b : bool) : M unit :=
  if b then ret tt else stop (assertion_failed cond).

Definition modify_env (f : IsolateEnvironment → IsolateEnvironment) : M unit :=
  modify (λ w, with_env (f (env w)) w).
Definition modify_scheduler (f : Scheduler → Scheduler) : M unit :=
  modify_env (λ e, with_scheduler (f (scheduler e)) e).
Definition modify_v8 (f : I → I) : M unit :=
  modify (λ w, with_v8 (f (v8 w)) w).


(** ** User callbacks

    [Runnable::Run] and the weak-reference cleanups are code of the callers.
    They run on the thread that holds the locks and may do anything to the
    world: push more work, raise [hit_memory_limit], unregister themselves.
    The log is out of their reach. *)
Variable Run : Runnable → World → World.
Variable invoke : FnPtr → Param → World → World.

Definition call_Run (r : Runnable) : M unit :=
  emit (EvRun r) >> modify (Run r).
Definition destroy (r : Runnable) : M unit := emit (EvDestroy r).
Definition call_weak (fn : FnPtr) (p : Param) : M unit :=
  emit (EvWeakCallback fn p) >> modify (invoke fn p).

(** Destruction of a [std::queue<unique_ptr<Runnable>>]: front to back. *)
Fixpoint destroy_queue (q : list Runnable) : M unit :=
  match q with
  | [] => ret tt
  | r :: q' => destroy r >> destroy_queue q'
  end.

(** ** Executor *)

(** [Executor::Scope]: remember [current_env], install [env]. *)
Definition Scope_enter : M (option EnvPtr) :=
  do last <- get current_env;
  do me <- get (λ w, this (env w));
  modify (with_current_env (Some me)) >> ret last.
Definition Scope_leave (last : option EnvPtr) : M unit :=
  modify (with_current_env last).

(** [Executor::Lock]: the scope, then the v8 locker (an event here). *)
Definition ExecutorLock_enter : M (option EnvPtr) :=
  do last <- Scope_enter;
  do me <- get (λ w, this (env w));
  emit (EvExecutorLock me) >> ret last.
Definition ExecutorLock_leave (last : option EnvPtr) : M unit :=
  do me <- get (λ w, this (env w));
  emit (EvExecutorUnlock me) >> Scope_leave last.

Definition IsDefaultThread : M bool :=
  get (λ w, bool_decide (this_thread w = default_thread w)).

(** ** Scheduler *)

Definition SchedulerLock_enter : M unit := emit EvSchedulerLock.
Definition SchedulerLock_leave : M unit := emit EvSchedulerUnlock.

Definition IncrementUvRef : M unit :=
  modify (λ w, with_uv_ref_count (uint_incr (uv_ref_count w)) w) >>
  do n <- get uv_ref_count;
  if bool_decide (n = 1) then
    do dflt <- IsDefaultThread;
    cxx_assert "std::this_thread::get_id() == Executor::default_thread" dflt >>
    emit EvUvRef
  else ret tt.

Definition DecrementUvRef : M unit :=
  modify (λ w, with_uv_ref_count (uint_decr (uv_ref_count w)) w) >>
  do n <- get uv_ref_count;
  if bool_decide (n = 0) then
    do dflt <- IsDefaultThread;
    if dflt then emit EvUvUnref else emit EvUvAsyncSend
  else ret tt.

Definition DoneRunning : M unit :=
  do st <- get (λ w, status (scheduler (env w)));
  cxx_assert "scheduler.status == Status::Running" (bool_decide (st = Running)) >>
  modify_scheduler (with_status Waiting).

Definition PushTask (task : Runnable) : M unit :=
  modify_scheduler (λ s, with_tasks (tasks s ++ [task]) s).
Definition PushHandleTask (handle_task : Runnable) : M unit :=
  modify_scheduler (λ s, with_handle_tasks (handle_tasks s ++ [handle_task]) s).
Definition PushInterrupt (interrupt : Runnable) : M unit :=
  modify_scheduler (λ s, with_interrupts (interrupts s ++ [interrupt]) s).
Definition PushSyncInterrupt (interrupt : Runnable) : M unit :=
  modify_scheduler (λ s, with_sync_interrupts (sync_interrupts s ++ [interrupt]) s).

Definition TakeTasks : M (list Runnable) :=
  do tmp <- get (λ w, tasks (scheduler (env w)));
  modify_scheduler (with_tasks []) >> ret tmp.
Definition TakeHandleTasks : M (list Runnable) :=
  do tmp <- get (λ w, handle_tasks (scheduler (env w)));
  modify_scheduler (with_handle_tasks []) >> ret tmp.
Definition TakeInterrupts : M (list Runnable) :=
  do tmp <- get (λ w, interrupts (scheduler (env w)));
  modify_scheduler (with_interrupts []) >> ret tmp.
Definition TakeSyncInterrupts : M (list Runnable) :=
  do tmp <- get (λ w, sync_interrupts (scheduler (env w)));
  modify_scheduler (with_sync_interrupts []) >> ret tmp.

Definition WakeIsolate : M bool :=
  do st <- get (λ w, status (scheduler (env w)));
  if bool_decide (st = Waiting) then
    modify_scheduler (with_status Running) >>
    do isolate_ptr_ptr <- get (λ w, this (env w));
    IncrementUvRef >>
    do is_root <- get (λ w, root (env w));
    (if is_root then
       do data <- get root_async_data;
       cxx_assert "root_async.data == nullptr" (bool_decide (data = None)) >>
       modify (with_root_async_data (Some isolate_ptr_ptr)) >>
       emit EvUvAsyncSend
     else
       emit (EvThreadPoolExec isolate_ptr_ptr)) >>
    ret true
  else
    ret false.

Definition InterruptIsolate : M unit :=
  do st <- get (λ w, status (scheduler (env w)));
  cxx_assert "scheduler.status == Status::Running" (bool_decide (st = Running)) >>
  emit (EvRequestInterrupt AsyncCallbackInterrupt).

Definition InterruptSyncIsolate : M unit :=
  emit (EvRequestInterrupt SyncCallbackInterrupt).


(** ** Memory pressure *)

Definition CheckMemoryPressure : M unit :=
  do pressure <- get (λ w, memory_pressure (env w));
  if bool_decide (pressure ≠ kNone) then
    modify_env (with_memory_pressure kNone) >>
    modify_v8 (MemoryPressureNotification pressure)
  else ret tt.

(** ** Terminate *)

Definition Terminate : M unit :=
  do is_root <- get (λ w, root (env w));
  cxx_assert "!root" (negb is_root) >>
  modify_env (with_terminated true) >>
  SchedulerLock_enter >>
  do agent <- get (λ w, inspector_agent (env w));
  match agent with
  | Some a => emit (EvAgentTerminate a)
  | None => ret tt
  end >>
  SchedulerLock_leave >>
  modify_v8 TerminateExecution >>
  modify (λ w, with_holder_isolate (delete (holder (env w)) (holder_isolate w)) w).

(** ** HeapCheck *)

Record HeapCheck := mkHeapCheck {
  extra_size_before : N;
  force : bool
}.

Definition HeapCheck_ctor (force : bool) : M HeapCheck :=
  do extra <- get (λ w, extra_allocated_memory (env w));
  ret (mkHeapCheck extra force).

(** [heap.used_heap_size() + env.extra_allocated_memory > env.memory_limit] *)
Definition over_limit (w : World) : bool :=
  memory_limit (env w) <?
    size_t_add (used_heap_size (GetHeapStatistics (v8 w)))
               (extra_allocated_memory (env w)).

Definition Epilogue (hc : HeapCheck) : M unit :=
  do is_root <- get (λ w, root (env w));
  do extra <- get (λ w, extra_allocated_memory (env w));
  if negb is_root && (force hc || bool_decide (extra ≠ extra_size_before hc)) then
    do over <- get over_limit;
    if over then
      modify_v8 LowMemoryNotification >>
      do still_over <- get over_limit;
      if still_over then
        modify_env (with_hit_memory_limit true) >>
        Terminate >>
        stop (throw (js_fatal_error
          "Isolate was disposed during execution due to memory limit"))
      else ret tt
    else ret tt
  else ret tt.

(** ** Garbage-collection callbacks *)

(** [V8_AT_LEAST(6, 9, 406)], fixed when the add-on is compiled, and the
    default of the third argument of [RequestMemoryPressureNotification],
    which the class declaration gives. *)
Variable V8_AT_LEAST_6_9_406 : bool.
Variable as_interrupt_default : bool.

(** [RequestMemoryPressureNotification] and [MarkSweepCompactEpilogue] call
    each other; [epilogue] is the latter. *)
Definition RequestMemoryPressureNotification_with (epilogue : Z → M unit)
    (pressure : MemoryPressureLevel) (is_reentrant_gc as_interrupt : bool) : M unit :=
  if (negb V8_AT_LEAST_6_9_406 && is_reentrant_gc) || as_interrupt then
    modify_env (with_memory_pressure pressure) >>
    emit (EvRequestInterrupt MemoryPressureInterrupt)
  else
    modify_env (with_memory_pressure kNone) >>
    modify_v8 (MemoryPressureNotification pressure) >>
    if is_reentrant_gc && bool_decide (pressure = kCritical) then
      epilogue kGCCallbackFlagForced
    else ret tt.

(** The ratchet of the heap limit inside the epilogue. *)
Definition ratchet_heap_limit : M unit :=
  do limit <- get (λ w, memory_limit (env w));
  modify_v8 (RemoveNearHeapLimitCallback limit) >>
  modify_v8 AddNearHeapLimitCallback >>
  do heap <- get (λ w, GetHeapStatistics (v8 w));
  do initial <- get (λ w, initial_heap_size_limit (env w));
  if bool_decide (heap_size_limit heap = initial) then
    modify_env (with_did_adjust_heap_limit false)
  else ret tt.

Fixpoint MarkSweepCompactEpilogue (fuel : nat) (gc_flags : Z) : M unit :=
  match fuel with
  | O => stop out_of_fuel
  | S fuel' =>
    do heap <- get (λ w, GetHeapStatistics (v8 w));
    do total_memory <- get (λ w,
         size_t_add (used_heap_size heap) (extra_allocated_memory (env w)));
    do memory_limit <- get (λ w,
         size_t_add (memory_limit (env w)) (misc_memory_size (env w)));
    if memory_limit <? total_memory then
      if flag_set gc_flags
           (Z.lor kGCCallbackFlagCollectAllAvailableGarbage kGCCallbackFlagForced)
      then
        Terminate >> modify_env (with_hit_memory_limit true)
      else
        RequestMemoryPressureNotification_with (MarkSweepCompactEpilogue fuel')
          kCritical true as_interrupt_default
    else if negb (flag_set gc_flags kGCCallbackFlagCollectAllAvailableGarbage) then
      do did_adjust <- get (λ w, did_adjust_heap_limit (env w));
      (if did_adjust then ratchet_heap_limit else ret tt) >>
      if memory_limit <? size_t_add total_memory (total_memory / 4) then
        RequestMemoryPressureNotification_with (MarkSweepCompactEpilogue fuel')
          kModerate true as_interrupt_default
      else ret tt
    else ret tt
  end.

Definition RequestMemoryPressureNotification (fuel : nat) :=
  RequestMemoryPressureNotification_with (MarkSweepCompactEpilogue fuel).

Definition NearHeapLimitCallback (fuel : nat) (current_heap_limit : N) : M N :=
  modify_env (with_did_adjust_heap_limit true) >>
  do heap <- get (λ w, GetHeapStatistics (v8 w));
  do over <- get (λ w,
       size_t_add (memory_limit (env w)) (misc_memory_size (env w)) <?
       size_t_add (used_heap_size heap) (extra_allocated_memory (env w)));
  (if over then RequestMemoryPressureNotification fuel kCritical true true
   else RequestMemoryPressureNotification fuel kModerate true true) >>
  ret (size_t_add current_heap_limit (1024 * 1024 * 1024)).


(** ** The execution pass *)

(** [GetStackBase()] on the running thread; [None] is [nullptr], which is
    what every platform but macOS returns. *)
Variable stack_base : option N.

(** [while (!q.empty()) { q.front()->Run(); q.pop(); }] *)
Fixpoint run_queue (q : list Runnable) : M unit :=
  match q with
  | [] => ret tt
  | r :: q' => call_Run r >> destroy r >> run_queue q'
  end.

(** The loop over [tasks]; the result tells whether it left through the
    [return] under [hit_memory_limit], in which case the tasks still in the
    local queue are destroyed unrun. *)
Fixpoint run_tasks (q : list Runnable) : M bool :=
  match q with
  | [] => ret false
  | r :: q' =>
      call_Run r >> destroy r >>
      do hit <- get (λ w, hit_memory_limit (env w));
      if hit then destroy_queue q' >> ret true
      else CheckMemoryPressure >> run_tasks q'
  end.

Definition all_empty (tasks handle_tasks interrupts : list Runnable) : bool :=
  bool_decide (tasks = []) && bool_decide (handle_tasks = []) &&
  bool_decide (interrupts = []).

Fixpoint AsyncEntry_loop (fuel : nat) : M unit :=
  match fuel with
  | O => stop out_of_fuel
  | S fuel' =>
      SchedulerLock_enter >>
      do tasks <- TakeTasks;
      do handle_tasks <- TakeHandleTasks;
      do interrupts <- TakeInterrupts;
      if all_empty tasks handle_tasks interrupts then
        DoneRunning >> SchedulerLock_leave
      else
        SchedulerLock_leave >>
        run_queue interrupts >>
        run_queue handle_tasks >>
        do returned <- run_tasks tasks;
        if returned then ret tt else AsyncEntry_loop fuel'
  end.

Definition AsyncEntry (fuel : nat) : M unit :=
  do last <- ExecutorLock_enter;
  do is_root <- get (λ w, root (env w));
  (if negb is_root then
     match stack_base with
     | Some base => modify_v8 (SetStackLimit (size_t_add base (1024 * 6)))
     | None => ret tt
     end
   else ret tt) >>
  AsyncEntry_loop fuel >>
  ExecutorLock_leave last.

(** [InterruptEntry<Take>], entered from the engine with the executor lock
    already held. *)
Fixpoint InterruptEntry (Take : M (list Runnable)) (fuel : nat) : M unit :=
  match fuel with
  | O => stop out_of_fuel
  | S fuel' =>
      SchedulerLock_enter >>
      do interrupts <- Take;
      SchedulerLock_leave >>
      match interrupts with
      | [] => ret tt
      | r :: q => call_Run r >> destroy r >> run_queue q >> InterruptEntry Take fuel'
      end
  end.

(** ** Weak callbacks *)

Definition AddWeakCallback (handle : Handle) (fn : FnPtr) (param : Param) : M unit :=
  do is_root <- get (λ w, root (env w));
  if is_root then ret tt
  else
    do tbl <- get (λ w, weak_persistents (env w));
    match tbl !! handle with
    | Some _ => stop (throw (std_logic_error "Weak callback already added"))
    | None => modify_env (with_weak_persistents (<[handle := (fn, param)]> tbl))
    end.

Definition RemoveWeakCallback (handle : Handle) : M unit :=
  do is_root <- get (λ w, root (env w));
  if is_root then ret tt
  else
    do tbl <- get (λ w, weak_persistents (env w));
    match tbl !! handle with
    | None => stop (throw (std_logic_error "Weak callback doesn't exist"))
    | Some _ => modify_env (with_weak_persistents (delete handle tbl))
    end.

(** ** Destruction *)

(** The element [++it] reaches: the first entry after the current one that
    is still in the table. *)
Definition successor (tbl : gmap Handle (FnPtr * Param))
    (rest : list (Handle * (FnPtr * Param))) : option Handle :=
  fst <$> head (filter (λ e, is_Some (tbl !! e.1)) rest).

(** The loop over [weak_persistents].  [entries] is the table in iteration
    order when the loop starts and [it] the key the iterator points at
    ([None] for [end()]).  The iterator is advanced before the cleanup
    runs, so a cleanup may erase its own entry; one that erases the entry
    the iterator has moved to leaves it dangling.  Entries registered while
    the loop runs are outside the model. *)
Fixpoint kill_weak_persistents (entries : list (Handle * (FnPtr * Param)))
    (it : option Handle) : M unit :=
  match entries with
  | [] => ret tt
  | (h, _) :: rest =>
      if bool_decide (it = Some h) then
        do tbl <- get (λ w, weak_persistents (env w));
        match tbl !! h with
        | None => stop (undefined_behaviour "weak_persistents iterator invalidated")
        | Some (fn, param) =>
            call_weak fn param >>
            kill_weak_persistents rest (successor tbl rest)
        end
      else kill_weak_persistents rest it
  end.

Definition IsolateEnvironment_dtor : M unit :=
  do is_root <- get (λ w, root (env w));
  if is_root then ret tt
  else
    SchedulerLock_enter >>
    do agent_ptr <- get (λ w, inspector_agent (env w));
    modify_env (with_inspector_agent None) >>
    SchedulerLock_leave >>
    do last <- ExecutorLock_enter;
    match agent_ptr with
    | Some a => emit (EvAgentDestroy a)
    | None => ret tt
    end >>
    do entries <- get (λ w, map_to_list (weak_persistents (env w)));
    kill_weak_persistents entries (fst <$> head entries) >>
    do tbl <- get (λ w, weak_persistents (env w));
    cxx_assert "weak_persistents.empty()" (bool_decide (tbl = ∅)) >>
    SchedulerLock_enter >>
    do q1 <- TakeInterrupts; destroy_queue q1 >>
    do q2 <- TakeSyncInterrupts; destroy_queue q2 >>
    do q3 <- TakeHandleTasks; destroy_queue q3 >>
    do q4 <- TakeTasks; destroy_queue q4 >>
    SchedulerLock_leave >>
    ExecutorLock_leave last >>
    do last_scope <- Scope_enter;
    do cur <- get current_env;
    emit (EvIsolateDispose cur) >>
    modify_v8 Dispose >>
    Scope_leave last_scope >>
    do map <- get isolate_map;
    do iso <- get (λ w, isolate (env w));
    match map !! iso with
    | None => stop (undefined_behaviour "isolate_map.erase(isolate_map.end())")
    | Some _ => modify (with_isolate_map (delete iso map))
    end.

(** ** The bookkeeping registry *)

(** [it->second->holder]: the environment behind a registered pointer. *)
Definition deref (p : EnvPtr) (w : World) : option IsolateEnvironment :=
  if bool_decide (p = this (env w)) then Some (env w) else other_envs w !! p.

(** A [shared_ptr<IsolateHolder>]; [None] is [nullptr]. *)
Definition LookupIsolate (isolate : IsolatePtr) : M (option HolderPtr) :=
  do map <- get isolate_map;
  match map !! isolate with
  | None => ret None
  | Some p =>
      do target <- get (deref p);
      match target with
      | Some e => ret (Some (holder e))
      | None => stop (undefined_behaviour "dangling IsolateEnvironment*")
      end
  end.

(** ** The entry points as one interface

    Every member function above that runs no user callback, with its
    arguments.  [perform] forgets the type of the result. *)
Inductive Operation :=
  | OpDoneRunning
  | OpPushTask (r : Runnable)
  | OpPushHandleTask (r : Runnable)
  | OpPushInterrupt (r : Runnable)
  | OpPushSyncInterrupt (r : Runnable)
  | OpTakeTasks
  | OpTakeHandleTasks
  | OpTakeInterrupts
  | OpTakeSyncInterrupts
  | OpWakeIsolate
  | OpInterruptIsolate
  | OpInterruptSyncIsolate
  | OpIncrementUvRef
  | OpDecrementUvRef
  | OpCheckMemoryPressure
  | OpTerminate
  | OpHeapCheckEpilogue (hc : HeapCheck)
  | OpMarkSweepCompactEpilogue (gc_flags : Z)
  | OpNearHeapLimitCallback (current_heap_limit : N)
  | OpAddWeakCallback (handle : Handle) (fn : FnPtr) (param : Param)
  | OpRemoveWeakCallback (handle : Handle)
  | OpLookupIsolate (isolate : IsolatePtr).

Inductive Value :=
  | VVoid
  | VBool (b : bool)
  | VQueue (q : list Runnable)
  | VSize (n : N)
  | VHolder (h : option HolderPtr).

Definition returning {A} (f : A → Value) (m : M A) : M Value :=
  do a <- m; ret (f a).

Definition perform (op : Operation) : M Value :=
  match op with
  | OpDoneRunning => returning (λ _, VVoid) DoneRunning
  | OpPushTask r => returning (λ _, VVoid) (PushTask r)
  | OpPushHandleTask r => returning (λ _, VVoid) (PushHandleTask r)
  | OpPushInterrupt r => returning (λ _, VVoid) (PushInterrupt r)
  | OpPushSyncInterrupt r => returning (λ _, VVoid) (PushSyncInterrupt r)
  | OpTakeTasks => returning VQueue TakeTasks
  | OpTakeHandleTasks => returning VQueue TakeHandleTasks
  | OpTakeInterrupts => returning VQueue TakeInterrupts
  | OpTakeSyncInterrupts => returning VQueue TakeSyncInterrupts
  | OpWakeIsolate => returning VBool WakeIsolate
  | OpInterruptIsolate => returning (λ _, VVoid) InterruptIsolate
  | OpInterruptSyncIsolate => returning (λ _, VVoid) InterruptSyncIsolate
  | OpIncrementUvRef => returning (λ _, VVoid) IncrementUvRef
  | OpDecrementUvRef => returning (λ _, VVoid) DecrementUvRef
  | OpCheckMemoryPressure => returning (λ _, VVoid) CheckMemoryPressure
  | OpTerminate => returning (λ _, VVoid) Terminate
  | OpHeapCheckEpilogue hc => returning (λ _, VVoid) (Epilogue hc)
  | OpMarkSweepCompactEpilogue gc_flags =>
      returning (λ _, VVoid) (MarkSweepCompactEpilogue 2 gc_flags)
  | OpNearHeapLimitCallback l => returning VSize (NearHeapLimitCallback 2 l)
  | OpAddWeakCallback h fn p => returning (λ _, VVoid) (AddWeakCallback h fn p)
  | OpRemoveWeakCallback h => returning (λ _, VVoid) (RemoveWeakCallback h)
  | OpLookupIsolate i => returning VHolder (LookupIsolate i)
  end.

End Model.

Arguments World I : clear implicits.
Arguments M I A : clear implicits.

(** ** AsyncWait

    [Ready], [Wait] and [Wake] each run under [scheduler.wait_mutex], so the
    rendezvous is a state machine whose steps are those critical sections.
    A thread inside [wait_cv.wait] is [Blocked]; it leaves the wait when it
    has been notified or spuriously, re-acquires the mutex and tests the
    loop condition again. *)
Module AsyncWait.

Inductive Waiter :=
  | Idle       (* has not called Wait()            *)
  | Blocked    (* parked inside wait_cv.wait(lock) *)
  | Released.  (* Wait() has returned              *)

#[global] Instance Waiter_eq_dec : EqDecision Waiter.
Proof. solve_decision. Defined.

Record State := mk {
  ready : bool;
  done : bool;
  waiter : Waiter;
  notified : bool;      (* a notify_one reached the parked waiter *)
  notify_calls : nat    (* calls of wait_cv.notify_one()          *)
}.

(** [wait_cv.notify_one()]: wakes the waiter if it is parked, is lost
    otherwise. *)
Definition notify_one (s : State) : State :=
  mk (ready s) (done s) (waiter s)
     (notified s || bool_decide (waiter s = Blocked))
     (S (notify_calls s)).

Definition Ready (s : State) : State :=
  let s := mk true (done s) (waiter s) (notified s) (notify_calls s) in
  if done s then notify_one s else s.

Definition Wake (s : State) : State :=
  let s := mk (ready s) true (waiter s) (notified s) (notify_calls s) in
  if ready s then notify_one s else s.

(** One evaluation of [while (!ready || !done) wait_cv.wait(lock);]. *)
Definition test_condition (s : State) : State :=
  if negb (ready s) || negb (done s)
  then mk (ready s) (done s) Blocked false (notify_calls s)
  else mk (ready s) (done s) Released false (notify_calls s).

(** The waiter calls [Wait()]. *)
Definition Wait (s : State) : State :=
  match waiter s with
  | Idle => test_condition s
  | _ => s
  end.

(** The parked waiter leaves [wait_cv.wait]. *)
Definition wakeup (s : State) : State :=
  match waiter s with
  | Blocked => test_condition s
  | _ => s
  end.

(** What the threads around one rendezvous can do. *)
Inductive Op := OpReady | OpWake | OpWait | OpWakeup.

#[global] Instance Op_eq_dec : EqDecision Op.
Proof. solve_decision. Defined.

Definition step (s : State) (o : Op) : State :=
  match o with
  | OpReady => Ready s
  | OpWake => Wake s
  | OpWait => Wait s
  | OpWakeup => wakeup s
  end.

Definition run (ops : list Op) (s : State) : State := foldl step s ops.

(** A released waiter has seen both flags. *)
Definition released_right (s : State) : Prop :=
  waiter s = Released → ready s = true ∧ done s = true.

(** A parked waiter that could go on has been notified. *)
Definition no_lost_wakeup (s : State) : Prop :=
  waiter s = Blocked → ready s = true → done s = true → notified s = true.

End AsyncWait.

(** ** A small engine to run the model on

    Live objects, garbage that a full collection frees, and a limit on the
    old generation that the near-heap-limit protocol may raise and restore;
    the reported heap limit adds 4096 bytes of other spaces.  Restoring
    keeps a quarter of slack over the objects in the heap, as v8 does. *)
Module Toy.

Record Isolate := mk {
  live : N;
  garbage : N;
  limit : N;
  execution_terminated : bool;
  stack_limit : option N;
  disposed : bool
}.

#[global] Instance engine : Engine Isolate := {
  GetHeapStatistics i := mkHeap (live i + garbage i) (limit i + 4096);
  LowMemoryNotification i :=
    mk (live i) 0 (limit i) (execution_terminated i) (stack_limit i) (disposed i);
  MemoryPressureNotification p i :=
    match p with
    | kNone => i
    | _ => mk (live i) 0 (limit i) (execution_terminated i) (stack_limit i) (disposed i)
    end;
  TerminateExecution i :=
    mk (live i) (garbage i) (limit i) true (stack_limit i) (disposed i);
  RemoveNearHeapLimitCallback restore i :=
    if bool_decide (restore = 0) then i
    else mk (live i) (garbage i)
           (N.min (limit i)
              (N.max restore (live i + garbage i + (live i + garbage i) / 4)))
           (execution_terminated i) (stack_limit i) (disposed i);
  AddNearHeapLimitCallback i := i;
  SetStackLimit a i :=
    mk (live i) (garbage i) (limit i) (execution_terminated i) (Some a) (disposed i);
  Dispose i :=
    mk (live i) (garbage i) (limit i) (execution_terminated i) (stack_limit i) true
}.

Definition idle_scheduler : Scheduler := mkScheduler Waiting [] [] [] [].

(** A sandboxed environment with a 128 MiB limit. *)
Definition sandbox : IsolateEnvironment :=
  mkEnv 1000 2000 3000 false idle_scheduler (128 * 1024 * 1024) 4096
        (128 * 1024 * 1024 + 4096) 0 false false false kNone ∅ None.

(** The environment of the default thread. *)
Definition root_env : IsolateEnvironment :=
  mkEnv 1 2 3 true idle_scheduler 0 0 0 0 false false false kNone ∅ None.

Definition fresh_isolate : Isolate := mk 1024 0 (128 * 1024 * 1024) false None false.

Definition world_of (e : IsolateEnvironment) (i : Isolate) : World Isolate :=
  mkWorld e i ∅ 0 None {[ isolate e := this e ]} {[ holder e := this e ]} None 7 7.

Definition world : World Isolate := world_of sandbox fresh_isolate.
Definition root_world : World Isolate := world_of root_env fresh_isolate.

(** The world a computation leaves behind. *)
Definition exec {A} (m : M Isolate A) (w : World Isolate) : World Isolate := (m w).1.2.

(** Runnables: 10 pushes task 11, 12 pushes interrupt 13, 14 pushes sync
    interrupt 15, 20 raises [hit_memory_limit], the others do nothing. *)
Definition Run (r : Runnable) (w : World Isolate) : World Isolate :=
  if bool_decide (r = 10) then exec (PushTask 11) w
  else if bool_decide (r = 12) then exec (PushInterrupt 13) w
  else if bool_decide (r = 14) then exec (PushSyncInterrupt 15) w
  else if bool_decide (r = 20) then with_env (with_hit_memory_limit true (env w)) w
  else w.

(** Cleanups: function 50 unregisters the handle it is given; any other
    function leaves the table alone. *)
Definition invoke (fn : FnPtr) (p : Param) (w : World Isolate) : World Isolate :=
  if bool_decide (fn = 50)
  then with_env (with_weak_persistents (delete p (weak_persistents (env w))) (env w)) w
  else w.

Definition with_queues (st : Status) (tasks handle_tasks interrupts sync : list Runnable)
    (w : World Isolate) : World Isolate :=
  with_env (with_scheduler (mkScheduler st tasks handle_tasks interrupts sync) (env w)) w.

(** A running pass that finds only a synchronous interrupt queued. *)
Definition sync_pending : World Isolate := with_queues Running [] [] [] [15] world.

(** A running pass with work in all three queues; task 10 pushes task 11. *)
Definition busy : World Isolate := with_queues Running [10; 1] [2] [3] [] world.

(** A running pass whose second task raises [hit_memory_limit]. *)
Definition doomed : World Isolate := with_queues Running [10; 20; 4] [] [] [] world.

(** 200 MiB of live objects under a 128 MiB limit. *)
Definition bloated : World Isolate :=
  world_of sandbox (mk (200 * 1024 * 1024) 0 (128 * 1024 * 1024) false None false).



(** 50 MiB in the heap and 70 MiB outside it, 93% of the budget, after two
    near-heap-limit grants of 1 GiB each. *)
Definition expanded : World Isolate :=
  world_of
    (mkEnv 1000 2000 3000 false idle_scheduler (128 * 1024 * 1024) 4096
       (128 * 1024 * 1024 + 4096) (70 * 1024 * 1024) false false true kNone ∅ None)
    (mk (50 * 1024 * 1024) 0 (128 * 1024 * 1024 + 2 * 1024 * 1024 * 1024)
        false None false).

(** Two registered weak handles, an attached inspector, work in every
    queue. *)
Definition populated : World Isolate :=
  with_env
    (with_inspector_agent (Some 77)
       (with_weak_persistents {[ 60 := (50, 60); 61 := (50, 61) ]}
          (with_scheduler (mkScheduler Waiting [1] [2] [3] [4]) sandbox)))
    world.

(** The same with a cleanup that does not unregister its handle. *)
Definition leaky : World Isolate :=
  with_env (with_weak_persistents {[ 60 := (51, 60) ]} sandbox) world.

End Toy.

(** ** Vocabulary of the statements *)

(** The hand-offs of a wake: to the async handle of the default thread, or
    to a worker of the pool. *)
Definition is_dispatch (e : Event) : bool :=
  match e with
  | EvUvAsyncSend | EvThreadPoolExec _ => true
  | _ => false
  end.

Definition dispatches (ev : list Event) : list Event :=
  List.filter is_dispatch ev.

(** A failed [assert] ends the process: no later step sees the world it
    leaves. *)
Definition aborted {A} (o : Outcome A) : bool :=
  match o with
  | Stopped (assertion_failed _) => true
  | _ => false
  end.

Section Vocabulary.

Context {I : Type} `{Engine I}.

Definition status_of (w : World I) : Status := status (scheduler (env w)).

(** Frame reasoning: a computation that leaves a projection of the
    world alone, however it ends. *)
Definition keeps {X A} (proj : World I → X) (m : M I A) : Prop :=
  ∀ w, proj (m w).1.2 = proj w.

(** The two moves of the status flag. *)
Definition status_move (s s' : Status) : Prop :=
  s' = s ∨ (s = Running ∧ s' = Waiting).

(** The events of [Terminate] on a sandboxed environment. *)
Definition Terminate_events (w : World I) : list Event :=
  [EvSchedulerLock] ++
  match inspector_agent (env w) with
  | Some a => [EvAgentTerminate a]
  | None => []
  end ++ [EvSchedulerUnlock].

Definition Terminate_world (w : World I) : World I :=
  with_holder_isolate (delete (holder (env w)) (holder_isolate w))
    (with_v8 (TerminateExecution (v8 w))
       (with_env (with_terminated true (env w)) w)).


(** The bounded model of a loop gave up. *)
Definition ran_out {A} (r : Outcome A * World I * list Event) : Prop :=
  r.1.1 = Stopped out_of_fuel.

Definition finishes {A} (m : M I A) : Prop := ∀ w, ¬ ran_out (m w).

(** The two sides of the comparison in the GC epilogue, in [size_t]. *)
Definition total_memory (w : World I) : N :=
  size_t_add (used_heap_size (GetHeapStatistics (v8 w)))
             (extra_allocated_memory (env w)).

Definition budget (w : World I) : N :=
  size_t_add (memory_limit (env w)) (misc_memory_size (env w)).

(** [total_memory + total_memory / 4 > memory_limit]: load above 80%. *)
Definition above_80_percent (w : World I) : bool :=
  budget w <? size_t_add (total_memory w) (total_memory w / 4).

(** The world after the ratchet: the near-heap-limit callback removed with
    [memory_limit] as the limit to restore, installed again, and the flag
    cleared if the engine then reports the initial limit. *)
Definition ratcheted (w : World I) : World I :=
  let w1 :=
    with_v8 (AddNearHeapLimitCallback
               (RemoveNearHeapLimitCallback (memory_limit (env w)) (v8 w))) w in
  if bool_decide (heap_size_limit (GetHeapStatistics (v8 w1)) =
                  initial_heap_size_limit (env w))
  then with_env (with_did_adjust_heap_limit false (env w1)) w1
  else w1.

(** *** The execution pass

    The pass as the design describes it, with the three queues the code
    takes: a second definition, to be compared with [AsyncEntry_loop]. *)

Section PassVocabulary.

Variable Run : Runnable → World I → World I.

(** The events of running, then popping, each element of a queue. *)
Definition ran (q : list Runnable) : list Event :=
  flat_map (λ r, [EvRun r; EvDestroy r]) q.

(** The world after running a queue front to back. *)
Definition runs (q : list Runnable) (w : World I) : World I :=
  foldl (λ w r, Run r w) w q.

(** The world after [CheckMemoryPressure]. *)
Definition pressure_checked (w : World I) : World I :=
  (CheckMemoryPressure w).1.2.

(** The world after running tasks with the memory-pressure check after
    each. *)
Definition task_world (q : list Runnable) (w : World I) : World I :=
  foldl (λ w r, pressure_checked (Run r w)) w q.

(** No task of [q], run in turn from [w], leaves [hit_memory_limit] set. *)
Definition none_hit (q : list Runnable) (w : World I) : Prop :=
  ∀ p r rest, q = p ++ r :: rest →
    hit_memory_limit (env (Run r (task_world p w))) = false.

(** The scheduler after [TakeTasks], [TakeHandleTasks], [TakeInterrupts]:
    [sync_interrupts] stays where it is. *)
Definition taken (w : World I) : World I :=
  with_env
    (with_scheduler
       (mkScheduler (status (scheduler (env w))) [] [] []
          (sync_interrupts (scheduler (env w))))
       (env w)) w.

Definition nothing_queued (w : World I) : Prop :=
  tasks (scheduler (env w)) = [] ∧
  handle_tasks (scheduler (env w)) = [] ∧
  interrupts (scheduler (env w)) = [].

Definition now_waiting (w : World I) : World I :=
  with_env (with_scheduler (with_status Waiting (scheduler (env w))) (env w)) w.

(** The world in which the loop of [AsyncEntry] starts: executor lock
    taken and, off the default environment, the stack limit set when the
    platform reports a stack base. *)
Definition entered (stack_base : option N) (w : World I) : World I :=
  let w1 := with_current_env (Some (this (env w))) w in
  if root (env w) then w1
  else match stack_base with
       | Some base => with_v8 (SetStackLimit (size_t_add base (1024 * 6)) (v8 w1)) w1
       | None => w1
       end.

(** The world in which the tasks of an iteration start. *)
Definition before_tasks (w : World I) : World I :=
  runs (handle_tasks (scheduler (env w)))
    (runs (interrupts (scheduler (env w))) (taken w)).

Definition iteration_prefix (w : World I) : list Event :=
  [EvSchedulerLock; EvSchedulerUnlock] ++
  ran (interrupts (scheduler (env w))) ++
  ran (handle_tasks (scheduler (env w))).

(** [pass w ev w']: a pass that starts in [w] returns in [w'] having
    emitted [ev]. *)
Inductive pass : World I → list Event → World I → Prop :=
  | pass_done w :
      (* nothing in the three queues: DoneRunning, stop *)
      nothing_queued w →
      status_of w = Running →
      pass w [EvSchedulerLock; EvSchedulerUnlock] (now_waiting (taken w))
  | pass_stop w p r left w3 :
      (* interrupts, handle tasks, then tasks up to the one after which
         hit_memory_limit is set; the rest is destroyed unrun *)
      ¬ nothing_queued w →
      tasks (scheduler (env w)) = p ++ r :: left →
      none_hit p (before_tasks w) →
      w3 = Run r (task_world p (before_tasks w)) →
      hit_memory_limit (env w3) = true →
      pass w (iteration_prefix w ++ ran (p ++ [r]) ++ (EvDestroy <$> left)) w3
  | pass_again w w3 ev w' :
      (* interrupts, handle tasks, all tasks; then the next iteration, on
         what was pushed meanwhile *)
      ¬ nothing_queued w →
      none_hit (tasks (scheduler (env w))) (before_tasks w) →
      w3 = task_world (tasks (scheduler (env w))) (before_tasks w) →
      pass w3 ev w' →
      pass w (iteration_prefix w ++ ran (tasks (scheduler (env w))) ++ ev) w'.

End PassVocabulary.

(** *** Destruction *)

Definition cleanup_event (e : Handle * (FnPtr * Param)) : Event :=
  EvWeakCallback e.2.1 e.2.2.

(** Every cleanup of [entries] erases the entry it was registered for and
    no other. *)
Definition unregisters_itself (invoke : FnPtr → Param → World I → World I)
    (entries : list (Handle * (FnPtr * Param))) : Prop :=
  ∀ h fn p, (h, (fn, p)) ∈ entries →
    ∀ w, weak_persistents (env (invoke fn p w)) = delete h (weak_persistents (env w)).

(** The world in which the cleanups start: agent detached, executor lock
    taken. *)
Definition detached (w : World I) : World I :=
  with_current_env (Some (this (env w)))
    (with_env (with_inspector_agent None (env w)) w).

Definition dtor_prologue (w : World I) : list Event :=
  [EvSchedulerLock; EvSchedulerUnlock; EvExecutorLock (this (env w))] ++
  match inspector_agent (env w) with
  | Some a => [EvAgentDestroy a]
  | None => []
  end.

(** What follows the cleanups, from the world [wk] they leave. *)
Definition dtor_epilogue (wk : World I) : list Event :=
  [EvSchedulerLock] ++
  (EvDestroy <$> interrupts (scheduler (env wk))) ++
  (EvDestroy <$> sync_interrupts (scheduler (env wk))) ++
  (EvDestroy <$> handle_tasks (scheduler (env wk))) ++
  (EvDestroy <$> tasks (scheduler (env wk))) ++
  [EvSchedulerUnlock; EvExecutorUnlock (this (env wk));
   EvIsolateDispose (Some (this (env wk)))].

Definition destroyed (w wk : World I) : World I :=
  with_isolate_map (delete (isolate (env wk)) (isolate_map wk))
    (with_current_env (current_env w)
       (with_v8 (Dispose (v8 wk))
          (with_env
             (with_scheduler
                (mkScheduler (status (scheduler (env wk))) [] [] [] [])
                (env wk))
             wk))).

Variable V8_AT_LEAST_6_9_406 : bool.
Variable as_interrupt_default : bool.

(** A request for moderate pressure from inside a GC callback: parked for
    the next interrupt, or sent to the engine at once. *)
Definition moderate_requested (w : World I) : Outcome unit * World I * list Event :=
  if negb V8_AT_LEAST_6_9_406 || as_interrupt_default then
    (Return tt, with_env (with_memory_pressure kModerate (env w)) w,
     [EvRequestInterrupt MemoryPressureInterrupt])
  else
    (Return tt,
     with_v8 (MemoryPressureNotification kModerate (v8 w))
       (with_env (with_memory_pressure kNone (env w)) w),
     []).

End Vocabulary.

(** * The rest of the file

    The dispatch callbacks that run a pass, the constructors, and the
    engine calls only they make. *)

Definition size_t_mul (a b : N) : N := (a * b) mod 2 ^ 64.
Definition size_t_sub (a b : N) : N := (a + 2 ^ 64 - b mod 2 ^ 64) mod 2 ^ 64.

(** The engine calls of the constructors and of the dispatch callbacks. *)
Class EngineSetup (I : Type) := {
  DiscardThreadSpecificMetadata : I → I;
  SetOOMErrorHandler : I → I;
  SetPromiseRejectCallback : I → I;
  AddGCEpilogueCallback : I → I;
  NewContext : I → I
}.

(** [std::map::insert]: an element that is there stays. *)
Definition map_insert_new (k : IsolatePtr) (v : EnvPtr)
    (m : gmap IsolatePtr EnvPtr) : gmap IsolatePtr EnvPtr :=
  match m !! k with
  | Some _ => m
  | None => <[k := v]> m
  end.

Section Dispatch.

Context {I : Type} `{Engine I} `{EngineSetup I}.

Notation "'do' x <- m ; k" := (bind m (λ x, k))
  (at level 10, x name, m at level 100, k at level 200).
Notation "m >> k" := (bind m (λ _, k))
  (at level 65, right associativity).

Variable Run : Runnable → World I → World I.
Variable stack_base : option N.

Definition with_isolate (i : IsolatePtr) (e : IsolateEnvironment) :=
  mkEnv (this e) i (holder e) (root e) (scheduler e) (memory_limit e)
    (misc_memory_size e) (initial_heap_size_limit e) (extra_allocated_memory e)
    (hit_memory_limit e) (terminated e) (did_adjust_heap_limit e)
    (memory_pressure e) (weak_persistents e) (inspector_agent e).
Definition with_root (b : bool) (e : IsolateEnvironment) :=
  mkEnv (this e) (isolate e) (holder e) b (scheduler e) (memory_limit e)
    (misc_memory_size e) (initial_heap_size_limit e) (extra_allocated_memory e)
    (hit_memory_limit e) (terminated e) (did_adjust_heap_limit e)
    (memory_pressure e) (weak_persistents e) (inspector_agent e).
Definition with_memory_limit (n : N) (e : IsolateEnvironment) :=
  mkEnv (this e) (isolate e) (holder e) (root e) (scheduler e) n
    (misc_memory_size e) (initial_heap_size_limit e) (extra_allocated_memory e)
    (hit_memory_limit e) (terminated e) (did_adjust_heap_limit e)
    (memory_pressure e) (weak_persistents e) (inspector_agent e).
Definition with_misc_memory_size (n : N) (e : IsolateEnvironment) :=
  mkEnv (this e) (isolate e) (holder e) (root e) (scheduler e) (memory_limit e)
    n (initial_heap_size_limit e) (extra_allocated_memory e)
    (hit_memory_limit e) (terminated e) (did_adjust_heap_limit e)
    (memory_pressure e) (weak_persistents e) (inspector_agent e).
Definition with_initial_heap_size_limit (n : N) (e : IsolateEnvironment) :=
  mkEnv (this e) (isolate e) (holder e) (root e) (scheduler e) (memory_limit e)
    (misc_memory_size e) n (extra_allocated_memory e)
    (hit_memory_limit e) (terminated e) (did_adjust_heap_limit e)
    (memory_pressure e) (weak_persistents e) (inspector_agent e).
Definition with_default_thread (t : ThreadId) (w : World I) : World I :=
  mkWorld (env w) (v8 w) (other_envs w) (uv_ref_count w) (root_async_data w)
    (isolate_map w) (holder_isolate w) (current_env w) (this_thread w) t.

(** Pressure left for the next interrupt to deliver. *)
Definition parked (p : MemoryPressureLevel) (w : World I) : World I :=
  with_env (with_memory_pressure p (env w)) w.

(** Pressure handed to the engine. *)
Definition delivered (p : MemoryPressureLevel) (w : World I) : World I :=
  with_v8 (MemoryPressureNotification p (v8 w))
    (with_env (with_memory_pressure kNone (env w)) w).

(** [Terminate] followed by [hit_memory_limit = true]. *)
Definition terminated_for_memory (w : World I) : World I :=
  with_env (with_hit_memory_limit true (env (Terminate_world w))) (Terminate_world w).

(** ** Interrupt entry points *)

Definition IsolateEnvironment_MemoryPressureInterrupt : M I unit :=
  CheckMemoryPressure.

Definition Scheduler_AsyncCallbackInterrupt (fuel : nat) : M I unit :=
  InterruptEntry Run TakeInterrupts fuel.

Definition Scheduler_SyncCallbackInterrupt (fuel : nat) : M I unit :=
  InterruptEntry Run TakeSyncInterrupts fuel.

(** A take as a reading and an emptying of one queue. *)
Definition takes (Take : M I (list Runnable))
    (sel : World I → list Runnable) (clr : World I → World I) : Prop :=
  (∀ w, Take w = (Return (sel w), clr w, [])) ∧
  (∀ w, sel (clr w) = []) ∧
  (∀ w, sel w = [] → clr w = w).

Definition without_interrupts (w : World I) : World I :=
  with_env (with_scheduler (with_interrupts [] (scheduler (env w))) (env w)) w.

Definition without_sync_interrupts (w : World I) : World I :=
  with_env (with_scheduler (with_sync_interrupts [] (scheduler (env w))) (env w)) w.

Definition interrupt_callback (sync : bool) : nat → M I unit :=
  if sync then Scheduler_SyncCallbackInterrupt else Scheduler_AsyncCallbackInterrupt.

Definition interrupt_queue (sync : bool) (w : World I) : list Runnable :=
  if sync then sync_interrupts (scheduler (env w)) else interrupts (scheduler (env w)).

Definition without_queue (sync : bool) (w : World I) : World I :=
  if sync then without_sync_interrupts w else without_interrupts w.

(** ** Dispatch callbacks

    The parameter of the callbacks is the pointer [WakeIsolate] made; the
    world holds the environment it refers to.  [AsyncCallbackCommon] moves
    the reference out of it into a local [shared_ptr], which is released
    when the function returns.  Who else owns the environment is not
    decided in this file: [last_reference] says that nobody does at that
    point, and the release then runs the destructor, inside the callback. *)

Variable invoke : FnPtr → Param → World I → World I.

Definition AsyncCallbackCommon (pool_thread last_reference : bool) (fuel : nat) :
    M I unit :=
  AsyncEntry Run stack_base fuel >>
  (if negb pool_thread then modify_v8 DiscardThreadSpecificMetadata else ret tt) >>
  if last_reference then IsolateEnvironment_dtor invoke else ret tt.

Definition AsyncCallbackNonDefaultIsolate (pool_thread last_reference : bool)
    (fuel : nat) : M I unit :=
  AsyncCallbackCommon pool_thread last_reference fuel >>
  modify (λ w, with_uv_ref_count (uint_decr (uv_ref_count w)) w) >>
  do n <- get uv_ref_count;
  if bool_decide (n = 0) then emit EvUvAsyncSend else ret tt.

Definition AsyncCallbackDefaultIsolate (last_reference : bool) (fuel : nat) : M I unit :=
  SchedulerLock_enter >>
  do data <- get root_async_data;
  modify (with_root_async_data None) >>
  SchedulerLock_leave >>
  match data with
  | None =>
      do n <- get uv_ref_count;
      if bool_decide (n = 0) then emit EvUvUnref else ret tt
  | Some _ =>
      AsyncCallbackCommon true last_reference fuel >>
      modify (λ w, with_uv_ref_count (uint_decr (uv_ref_count w)) w) >>
      do n <- get uv_ref_count;
      if bool_decide (n = 0) then emit EvUvUnref else ret tt
  end.

(** A computation that hands nothing off, however it ends. *)
Definition hands_off_nothing {A} (m : M I A) : Prop :=
  ∀ w, dispatches (m w).2 = [].

(** What the callback of the default thread works with: the count of
    outstanding work, the slot of the async handle, and whether the
    environment is the root one. *)
Definition default_thread_view (w : World I) : N * option EnvPtr * bool :=
  (uv_ref_count w, root_async_data w, root (env w)).

(** [n] callers in a row try to wake the environment; the result counts
    those that were told they did. *)
Fixpoint wake_many (n : nat) : M I nat :=
  match n with
  | O => ret O
  | S n' =>
      do woke <- WakeIsolate;
      do k <- wake_many n';
      ret (if woke then S k else k)
  end.

(** The world and the events of a [WakeIsolate] that wakes. *)
Definition woken (w : World I) : World I :=
  with_root_async_data
    (if root (env w) then Some (this (env w)) else root_async_data w)
    (with_uv_ref_count (uint_incr (uv_ref_count w))
       (with_env (with_scheduler (with_status Running (scheduler (env w))) (env w)) w)).

Definition wake_events (w : World I) : list Event :=
  (if bool_decide (uint_incr (uv_ref_count w) = 1) then [EvUvRef] else []) ++
  [if root (env w) then EvUvAsyncSend else EvThreadPoolExec (this (env w))].

(** The same world seen from the thread that picks the work up. *)
Definition on_thread (t : ThreadId) (w : World I) : World I :=
  mkWorld (env w) (v8 w) (other_envs w) (uv_ref_count w) (root_async_data w)
    (isolate_map w) (holder_isolate w) (current_env w) t (default_thread w).

(** Runnables are pushed in a row on one queue. *)
Fixpoint push_many (Push : Runnable → M I unit) (rs : list Runnable) : M I unit :=
  match rs with
  | [] => ret tt
  | r :: rs' => Push r >> push_many Push rs'
  end.

(** Push, take, take again. *)
Definition push_take_take (Push : Runnable → M I unit) (Take : M I (list Runnable))
    (rs : list Runnable) : M I (list Runnable * list Runnable) :=
  push_many Push rs >>
  do first <- Take;
  do second <- Take;
  ret (first, second).

(** ** Construction *)

Definition Executor_Init : M I unit :=
  do cur <- get current_env;
  cxx_assert "current_env == nullptr" (bool_decide (cur = None)) >>
  do me <- get (λ w, this (env w));
  modify (with_current_env (Some me)) >>
  modify (λ w, with_default_thread (this_thread w) w).

(** [uv_async_init] makes the handle the uv events of the log speak of. *)
Definition Scheduler_Init : M I unit :=
  modify (with_root_async_data None) >>
  emit EvUvUnref.

Definition register_isolate : M I unit :=
  modify (λ w, with_isolate_map
                 (map_insert_new (isolate (env w)) (this (env w)) (isolate_map w)) w).

(** [IsolateCtor(Isolate*, Local<Context>)], for the environment of the
    default thread. *)
Definition IsolateCtor_root (isolate : IsolatePtr) : M I unit :=
  modify_env (with_isolate isolate) >>
  modify_env (with_root true) >>
  Executor_Init >>
  Scheduler_Init >>
  register_isolate.

(** [IsolateCtor(size_t, shared_ptr<void>, size_t)].  The resource
    constraints and the snapshot go into [Isolate::New], whose result, the
    address [isolate] and the state [created] of the new instance, is an
    input here. *)
Definition IsolateCtor_sandbox (memory_limit_in_mb : N)
    (isolate : IsolatePtr) (created : I) : M I unit :=
  modify_env (with_memory_limit (size_t_mul (size_t_mul memory_limit_in_mb 1024) 1024)) >>
  modify_env (with_root false) >>
  modify_env (with_isolate isolate) >>
  modify_v8 (λ _, created) >>
  register_isolate >>
  modify_v8 SetOOMErrorHandler >>
  modify_v8 SetPromiseRejectCallback >>
  modify_v8 AddGCEpilogueCallback >>
  modify_v8 AddNearHeapLimitCallback >>
  do heap <- get (λ w, GetHeapStatistics (v8 w));
  modify_env (with_initial_heap_size_limit (heap_size_limit heap)) >>
  modify_env (with_misc_memory_size
                (size_t_sub (heap_size_limit heap)
                   (size_t_mul (size_t_mul memory_limit_in_mb 1024) 1024))) >>
  modify_v8 NewContext >>
  modify_v8 DiscardThreadSpecificMetadata.

(** [make_unique] gives the new agent its address; assigning it destroys
    the agent that was attached. *)
Definition EnableInspectorAgent (agent : AgentPtr) : M I unit :=
  do old <- get (λ w, inspector_agent (env w));
  modify_env (with_inspector_agent (Some agent)) >>
  match old with
  | Some a => emit (EvAgentDestroy a)
  | None => ret tt
  end.

Definition GetInspectorAgent : M I (option AgentPtr) :=
  get (λ w, inspector_agent (env w)).

End Dispatch.

#[global] Instance Toy_setup : EngineSetup Toy.Isolate := {
  DiscardThreadSpecificMetadata i :=
    Toy.mk (Toy.live i) (Toy.garbage i) (Toy.limit i) (Toy.execution_terminated i)
           None (Toy.disposed i);
  SetOOMErrorHandler i := i;
  SetPromiseRejectCallback i := i;
  AddGCEpilogueCallback i := i;
  NewContext i := i
}.

(** ** The end of a task *)

Definition JsValue := N.        (* the value behind a v8::Local<v8::Value> *)

Class EngineTasks (I : Type) := {
  ThrowException : JsValue → I → I
}.

(** The world together with the field [rejected_promise_error] of every
    environment; a key that is absent is an empty handle. *)
Record TaskWorld (I : Type) := mkTaskWorld {
  world : World I;
  rejected_promise_error : gmap EnvPtr JsValue
}.
Arguments mkTaskWorld {I} world rejected_promise_error.
Arguments world {I} t.
Arguments rejected_promise_error {I} t.

Section Tasks.

Context {I : Type} `{Engine I} `{EngineTasks I}.

(** [isolate->RunMicrotasks()] runs code of the sandbox. *)
Variable RunMicrotasks : TaskWorld I → TaskWorld I.

(** [that] is the result of [GetCurrent()], [v8_current] the one of
    [Isolate::GetCurrent()], [value] the one of [rejection.GetValue()],
    which may be an empty handle. *)
Definition PromiseRejectCallback (that : option EnvPtr) (v8_current : IsolatePtr)
    (value : option JsValue) (tw : TaskWorld I) :
    Outcome unit * TaskWorld I * list Event :=
  match that with
  | None => (Stopped (undefined_behaviour "null IsolateEnvironment*"), tw, [])
  | Some p =>
      match deref p (world tw) with
      | None => (Stopped (undefined_behaviour "dangling IsolateEnvironment*"), tw, [])
      | Some e =>
          if bool_decide (isolate e = v8_current) then
            (Return tt,
             mkTaskWorld (world tw)
               (match value with
                | Some v => <[p := v]> (rejected_promise_error tw)
                | None => delete p (rejected_promise_error tw)
                end),
             [])
          else
            (Stopped (assertion_failed "that->isolate == Isolate::GetCurrent()"), tw, [])
      end
  end.

Definition TaskEpilogue (tw : TaskWorld I) : Outcome unit * TaskWorld I * list Event :=
  let tw1 := RunMicrotasks tw in
  match CheckMemoryPressure (world tw1) with
  | (Return _, w2, ev) =>
      if hit_memory_limit (env w2) then
        (Stopped (throw (js_fatal_error
           "Isolate was disposed during execution due to memory limit")),
         mkTaskWorld w2 (rejected_promise_error tw1), ev)
      else
        match rejected_promise_error tw1 !! this (env w2) with
        | Some v =>
            (Stopped (throw js_runtime_error),
             mkTaskWorld (with_v8 (ThrowException v (v8 w2)) w2)
               (delete (this (env w2)) (rejected_promise_error tw1)),
             ev)
        | None => (Return tt, mkTaskWorld w2 (rejected_promise_error tw1), ev)
        end
  | (Stopped s, w2, ev) => (Stopped s, mkTaskWorld w2 (rejected_promise_error tw1), ev)
  end.

End Tasks.

#[global] Instance Toy_tasks : EngineTasks Toy.Isolate := {
  ThrowException _ i := i
}.

(** * Timers

    [CpuTimer], [WallTimer], the scopes built on them and the part of
    [Executor::Lock] that starts and stops them.  A timer is an object at
    an address: the executor of an environment and the thread point at it.
    The model follows one thread.  Every reading of a clock is an argument
    of the operation that takes it, in nanoseconds; durations are in [Z]. *)
Module Timers.

Definition TimerPtr := N.   (* CpuTimer*, WallTimer* *)
Definition LockPtr := N.    (* Executor::Lock*       *)

Record Executor := mkExecutor {
  cpu_timer : option TimerPtr;
  wall_timer : option TimerPtr;
  cpu_time : Z;
  wall_time : Z
}.

Record CpuTimer := mkCpuTimer {
  CpuTimer_executor : EnvPtr;
  CpuTimer_last : option TimerPtr;
  CpuTimer_time : Z
}.

(** [time] is set only by the timer that finds no other registered. *)
Record WallTimer := mkWallTimer {
  WallTimer_executor : EnvPtr;
  WallTimer_cpu_timer : option TimerPtr;
  WallTimer_time : option Z
}.

Inductive TimerEvent :=
  | EvTimerPause (e : EnvPtr)       (* timer_t::pause(executor.env.timer_holder)  *)
  | EvTimerResume (e : EnvPtr)      (* timer_t::resume(executor.env.timer_holder) *)
  | EvLocker (e : EnvPtr)           (* v8::Locker ctor   *)
  | EvLockerRelease (e : EnvPtr)    (* v8::Locker dtor   *)
  | EvUnlocker (e : EnvPtr)         (* v8::Unlocker ctor *)
  | EvUnlockerRelease (e : EnvPtr). (* v8::Unlocker dtor *)

(** The executors of the environments, the live timers, and the two
    thread-local pointers of the running thread. *)
Record State := mkState {
  executors : gmap EnvPtr Executor;
  cpu_timers : gmap TimerPtr CpuTimer;
  wall_timers : gmap TimerPtr WallTimer;
  cpu_timer_thread : option TimerPtr;
  current : option LockPtr
}.

Definition with_cpu_timer (p : option TimerPtr) (x : Executor) : Executor :=
  mkExecutor p (wall_timer x) (cpu_time x) (wall_time x).
Definition with_wall_timer (p : option TimerPtr) (x : Executor) : Executor :=
  mkExecutor (cpu_timer x) p (cpu_time x) (wall_time x).
Definition with_cpu_time (t : Z) (x : Executor) : Executor :=
  mkExecutor (cpu_timer x) (wall_timer x) t (wall_time x).
Definition with_wall_time (t : Z) (x : Executor) : Executor :=
  mkExecutor (cpu_timer x) (wall_timer x) (cpu_time x) t.

Definition with_executors (m : gmap EnvPtr Executor) (s : State) : State :=
  mkState m (cpu_timers s) (wall_timers s) (cpu_timer_thread s) (current s).
Definition with_cpu_timers (m : gmap TimerPtr CpuTimer) (s : State) : State :=
  mkState (executors s) m (wall_timers s) (cpu_timer_thread s) (current s).
Definition with_wall_timers (m : gmap TimerPtr WallTimer) (s : State) : State :=
  mkState (executors s) (cpu_timers s) m (cpu_timer_thread s) (current s).
Definition with_cpu_timer_thread (p : option TimerPtr) (s : State) : State :=
  mkState (executors s) (cpu_timers s) (wall_timers s) p (current s).
Definition with_current (p : option LockPtr) (s : State) : State :=
  mkState (executors s) (cpu_timers s) (wall_timers s) (cpu_timer_thread s) p.

(** The monad of the timers: state, failure and a log of their own. *)
Definition T (A : Type) : Type := State → Outcome A * State * list TimerEvent.

Definition ret {A} (a : A) : T A := λ s, (Return a, s, []).
Definition bind {A B} (m : T A) (k : A → T B) : T B :=
  λ s, match m s with
       | (Return a, s1, ev1) =>
           match k a s1 with (o, s2, ev2) => (o, s2, ev1 ++ ev2) end
       | (Stopped e, s1, ev1) => (Stopped e, s1, ev1)
       end.

Local Notation "'do' x <- m ; k" := (bind m (λ x, k))
  (at level 10, x name, m at level 100, k at level 200).
Local Notation "m >> k" := (bind m (λ _, k))
  (at level 65, right associativity).

Definition stop {A} (e : Stop) : T A := λ s, (Stopped e, s, []).
Definition get {A} (f : State → A) : T A := λ s, (Return (f s), s, []).
Definition modify (f : State → State) : T unit := λ s, (Return tt, f s, []).
Definition emit (e : TimerEvent) : T unit := λ s, (Return tt, s, [e]).
Definition cxx_assert (cond : string) (b : bool) : T unit :=
  if b then ret tt else stop (assertion_failed cond).

(** [Executor& executor]: the executor of a live environment. *)
Definition the_executor (e : EnvPtr) : T Executor :=
  do m <- get executors;
  match m !! e with
  | Some x => ret x
  | None => stop (undefined_behaviour "dangling Executor&")
  end.

Definition update_executor (e : EnvPtr) (f : Executor → Executor) : T unit :=
  do x <- the_executor e;
  modify (λ s, with_executors (<[e := f x]> (executors s)) s).

(** [*timer] for a [CpuTimer* timer]. *)
Definition the_cpu_timer (p : option TimerPtr) : T CpuTimer :=
  match p with
  | None => stop (undefined_behaviour "null CpuTimer*")
  | Some a =>
      do m <- get cpu_timers;
      match m !! a with
      | Some t => ret t
      | None => stop (undefined_behaviour "dangling CpuTimer*")
      end
  end.

Definition the_wall_timer (p : option TimerPtr) : T WallTimer :=
  match p with
  | None => stop (undefined_behaviour "null WallTimer*")
  | Some a =>
      do m <- get wall_timers;
      match m !! a with
      | Some t => ret t
      | None => stop (undefined_behaviour "dangling WallTimer*")
      end
  end.

(** ** CpuTimer *)

Definition CpuTimer_ctor (self : TimerPtr) (executor : EnvPtr) (now : Z) : T unit :=
  do last <- get cpu_timer_thread;
  modify (λ s, with_cpu_timers
                 (<[self := mkCpuTimer executor last now]> (cpu_timers s)) s) >>
  modify (with_cpu_timer_thread (Some self)) >>
  do x <- the_executor executor;
  cxx_assert "executor.cpu_timer == nullptr" (bool_decide (cpu_timer x = None)) >>
  update_executor executor (with_cpu_timer (Some self)).

Definition CpuTimer_dtor (self : TimerPtr) (now : Z) : T unit :=
  do t <- the_cpu_timer (Some self);
  modify (with_cpu_timer_thread (CpuTimer_last t)) >>
  update_executor (CpuTimer_executor t)
    (λ x, with_cpu_time (cpu_time x + (now - CpuTimer_time t)) x) >>
  do x <- the_executor (CpuTimer_executor t);
  cxx_assert "executor.cpu_timer == this" (bool_decide (cpu_timer x = Some self)) >>
  update_executor (CpuTimer_executor t) (with_cpu_timer None) >>
  modify (λ s, with_cpu_timers (delete self (cpu_timers s)) s).

(** [Delta]: the caller holds [timer_mutex]. *)
Definition CpuTimer_Delta (timer : option TimerPtr) (now : Z) : T Z :=
  do t <- the_cpu_timer timer;
  ret (now - CpuTimer_time t)%Z.

Definition Pause (timer : option TimerPtr) (now : Z) : T unit :=
  do t <- the_cpu_timer timer;
  update_executor (CpuTimer_executor t)
    (λ x, with_cpu_time (cpu_time x + (now - CpuTimer_time t)) x) >>
  do x <- the_executor (CpuTimer_executor t);
  cxx_assert "executor.cpu_timer == this" (bool_decide (cpu_timer x = timer)) >>
  update_executor (CpuTimer_executor t) (with_cpu_timer None) >>
  emit (EvTimerPause (CpuTimer_executor t)).

Definition Resume (timer : option TimerPtr) (now : Z) : T unit :=
  do t <- the_cpu_timer timer;
  match timer with
  | Some a =>
      modify (λ s, with_cpu_timers
                     (<[a := mkCpuTimer (CpuTimer_executor t) (CpuTimer_last t) now]>
                        (cpu_timers s)) s)
  | None => ret tt
  end >>
  do x <- the_executor (CpuTimer_executor t);
  cxx_assert "executor.cpu_timer == nullptr" (bool_decide (cpu_timer x = None)) >>
  update_executor (CpuTimer_executor t) (with_cpu_timer timer) >>
  emit (EvTimerResume (CpuTimer_executor t)).

(** [PauseScope] and [UnpauseScope] hold the pointer they were given. *)
Definition PauseScope_ctor (timer : option TimerPtr) (now : Z) : T (option TimerPtr) :=
  Pause timer now >> ret timer.
Definition PauseScope_dtor (timer : option TimerPtr) (now : Z) : T unit :=
  Resume timer now.
Definition UnpauseScope_ctor (pause : option TimerPtr) (now : Z) : T (option TimerPtr) :=
  Resume pause now >> ret pause.
Definition UnpauseScope_dtor (timer : option TimerPtr) (now : Z) : T unit :=
  Pause timer now.

(** ** WallTimer

    [now_cpu] is the reading [Pause] or [Resume] takes, [now] the one of
    the steady clock. *)
Definition WallTimer_ctor (self : TimerPtr) (executor : EnvPtr) (now_cpu now : Z) : T unit :=
  do cpu_timer <- get cpu_timer_thread;
  modify (λ s, with_wall_timers
                 (<[self := mkWallTimer executor cpu_timer None]> (wall_timers s)) s) >>
  match cpu_timer with
  | Some _ => Pause cpu_timer now_cpu
  | None => ret tt
  end >>
  do x <- the_executor executor;
  if bool_decide (wall_timer x = None) then
    update_executor executor (with_wall_timer (Some self)) >>
    modify (λ s, with_wall_timers
                   (<[self := mkWallTimer executor cpu_timer (Some now)]> (wall_timers s)) s)
  else ret tt.

Definition WallTimer_dtor (self : TimerPtr) (now_cpu now : Z) : T unit :=
  do t <- the_wall_timer (Some self);
  match WallTimer_cpu_timer t with
  | Some _ => Resume (WallTimer_cpu_timer t) now_cpu
  | None => ret tt
  end >>
  do x <- the_executor (WallTimer_executor t);
  (if bool_decide (wall_timer x = Some self) then
     update_executor (WallTimer_executor t) (with_wall_timer None) >>
     match WallTimer_time t with
     | Some since =>
         update_executor (WallTimer_executor t)
           (λ x, with_wall_time (wall_time x + (now - since)) x)
     | None => stop (undefined_behaviour "time is not initialised")
     end
   else ret tt) >>
  modify (λ s, with_wall_timers (delete self (wall_timers s)) s).

Definition WallTimer_Delta (timer : option TimerPtr) (now : Z) : T Z :=
  do t <- the_wall_timer timer;
  match WallTimer_time t with
  | Some since => ret (now - since)%Z
  | None => stop (undefined_behaviour "time is not initialised")
  end.

(** ** Executor::Lock and Executor::Unlock

    The members in the order of their declaration; [scope] is
    [Scope_enter] of the world's model.  The result of a constructor is
    what the object keeps for its destructor. *)
Definition Lock_ctor (self : LockPtr) (wall_timer cpu_timer : TimerPtr) (env : EnvPtr)
    (now_pause now_wall now_cpu : Z) : T (option LockPtr) :=
  do last <- get current;
  WallTimer_ctor wall_timer env now_pause now_wall >>
  emit (EvLocker env) >>
  CpuTimer_ctor cpu_timer env now_cpu >>
  modify (with_current (Some self)) >>
  ret last.

Definition Lock_dtor (last : option LockPtr) (wall_timer cpu_timer : TimerPtr)
    (env : EnvPtr) (now_cpu now_resume now_wall : Z) : T unit :=
  modify (with_current last) >>
  CpuTimer_dtor cpu_timer now_cpu >>
  emit (EvLockerRelease env) >>
  WallTimer_dtor wall_timer now_resume now_wall.

Definition Unlock_ctor (env : EnvPtr) (now : Z) : T (option TimerPtr) :=
  do x <- the_executor env;
  do pause_scope <- PauseScope_ctor (cpu_timer x) now;
  emit (EvUnlocker env) >>
  ret pause_scope.

Definition Unlock_dtor (pause_scope : option TimerPtr) (env : EnvPtr) (now : Z) : T unit :=
  emit (EvUnlockerRelease env) >>
  PauseScope_dtor pause_scope now.

(** ** Reading the totals *)

Definition GetCpuTime (env : EnvPtr) (now : Z) : T Z :=
  do x <- the_executor env;
  match cpu_timer x with
  | Some _ =>
      do delta <- CpuTimer_Delta (cpu_timer x) now;
      ret (cpu_time x + delta)%Z
  | None => ret (cpu_time x)
  end.

Definition GetWallTime (env : EnvPtr) (now : Z) : T Z :=
  do x <- the_executor env;
  match wall_timer x with
  | Some _ =>
      do delta <- WallTimer_Delta (wall_timer x) now;
      ret (wall_time x + delta)%Z
  | None => ret (wall_time x)
  end.

(** ** Vocabulary of the statements *)

(** The executor of [t] once its timer has stopped at [now]. *)
Definition stopped (t : CpuTimer) (now : Z) (x : Executor) : Executor :=
  mkExecutor None (wall_timer x) (cpu_time x + (now - CpuTimer_time t)) (wall_time x).

(** The four operations that start and stop a CPU timer. *)
Inductive CpuTimerOp :=
  | OpCpuTimer (self : TimerPtr) (executor : EnvPtr)
  | OpCpuTimerEnd (self : TimerPtr)
  | OpPause (timer : TimerPtr)
  | OpResume (timer : TimerPtr).

Definition cpu_timer_op (op : CpuTimerOp) (now : Z) : T unit :=
  match op with
  | OpCpuTimer self executor => CpuTimer_ctor self executor now
  | OpCpuTimerEnd self => CpuTimer_dtor self now
  | OpPause timer => Pause (Some timer) now
  | OpResume timer => Resume (Some timer) now
  end.

(** A constructor runs at an address that holds no live object. *)
Definition cpu_timer_op_fresh (op : CpuTimerOp) (s : State) : Prop :=
  match op with
  | OpCpuTimer self _ => cpu_timers s !! self = None
  | _ => True
  end.

Inductive WallTimerOp :=
  | OpWallTimer (self : TimerPtr) (executor : EnvPtr)
  | OpWallTimerEnd (self : TimerPtr).

Definition wall_timer_op (op : WallTimerOp) (now_cpu now : Z) : T unit :=
  match op with
  | OpWallTimer self executor => WallTimer_ctor self executor now_cpu now
  | OpWallTimerEnd self => WallTimer_dtor self now_cpu now
  end.

Definition wall_timer_op_fresh (op : WallTimerOp) (s : State) : Prop :=
  match op with
  | OpWallTimer self _ => wall_timers s !! self = None
  | _ => True
  end.

(** The timer an executor points at is live and is a timer of that
    executor. *)
Definition registered (s : State) : Prop :=
  ∀ e x a, executors s !! e = Some x → cpu_timer x = Some a →
    ∃ t, cpu_timers s !! a = Some t ∧ CpuTimer_executor t = e.

(** The same for the wall timer, which has then taken its reading. *)
Definition wall_registered (s : State) : Prop :=
  ∀ e x a, executors s !! e = Some x → wall_timer x = Some a →
    ∃ t since, wall_timers s !! a = Some t ∧ WallTimer_executor t = e ∧
               WallTimer_time t = Some since.

(** What [GetWallTime] reads of an executor. *)
Definition wall_view (s : State) (e : EnvPtr) : option (option TimerPtr * Z) :=
  (λ x, (wall_timer x, wall_time x)) <$> executors s !! e.

(** A CPU timer runs for [e]. *)
Definition cpu_running (e : EnvPtr) (s : State) : bool :=
  match executors s !! e with
  | Some x => bool_decide (is_Some (cpu_timer x))
  | None => false
  end.

Definition wall_running (e : EnvPtr) (s : State) : bool :=
  match executors s !! e with
  | Some x => bool_decide (is_Some (wall_timer x))
  | None => false
  end.

(** What of a state does not depend on the clocks: which timer each
    executor points at, and where each live CPU timer belongs. *)
Definition cpu_timer_of (s : State) (e : EnvPtr) : option (option TimerPtr) :=
  cpu_timer <$> executors s !! e.
Definition wall_timer_of (s : State) (e : EnvPtr) : option (option TimerPtr) :=
  wall_timer <$> executors s !! e.
Definition cpu_timer_shape (s : State) (a : TimerPtr) : option (EnvPtr * option TimerPtr) :=
  (λ t, (CpuTimer_executor t, CpuTimer_last t)) <$> cpu_timers s !! a.

Definition same_shape (s s' : State) : Prop :=
  cpu_timer_thread s' = cpu_timer_thread s ∧
  current s' = current s ∧
  wall_timers s' = wall_timers s ∧
  (∀ e, cpu_timer_of s' e = cpu_timer_of s e) ∧
  (∀ e, wall_timer_of s' e = wall_timer_of s e) ∧
  (∀ a, cpu_timer_shape s' a = cpu_timer_shape s a).

(** The state of a thread between two operations on its locks: a timer
    an executor points at is the timer of the thread and belongs to that
    executor, and the timer of the thread, if there is one, runs. *)
Definition settled (s : State) : Prop :=
  (∀ e a, cpu_timer_of s e = Some (Some a) →
     cpu_timer_thread s = Some a ∧ ∃ last, cpu_timer_shape s a = Some (e, last)) ∧
  (∀ a, cpu_timer_thread s = Some a →
     ∃ e last, cpu_timer_shape s a = Some (e, last) ∧
               cpu_timer_of s e = Some (Some a)) ∧
  wall_registered s.

(** A computation returns, in a state that satisfies [Q]. *)
Definition returns {A} (m : T A) (s : State) (Q : A → State → Prop) : Prop :=
  ∃ a s' ev, m s = (Return a, s', ev) ∧ Q a s'.

(** One [Executor::Lock]: where the object and its two timers are, the
    environment it locks, and the readings its constructor and its
    destructor take. *)
Record LockUse := mkLockUse {
  lock_self : LockPtr;
  lock_wall_timer : TimerPtr;
  lock_cpu_timer : TimerPtr;
  lock_env : EnvPtr;
  lock_readings : Z * Z * Z;
  unlock_readings : Z * Z * Z
}.

(** The shape of [s1], a state in which the lock [l], taken in [s], is
    held. *)
Definition locked (l : LockUse) (s s1 : State) : Prop :=
  cpu_timer_thread s1 = Some (lock_cpu_timer l) ∧
  current s1 = Some (lock_self l) ∧
  wall_timers s1 =
    <[lock_wall_timer l :=
        mkWallTimer (lock_env l) (cpu_timer_thread s)
          (if wall_running (lock_env l) s then None else Some (lock_readings l).1.2)]>
      (wall_timers s) ∧
  (∀ e, cpu_timer_of s1 e =
          (λ _, if decide (e = lock_env l) then Some (lock_cpu_timer l) else None)
            <$> cpu_timer_of s e) ∧
  (∀ e, wall_timer_of s1 e =
          (λ w, if decide (e = lock_env l)
                then Some (default (lock_wall_timer l) w) else w)
            <$> wall_timer_of s e) ∧
  (∀ a, cpu_timer_shape s1 a =
          if decide (a = lock_cpu_timer l)
          then Some (lock_env l, cpu_timer_thread s)
          else cpu_timer_shape s a).

(** The locks of [ls] can be taken in [s]: their environments are live
    and their timers are new objects. *)
Definition lockable (ls : list LockUse) (s : State) : Prop :=
  NoDup (lock_cpu_timer <$> ls) ∧ NoDup (lock_wall_timer <$> ls) ∧
  ∀ l, l ∈ ls →
    is_Some (executors s !! lock_env l) ∧
    cpu_timers s !! lock_cpu_timer l = None ∧
    wall_timers s !! lock_wall_timer l = None.

(** Locks taken one inside the other. *)
Fixpoint nested (ls : list LockUse) : T unit :=
  match ls with
  | [] => ret tt
  | l :: ls' =>
      do last <- Lock_ctor (lock_self l) (lock_wall_timer l) (lock_cpu_timer l)
                   (lock_env l) (lock_readings l).1.1 (lock_readings l).1.2
                   (lock_readings l).2;
      nested ls' >>
      Lock_dtor last (lock_wall_timer l) (lock_cpu_timer l) (lock_env l)
        (unlock_readings l).1.1 (unlock_readings l).1.2 (unlock_readings l).2
  end.

(** [{ Executor::Unlock unlock(env); }] *)
Definition unlocked (env : EnvPtr) (now_pause now_resume : Z) : T unit :=
  do pause_scope <- Unlock_ctor env now_pause;
  Unlock_dtor pause_scope env now_resume.

(** [{ PauseScope pause(timer); { UnpauseScope unpause(pause); } }] *)
Definition paused_unpaused (timer : option TimerPtr) (t1 t2 t3 t4 : Z) : T unit :=
  do pause <- PauseScope_ctor timer t1;
  do unpause <- UnpauseScope_ctor pause t2;
  UnpauseScope_dtor unpause t3 >>
  PauseScope_dtor pause t4.

(** ** The time the locks account for

    The totals and the start of a running timer, as the shape of a state
    leaves them out. *)
Definition cpu_time_of (s : State) (e : EnvPtr) : option Z :=
  cpu_time <$> executors s !! e.
Definition wall_time_of (s : State) (e : EnvPtr) : option Z :=
  wall_time <$> executors s !! e.
Definition cpu_timer_since (s : State) (a : TimerPtr) : option Z :=
  CpuTimer_time <$> cpu_timers s !! a.

(** [f'] is [f] with [g e] added at every [e]. *)
Definition advanced (g : EnvPtr → Z) (f f' : EnvPtr → option Z) : Prop :=
  ∀ e, f' e = (λ c, (c + g e)%Z) <$> f e.

(** What pausing the timer of the thread at the reading [now] adds to the
    CPU time of [e]. *)
Definition pause_gain (s : State) (now : Z) (e : EnvPtr) : Z :=
  match cpu_timer_thread s with
  | Some a =>
      match cpu_timers s !! a with
      | Some t =>
          if decide (e = CpuTimer_executor t) then (now - CpuTimer_time t)%Z else 0%Z
      | None => 0%Z
      end
  | None => 0%Z
  end.

(** The CPU time the locks of [ls], taken one inside the other, add to
    [e]: the timer of a lock on [e] runs from its construction to the
    pause by the next lock inside, and from the resumption by that lock
    to its own destruction. *)
Fixpoint cpu_gain (ls : list LockUse) (e : EnvPtr) : Z :=
  match ls with
  | [] => 0%Z
  | l :: ls' =>
      ((if decide (e = lock_env l) then
          match ls' with
          | [] => (unlock_readings l).1.1 - (lock_readings l).2
          | l' :: _ =>
              ((lock_readings l').1.1 - (lock_readings l).2) +
              ((unlock_readings l).1.1 - (unlock_readings l').1.2)
          end
        else 0) + cpu_gain ls' e)%Z
  end.

(** The wall time they add to [e]: that of the outermost lock on [e],
    from the reading of its constructor to the one of its destructor. *)
Fixpoint wall_gain (ls : list LockUse) (e : EnvPtr) : Z :=
  match ls with
  | [] => 0%Z
  | l :: ls' =>
      if decide (e = lock_env l)
      then ((unlock_readings l).2 - (lock_readings l).1.2)%Z
      else wall_gain ls' e
  end.

(** What the first lock adds to the environment of the timer it finds
    running on the thread. *)
Definition outer_gain (ls : list LockUse) (s : State) (e : EnvPtr) : Z :=
  match ls with
  | l :: _ => pause_gain s (lock_readings l).1.1 e
  | [] => 0%Z
  end.

(** ** Concrete states

    Two environments, 1 and 1000, with nothing running. *)
Definition idle : State :=
  mkState {[ 1 := mkExecutor None None 0 0; 1000 := mkExecutor None None 0 0 ]}
    ∅ ∅ None None.

(** A lock on environment 1, and one on environment 1000 to take inside
    it. *)
Definition outer : LockUse := mkLockUse 900 901 902 1 (0, 5, 7)%Z (40, 41, 43)%Z.
Definition inner : LockUse := mkLockUse 910 911 912 1000 (10, 11, 12)%Z (30, 31, 33)%Z.

(** Environment 1 locked again inside the two. *)
Definition reentered : LockUse := mkLockUse 920 921 922 1 (15, 16, 17)%Z (20, 21, 23)%Z.

(** Environment 1 locked since the readings 5 and 7. *)
Definition busy : State :=
  mkState {[ 1 := mkExecutor (Some 902) (Some 901) 0 0 ]}
    {[ 902 := mkCpuTimer 1 None 7 ]}
    {[ 901 := mkWallTimer 1 None (Some 5%Z) ]}
    (Some 902) (Some 900).

End Timers.

(** * Properties *)

(** ** Scheduler *)

Section SchedulerProperties.

Context {I : Type} `{Engine I}.

Local Abbreviation status_of := (@status_of I).

Lemma uint_incr_small n : n < 2 ^ 32 - 1 → uint_incr n = n + 1.
Proof. intros Hn. unfold uint_incr. apply N.mod_small. lia. Qed.

Lemma WakeIsolate_while_running (w : World I) :
  status (scheduler (env w)) = Running → WakeIsolate w = (Return false, w, []).
Proof. intros Hst. unfold WakeIsolate, bind, get. rewrite Hst. reflexivity. Qed.

(** C2.  [WakeIsolate] under status Running does nothing and returns
    [false].  Under status Waiting, in a world where the two assertions on
    its path hold (the count leaves zero on the default thread only, and the
    async handle of the default thread carries no pending environment), it
    returns [true], the status is Running and nothing else of the scheduler
    moved, the outstanding-work count is incremented, and exactly one
    hand-off is made: [uv_async_send] for the root environment, the pool's
    [exec] for any other. *)
Theorem WakeIsolate_spec (w : World I) :
  (status (scheduler (env w)) = Running →
     WakeIsolate w = (Return false, w, [])) ∧
  (status (scheduler (env w)) = Waiting →
   (uint_incr (uv_ref_count w) = 1 → this_thread w = default_thread w) →
   (root (env w) = true → root_async_data w = None) →
   ∃ w' ev,
     WakeIsolate w = (Return true, w', ev) ∧
     scheduler (env w') = with_status Running (scheduler (env w)) ∧
     uv_ref_count w' = uint_incr (uv_ref_count w) ∧
     (uv_ref_count w < 2 ^ 32 - 1 → uv_ref_count w' = uv_ref_count w + 1) ∧
     dispatches ev =
       [if root (env w) then EvUvAsyncSend else EvThreadPoolExec (this (env w))] ∧
     root_async_data w' =
       (if root (env w) then Some (this (env w)) else root_async_data w)).
Proof.
  split.
  - apply WakeIsolate_while_running.
  - intros Hst Hthread Hdata.
    unfold WakeIsolate, bind, get. rewrite Hst. simpl.
    unfold IncrementUvRef, IsDefaultThread, bind, get, modify. simpl.
    case_bool_decide as Hone.
    + rewrite bool_decide_eq_true_2 by auto. simpl.
      destruct (root (env w)) eqn:Hroot; simpl.
      * rewrite Hdata by reflexivity. simpl.
        eexists _, _. split; [reflexivity|]. simpl.
        repeat split; auto using uint_incr_small.
      * eexists _, _. split; [reflexivity|]. simpl.
        repeat split; auto using uint_incr_small.
    + simpl. destruct (root (env w)) eqn:Hroot; simpl.
      * rewrite Hdata by reflexivity. simpl.
        eexists _, _. split; [reflexivity|]. simpl.
        repeat split; auto using uint_incr_small.
      * eexists _, _. split; [reflexivity|]. simpl.
        repeat split; auto using uint_incr_small.
Qed.

Variable V8_AT_LEAST_6_9_406 : bool.
Variable as_interrupt_default : bool.

Lemma keeps_ret {X A} (proj : World I → X) (a : A) : keeps proj (ret a).
Proof. intros w. reflexivity. Qed.

Lemma keeps_get {X A} (proj : World I → X) (f : World I → A) : keeps proj (get f).
Proof. intros w. reflexivity. Qed.

Lemma keeps_emit {X} (proj : World I → X) e : keeps proj (emit e).
Proof. intros w. reflexivity. Qed.

Lemma keeps_stop {X A} (proj : World I → X) s : keeps proj (stop (A:=A) s).
Proof. intros w. reflexivity. Qed.

Lemma keeps_assert {X} (proj : World I → X) c b : keeps proj (cxx_assert c b).
Proof. intros w. destruct b; reflexivity. Qed.

Lemma keeps_bind {X A B} (proj : World I → X) (m : M I A) (k : A → M I B) :
  keeps proj m → (∀ a, keeps proj (k a)) → keeps proj (bind m k).
Proof.
  intros Hm Hk w. unfold bind. specialize (Hm w).
  destruct (m w) as [[[a|s] w1] ev1]; simpl in *; [|exact Hm].
  specialize (Hk a w1). destruct (k a w1) as [[o w2] ev2]. simpl in *. congruence.
Qed.

Lemma keeps_modify {X} (proj : World I → X) f :
  (∀ w, proj (f w) = proj w) → keeps proj (modify f).
Proof. intros Hf w. apply Hf. Qed.

Create HintDb keeps discriminated.

Ltac keeps_step :=
  lazymatch goal with
  | |- keeps _ (ret _) => apply keeps_ret
  | |- keeps _ (get _) => apply keeps_get
  | |- keeps _ (emit _) => apply keeps_emit
  | |- keeps _ (stop _) => apply keeps_stop
  | |- keeps _ (cxx_assert _ _) => apply keeps_assert
  | |- keeps _ (bind _ _) => apply keeps_bind; [|intros ?]
  | |- keeps _ (modify _) => apply keeps_modify; intros ?; reflexivity
  | |- keeps _ (if ?b then _ else _) => destruct b
  | |- keeps _ (match ?x with _ => _ end) => destruct x
  | |- keeps _ _ => solve [auto with keeps nocore]
  end.

Ltac keeps_tac := repeat keeps_step.

Lemma Terminate_keeps_status : keeps status_of Terminate.
Proof.
  unfold Terminate, SchedulerLock_enter, SchedulerLock_leave, modify_env, modify_v8.
  keeps_tac.
Qed.
Hint Resolve Terminate_keeps_status : keeps.

Lemma RequestMemoryPressureNotification_with_keeps_status epilogue p r a :
  (∀ f, keeps status_of (epilogue f)) →
  keeps status_of
    (RequestMemoryPressureNotification_with V8_AT_LEAST_6_9_406 epilogue p r a).
Proof.
  intros He. unfold RequestMemoryPressureNotification_with, modify_env, modify_v8.
  keeps_tac.
Qed.
Hint Resolve RequestMemoryPressureNotification_with_keeps_status : keeps.

Lemma MarkSweepCompactEpilogue_keeps_status fuel gc_flags :
  keeps status_of
    (MarkSweepCompactEpilogue V8_AT_LEAST_6_9_406 as_interrupt_default fuel gc_flags).
Proof.
  revert gc_flags. induction fuel as [|fuel IH]; intros gc_flags; simpl.
  - apply keeps_stop.
  - unfold ratchet_heap_limit, modify_env, modify_v8.
    keeps_tac.
Qed.
Hint Resolve MarkSweepCompactEpilogue_keeps_status : keeps.

Lemma perform_keeps_status (op : Operation) :
  op ≠ OpWakeIsolate → op ≠ OpDoneRunning →
  keeps status_of (perform V8_AT_LEAST_6_9_406 as_interrupt_default op).
Proof.
  intros Hw Hd. destruct op; try congruence; unfold perform, returning.
  all: unfold PushTask, PushHandleTask, PushInterrupt, PushSyncInterrupt,
    TakeTasks, TakeHandleTasks, TakeInterrupts, TakeSyncInterrupts,
    InterruptIsolate, InterruptSyncIsolate, IncrementUvRef, DecrementUvRef,
    CheckMemoryPressure, Epilogue, NearHeapLimitCallback,
    RequestMemoryPressureNotification,
    AddWeakCallback, RemoveWeakCallback, LookupIsolate,
    IsDefaultThread, modify_scheduler, modify_env, modify_v8.
  all: keeps_tac.
Qed.

Lemma status_move_after_keeps {A B} (m : M I A) (k : A → M I B) :
  keeps status_of m →
  (∀ a w, status_move (status_of w) (status_of (k a w).1.2)) →
  ∀ w, status_move (status_of w) (status_of (bind m k w).1.2).
Proof.
  intros Hm Hk w. unfold bind. specialize (Hm w).
  destruct (m w) as [[[a|s] w1] ev1]; simpl in *.
  - specialize (Hk a w1). destruct (k a w1) as [[o w2] ev2]. simpl in *.
    rewrite <- Hm. exact Hk.
  - left. exact Hm.
Qed.

Lemma status_move_then_keeps {A B} (m : M I A) (k : A → M I B) :
  (∀ w, status_move (status_of w) (status_of (m w).1.2)) →
  (∀ a, keeps status_of (k a)) →
  ∀ w, status_move (status_of w) (status_of (bind m k w).1.2).
Proof.
  intros Hm Hk w. unfold bind. specialize (Hm w).
  destruct (m w) as [[[a|s] w1] ev1]; simpl in *; [|exact Hm].
  specialize (Hk a w1). destruct (k a w1) as [[o w2] ev2]. simpl in *.
  rewrite Hk. exact Hm.
Qed.

Lemma DoneRunning_status_move w :
  status_move (status_of w) (status_of (DoneRunning w).1.2).
Proof.
  unfold DoneRunning, bind, get, cxx_assert, status_of.
  destruct (status (scheduler (env w))) eqn:Hst; simpl.
  - left. exact Hst.
  - right. auto.
Qed.

Section Callbacks.

Variable Run : Runnable → World I → World I.
Variable invoke : FnPtr → Param → World I → World I.
Variable stack_base : option N.
Hypothesis Run_keeps_status : ∀ r w, status_of (Run r w) = status_of w.
Hypothesis invoke_keeps_status : ∀ fn p w, status_of (invoke fn p w) = status_of w.

Lemma call_Run_keeps_status r : keeps status_of (call_Run Run r).
Proof.
  unfold call_Run. apply keeps_bind; [apply keeps_emit|intros _].
  intros w. apply Run_keeps_status.
Qed.
Hint Resolve call_Run_keeps_status : keeps.

Lemma call_weak_keeps_status fn p : keeps status_of (call_weak invoke fn p).
Proof.
  unfold call_weak. apply keeps_bind; [apply keeps_emit|intros _].
  intros w. apply invoke_keeps_status.
Qed.
Hint Resolve call_weak_keeps_status : keeps.

Lemma destroy_queue_keeps {X} (proj : World I → X) q : keeps proj (destroy_queue q).
Proof. induction q; simpl; unfold destroy; keeps_tac. Qed.
Hint Resolve destroy_queue_keeps : keeps.

Lemma run_queue_keeps_status q : keeps status_of (run_queue Run q).
Proof. induction q; simpl; unfold destroy; keeps_tac. Qed.
Hint Resolve run_queue_keeps_status : keeps.

Lemma run_tasks_keeps_status q : keeps status_of (run_tasks Run q).
Proof.
  induction q; simpl; unfold destroy, CheckMemoryPressure, modify_env, modify_v8;
    keeps_tac.
Qed.
Hint Resolve run_tasks_keeps_status : keeps.

Lemma Take_keeps_status :
  keeps status_of TakeTasks ∧ keeps status_of TakeHandleTasks ∧
  keeps status_of TakeInterrupts ∧ keeps status_of TakeSyncInterrupts.
Proof.
  unfold TakeTasks, TakeHandleTasks, TakeInterrupts, TakeSyncInterrupts,
    modify_scheduler, modify_env.
  repeat split; keeps_tac.
Qed.

Lemma AsyncEntry_loop_status_move fuel w :
  status_move (status_of w) (status_of (AsyncEntry_loop Run fuel w).1.2).
Proof.
  destruct Take_keeps_status as (Ht & Hh & Hi & _).
  revert w. induction fuel as [|fuel IH]; intros w; simpl.
  - left. reflexivity.
  - unfold SchedulerLock_enter, SchedulerLock_leave.
    apply status_move_after_keeps; [keeps_tac|intros _ w1].
    apply status_move_after_keeps; [exact Ht|intros tasks w2].
    apply status_move_after_keeps; [exact Hh|intros handle_tasks w3].
    apply status_move_after_keeps; [exact Hi|intros interrupts w4].
    destruct (all_empty _ _ _).
    + apply status_move_then_keeps; [apply DoneRunning_status_move|intros _; keeps_tac].
    + apply status_move_after_keeps; [keeps_tac|intros _ w5].
      apply status_move_after_keeps; [keeps_tac|intros _ w6].
      apply status_move_after_keeps; [keeps_tac|intros _ w7].
      apply status_move_after_keeps; [keeps_tac|intros returned w8].
      destruct returned; [left; reflexivity|apply IH].
Qed.

Lemma ExecutorLock_keeps_status :
  keeps status_of ExecutorLock_enter ∧ ∀ last, keeps status_of (ExecutorLock_leave last).
Proof.
  unfold ExecutorLock_enter, ExecutorLock_leave, Scope_enter, Scope_leave.
  split; [|intros last]; keeps_tac.
Qed.

Lemma AsyncEntry_status_move fuel w :
  status_move (status_of w) (status_of (AsyncEntry Run stack_base fuel w).1.2).
Proof.
  destruct ExecutorLock_keeps_status as [Hin Hout].
  unfold AsyncEntry.
  apply status_move_after_keeps; [exact Hin|intros last w1].
  apply status_move_after_keeps; [keeps_tac|intros is_root w2].
  apply status_move_after_keeps; [unfold modify_v8; keeps_tac|intros _ w3].
  apply status_move_then_keeps; [apply AsyncEntry_loop_status_move|intros _; apply Hout].
Qed.

Lemma InterruptEntry_keeps_status Take fuel :
  keeps status_of Take → keeps status_of (InterruptEntry Run Take fuel).
Proof.
  intros HT. induction fuel as [|fuel IH]; simpl;
    unfold SchedulerLock_enter, SchedulerLock_leave, destroy; keeps_tac.
Qed.

Lemma kill_weak_persistents_keeps_status entries it :
  keeps status_of (kill_weak_persistents invoke entries it).
Proof.
  revert it. induction entries as [|[h v] rest IH]; intros it; simpl; keeps_tac.
Qed.
Hint Resolve kill_weak_persistents_keeps_status : keeps.

Lemma IsolateEnvironment_dtor_keeps_status :
  keeps status_of (IsolateEnvironment_dtor invoke).
Proof.
  destruct Take_keeps_status as (Ht & Hh & Hi & Hs).
  destruct ExecutorLock_keeps_status as [Hin Hout].
  unfold IsolateEnvironment_dtor, SchedulerLock_enter, SchedulerLock_leave,
    Scope_enter, Scope_leave, modify_env, modify_v8.
  keeps_tac.
Qed.

End Callbacks.

(** C4.  Among the entry points that run no user code and do not abort
    the process, the status flag moves only from Waiting to Running, by a
    [WakeIsolate] that returns [true], and from Running to Waiting, by
    [DoneRunning].  [DoneRunning]
    under any other status is a failed assertion and changes nothing.  The
    entry points that run user code ([AsyncEntry], [InterruptEntry], the
    destructor) add no move of their own: when that user code leaves the
    flag alone, the pass ends with the flag unchanged or taken from Running
    to Waiting by its [DoneRunning], and the other two leave it as it was. *)
Theorem Status_transitions :
  (∀ op (w w' : World I) o ev,
     perform V8_AT_LEAST_6_9_406 as_interrupt_default op w = (o, w', ev) →
     aborted o = false →
     status_of w' ≠ status_of w →
     (op = OpWakeIsolate ∧ o = Return (VBool true) ∧
      status_of w = Waiting ∧ status_of w' = Running)
     ∨ (op = OpDoneRunning ∧ o = Return VVoid ∧
        status_of w = Running ∧ status_of w' = Waiting)) ∧
  (∀ w : World I, status_of w ≠ Running →
     DoneRunning w =
       (Stopped (assertion_failed "scheduler.status == Status::Running"), w, [])) ∧
  (∀ (Run : Runnable → World I → World I)
     (invoke : FnPtr → Param → World I → World I) stack_base,
     (∀ r w, status_of (Run r w) = status_of w) →
     (∀ fn p w, status_of (invoke fn p w) = status_of w) →
     ∀ fuel w,
       status_move (status_of w) (status_of (AsyncEntry Run stack_base fuel w).1.2) ∧
       status_of (InterruptEntry Run TakeInterrupts fuel w).1.2 = status_of w ∧
       status_of (InterruptEntry Run TakeSyncInterrupts fuel w).1.2 = status_of w ∧
       status_of (IsolateEnvironment_dtor invoke w).1.2 = status_of w).
Proof.
  split; [|split].
  - intros op w w' o ev Heq Hab Hne.
    assert (op = OpWakeIsolate ∨ op = OpDoneRunning ∨
            (op ≠ OpWakeIsolate ∧ op ≠ OpDoneRunning)) as [->|[->|[Hw Hd]]]
      by (destruct op; auto; right; right; split; discriminate).
    { left. revert Heq Hab Hne. unfold perform, returning, bind.
      pose proof (WakeIsolate_while_running w) as Hrun.
      unfold status_of. destruct (status (scheduler (env w))) eqn:Hst.
      - unfold WakeIsolate, bind, get. rewrite Hst. simpl.
        unfold IncrementUvRef, IsDefaultThread, cxx_assert, bind, get, modify. simpl.
        repeat (case_bool_decide; simpl); destruct (root (env w)); simpl;
          repeat (case_bool_decide; simpl);
          intros [= <- <- <-]; simpl; intros Hab Hne; try congruence; auto.
      - rewrite Hrun by reflexivity. intros [= <- <- <-]. congruence. }
    { right. revert Heq Hab Hne. unfold perform, returning, bind, DoneRunning, bind, get.
      unfold status_of. destruct (status (scheduler (env w))) eqn:Hst; simpl;
        intros [= <- <- <-]; simpl; intros Hab Hne; try congruence; auto. }
    exfalso. apply Hne.
    pose proof (perform_keeps_status op Hw Hd w) as Hk.
    rewrite Heq in Hk. exact Hk.
  - intros w Hst. unfold DoneRunning, bind, get. fold (status_of w).
    destruct (status_of w); [reflexivity|congruence].
  - intros Run invoke stack_base HRun Hinv fuel w.
    destruct Take_keeps_status as (_ & _ & Hi & Hs).
    repeat split.
    + apply AsyncEntry_status_move; assumption.
    + apply InterruptEntry_keeps_status; assumption.
    + apply InterruptEntry_keeps_status; assumption.
    + apply IsolateEnvironment_dtor_keeps_status; assumption.
Qed.

End SchedulerProperties.

(** ** Environment *)

Section EnvironmentProperties.

Context {I : Type} `{Engine I}.

(** C8.  On a sandboxed environment [AddWeakCallback] of a handle that is
    in the table throws [std::logic_error] and leaves the world as it was,
    and so does [RemoveWeakCallback] of a handle that is not; otherwise the
    one inserts and the other erases that entry and nothing else moves.  On
    the root environment both return at once. *)
Theorem WeakCallback_spec (w : World I) (handle : Handle) (fn : FnPtr) (param : Param) :
  let tbl := weak_persistents (env w) in
  (root (env w) = true →
     AddWeakCallback handle fn param w = (Return tt, w, []) ∧
     RemoveWeakCallback handle w = (Return tt, w, [])) ∧
  (root (env w) = false →
     (is_Some (tbl !! handle) →
        AddWeakCallback handle fn param w =
          (Stopped (throw (std_logic_error "Weak callback already added")), w, []) ∧
        RemoveWeakCallback handle w =
          (Return tt, with_env (with_weak_persistents (delete handle tbl) (env w)) w, [])) ∧
     (tbl !! handle = None →
        AddWeakCallback handle fn param w =
          (Return tt,
           with_env (with_weak_persistents (<[handle := (fn, param)]> tbl) (env w)) w,
           []) ∧
        RemoveWeakCallback handle w =
          (Stopped (throw (std_logic_error "Weak callback doesn't exist")), w, []))).
Proof.
  intros tbl. subst tbl. split; intros Hroot.
  - unfold AddWeakCallback, RemoveWeakCallback, bind, get. rewrite Hroot. auto.
  - unfold AddWeakCallback, RemoveWeakCallback, bind, get. rewrite Hroot. simpl.
    split.
    + intros [v Hv]. rewrite Hv. auto.
    + intros Hv. rewrite Hv. auto.
Qed.

(** C10.  [LookupIsolate] of an engine instance that is not in the registry
    returns a null holder and raises nothing; of a registered instance it
    returns the holder of the environment the registry points to. *)
Theorem LookupIsolate_spec (w : World I) (i : IsolatePtr) :
  (isolate_map w !! i = None →
     LookupIsolate i w = (Return None, w, [])) ∧
  (∀ p e, isolate_map w !! i = Some p → deref p w = Some e →
     LookupIsolate i w = (Return (Some (holder e)), w, [])).
Proof.
  unfold LookupIsolate, bind, get. split.
  - intros Hnone. rewrite Hnone. reflexivity.
  - intros p e Hp He. rewrite Hp. simpl. rewrite He. reflexivity.
Qed.

Lemma Terminate_nonroot (w : World I) :
  root (env w) = false →
  Terminate w = (Return tt, Terminate_world w, Terminate_events w).
Proof.
  intros Hroot. unfold Terminate, Terminate_world, Terminate_events, bind, get.
  rewrite Hroot. simpl. destruct (inspector_agent (env w)); reflexivity.
Qed.

(** C6.  [Terminate] on the root environment fails its assertion and
    touches nothing.  On a sandboxed environment it returns, having set
    [terminated], told the inspector agent, if one is attached, to
    terminate (under the scheduler lock), called [TerminateExecution] on
    the engine and reset the holder's reference. *)
Theorem Terminate_spec (w : World I) :
  (root (env w) = true →
     Terminate w = (Stopped (assertion_failed "!root"), w, [])) ∧
  (root (env w) = false →
     ∃ w' ev,
       Terminate w = (Return tt, w', ev) ∧
       env w' = with_terminated true (env w) ∧
       terminated (env w') = true ∧
       ev = [EvSchedulerLock] ++
            match inspector_agent (env w) with
            | Some a => [EvAgentTerminate a]
            | None => []
            end ++ [EvSchedulerUnlock] ∧
       v8 w' = TerminateExecution (v8 w) ∧
       holder_isolate w' = delete (holder (env w)) (holder_isolate w) ∧
       holder_isolate w' !! holder (env w) = None).
Proof.
  split; intros Hroot.
  - unfold Terminate, bind, get. rewrite Hroot. reflexivity.
  - eexists _, _. split; [apply Terminate_nonroot; exact Hroot|].
    simpl. repeat split. apply lookup_delete_eq.
Qed.


End EnvironmentProperties.

(** ** Garbage-collection epilogue *)

Section EpilogueProperties.

Context {I : Type} `{Engine I}.
Variable V8_AT_LEAST_6_9_406 : bool.
Variable as_interrupt_default : bool.

Local Abbreviation Epilogue_of_GC :=
  (MarkSweepCompactEpilogue V8_AT_LEAST_6_9_406 as_interrupt_default).

(** C5, as the code has it.  In the epilogue of a mark-sweep-compact
    collection that finds [total_memory] within [memory_limit +
    misc_memory_size]: a collect-all-available-garbage pass does nothing;
    any other pass ratchets the heap limit whenever an expansion is active,
    at any load, and requests moderate pressure when the load is above
    80%. *)
Theorem MarkSweepCompactEpilogue_within_budget (fuel : nat) (gc_flags : Z) (w : World I) :
  (budget w <? total_memory w) = false →
  Epilogue_of_GC (S fuel) gc_flags w =
    if flag_set gc_flags kGCCallbackFlagCollectAllAvailableGarbage then
      (Return tt, w, [])
    else
      let w1 := if did_adjust_heap_limit (env w) then ratcheted w else w in
      if above_80_percent w
      then moderate_requested V8_AT_LEAST_6_9_406 as_interrupt_default w1
      else (Return tt, w1, []).
Proof.
  intros Hwithin.
  cbn [MarkSweepCompactEpilogue].
  unfold bind at 1. unfold get at 1.
  unfold bind at 1. unfold get at 1.
  unfold bind at 1. unfold get at 1.
  fold (total_memory w). fold (budget w). rewrite Hwithin.
  destruct (flag_set gc_flags kGCCallbackFlagCollectAllAvailableGarbage);
    [reflexivity|].
  cbn [negb]. unfold above_80_percent.
  generalize (budget w <? size_t_add (total_memory w) (total_memory w / 4)).
  intros b80.
  unfold moderate_requested, RequestMemoryPressureNotification_with, ratcheted,
    ratchet_heap_limit, modify_v8, modify_env, bind, get, modify, ret, emit.
  destruct (did_adjust_heap_limit (env w)); cbn.
  - case_bool_decide; destruct b80, V8_AT_LEAST_6_9_406, as_interrupt_default;
      reflexivity.
  - destruct b80, V8_AT_LEAST_6_9_406, as_interrupt_default; reflexivity.
Qed.

(** The epilogue is entered a second time only from a request for
    critical pressure, and then with the forced flag, under which it makes
    no such request: two units of fuel are all it ever uses. *)
Lemma RequestMemoryPressureNotification_with_ext e1 e2 p r a (w : World I) :
  (∀ w', e1 kGCCallbackFlagForced w' = e2 kGCCallbackFlagForced w') →
  RequestMemoryPressureNotification_with V8_AT_LEAST_6_9_406 e1 p r a w =
  RequestMemoryPressureNotification_with V8_AT_LEAST_6_9_406 e2 p r a w.
Proof.
  intros He. unfold RequestMemoryPressureNotification_with.
  destruct (_ || a); [reflexivity|].
  unfold bind, modify_env, modify_v8, modify.
  destruct (r && bool_decide (p = kCritical)); [|reflexivity].
  rewrite He. reflexivity.
Qed.

Lemma RequestMemoryPressureNotification_with_moderate e1 e2 r a (w : World I) :
  RequestMemoryPressureNotification_with V8_AT_LEAST_6_9_406 e1 kModerate r a w =
  RequestMemoryPressureNotification_with V8_AT_LEAST_6_9_406 e2 kModerate r a w.
Proof.
  unfold RequestMemoryPressureNotification_with.
  destruct (_ || a); [reflexivity|].
  unfold bind, modify_env, modify_v8, modify.
  rewrite andb_false_r. reflexivity.
Qed.

Lemma bind_ext {A B} (m : M I A) (k1 k2 : A → M I B) (w : World I) :
  (∀ a w', k1 a w' = k2 a w') → bind m k1 w = bind m k2 w.
Proof.
  intros Hk. unfold bind. destruct (m w) as [[[a|s] w1] ev1]; [|reflexivity].
  rewrite Hk. reflexivity.
Qed.

Lemma MarkSweepCompactEpilogue_forced (n : nat) (w : World I) :
  Epilogue_of_GC (S n) kGCCallbackFlagForced w =
  Epilogue_of_GC 1 kGCCallbackFlagForced w.
Proof.
  cbn [MarkSweepCompactEpilogue].
  apply bind_ext; intros heap w1.
  apply bind_ext; intros total w2.
  apply bind_ext; intros limit w3.
  destruct (limit <? total); [reflexivity|].
  change (flag_set kGCCallbackFlagForced kGCCallbackFlagCollectAllAvailableGarbage)
    with false.
  cbn [negb].
  apply bind_ext; intros did w4.
  apply bind_ext; intros _ w5.
  destruct (limit <? size_t_add total (total / 4)); [|reflexivity].
  apply RequestMemoryPressureNotification_with_moderate.
Qed.

Lemma MarkSweepCompactEpilogue_fuel (n : nat) (gc_flags : Z) (w : World I) :
  Epilogue_of_GC (S (S n)) gc_flags w = Epilogue_of_GC 2 gc_flags w.
Proof.
  cbn [MarkSweepCompactEpilogue].
  apply bind_ext; intros heap w1.
  apply bind_ext; intros total w2.
  apply bind_ext; intros limit w3.
  destruct (limit <? total).
  - destruct (flag_set gc_flags _); [reflexivity|].
    apply RequestMemoryPressureNotification_with_ext. intros w'.
    apply MarkSweepCompactEpilogue_forced.
  - destruct (negb _); [|reflexivity].
    apply bind_ext; intros did w4.
    apply bind_ext; intros _ w5.
    destruct (limit <? size_t_add total (total / 4)); [|reflexivity].
    apply RequestMemoryPressureNotification_with_moderate.
Qed.

Lemma finishes_ret {A} (a : A) : finishes (I:=I) (ret a).
Proof. intros w. discriminate. Qed.

Lemma finishes_get {A} (f : World I → A) : finishes (get f).
Proof. intros w. discriminate. Qed.

Lemma finishes_emit e : finishes (I:=I) (emit e).
Proof. intros w. discriminate. Qed.

Lemma finishes_modify (f : World I → World I) : finishes (modify f).
Proof. intros w. discriminate. Qed.

Lemma finishes_assert c b : finishes (I:=I) (cxx_assert c b).
Proof. intros w. destruct b; discriminate. Qed.

Lemma finishes_throw {A} e : finishes (I:=I) (stop (A:=A) (throw e)).
Proof. intros w. discriminate. Qed.

Lemma finishes_bind {A B} (m : M I A) (k : A → M I B) :
  finishes m → (∀ a, finishes (k a)) → finishes (bind m k).
Proof.
  intros Hm Hk w. unfold ran_out, bind. specialize (Hm w). unfold ran_out in Hm.
  destruct (m w) as [[[a|s] w1] ev1].
  - specialize (Hk a w1). unfold ran_out in Hk.
    destruct (k a w1) as [[o w2] ev2]. exact Hk.
  - cbn in *. intros [= ->]. apply Hm. reflexivity.
Qed.

Create HintDb finishes discriminated.

Ltac finishes_step :=
  lazymatch goal with
  | |- finishes (ret _) => apply finishes_ret
  | |- finishes (get _) => apply finishes_get
  | |- finishes (emit _) => apply finishes_emit
  | |- finishes (modify _) => apply finishes_modify
  | |- finishes (modify_env _) => apply finishes_modify
  | |- finishes (modify_v8 _) => apply finishes_modify
  | |- finishes (cxx_assert _ _) => apply finishes_assert
  | |- finishes (stop (throw _)) => apply finishes_throw
  | |- finishes (bind _ _) => apply finishes_bind; [|intros ?]
  | |- finishes (if ?b then _ else _) => destruct b
  | |- finishes (match ?x with _ => _ end) => destruct x
  | |- finishes _ => solve [auto with finishes nocore]
  end.

Ltac finishes_tac := repeat finishes_step.

Lemma Terminate_finishes : finishes (I:=I) Terminate.
Proof.
  unfold Terminate, SchedulerLock_enter, SchedulerLock_leave. finishes_tac.
Qed.
Hint Resolve Terminate_finishes : finishes.

Lemma RequestMemoryPressureNotification_with_finishes e p r a :
  finishes (e kGCCallbackFlagForced) →
  finishes (RequestMemoryPressureNotification_with V8_AT_LEAST_6_9_406 e p r a).
Proof.
  intros He. unfold RequestMemoryPressureNotification_with. finishes_tac.
Qed.
Hint Resolve RequestMemoryPressureNotification_with_finishes : finishes.

Lemma RequestMemoryPressureNotification_moderate_finishes e r a :
  finishes (RequestMemoryPressureNotification_with V8_AT_LEAST_6_9_406 e
              kModerate r a).
Proof.
  intros w.
  rewrite (RequestMemoryPressureNotification_with_moderate e (λ _, ret tt)).
  apply RequestMemoryPressureNotification_with_finishes, finishes_ret.
Qed.
Hint Resolve RequestMemoryPressureNotification_moderate_finishes : finishes.

Lemma ratchet_heap_limit_finishes : finishes (I:=I) ratchet_heap_limit.
Proof. unfold ratchet_heap_limit. finishes_tac. Qed.
Hint Resolve ratchet_heap_limit_finishes : finishes.

Lemma MarkSweepCompactEpilogue_forced_finishes :
  finishes (Epilogue_of_GC 1 kGCCallbackFlagForced).
Proof.
  cbn [MarkSweepCompactEpilogue].
  change (flag_set kGCCallbackFlagForced
            (Z.lor kGCCallbackFlagCollectAllAvailableGarbage kGCCallbackFlagForced))
    with true.
  change (flag_set kGCCallbackFlagForced kGCCallbackFlagCollectAllAvailableGarbage)
    with false.
  cbv iota. cbn [negb]. finishes_tac.
Qed.

(** With two units of fuel, and so with any larger amount, the epilogue
    ends by itself. *)
Lemma MarkSweepCompactEpilogue_terminates (n : nat) (gc_flags : Z) :
  finishes (Epilogue_of_GC (S (S n)) gc_flags).
Proof.
  intros w. rewrite MarkSweepCompactEpilogue_fuel. revert w.
  change 2%nat with (S 1).
  generalize MarkSweepCompactEpilogue_forced_finishes.
  generalize 1%nat. intros one Hforced.
  change (finishes (Epilogue_of_GC (S one) gc_flags)).
  cbn [MarkSweepCompactEpilogue]. finishes_tac.
Qed.

End EpilogueProperties.

(** ** Destruction *)

Section DestructionProperties.

Context {I : Type} `{Engine I}.
Variable invoke : FnPtr → Param → World I → World I.

Lemma bind_Return {A B} (m : M I A) (k : A → M I B) w a w1 ev1 :
  m w = (Return a, w1, ev1) →
  bind m k w = match k a w1 with (o, w2, ev2) => (o, w2, ev1 ++ ev2) end.
Proof. intros Hm. unfold bind. rewrite Hm. reflexivity. Qed.

Lemma destroy_queue_events (q : list Runnable) (w : World I) :
  destroy_queue q w = (Return tt, w, EvDestroy <$> q).
Proof.
  induction q as [|r q IH]; [reflexivity|].
  simpl. unfold bind, destroy, emit. rewrite IH. reflexivity.
Qed.

Lemma bind_destroy_queue {B} (q : list Runnable) (k : unit → M I B) (w : World I) :
  bind (destroy_queue q) k w =
    match k tt w with (o, w2, ev2) => (o, w2, (EvDestroy <$> q) ++ ev2) end.
Proof. apply bind_Return, destroy_queue_events. Qed.

Lemma successor_head (tbl : gmap Handle (FnPtr * Param)) rest :
  (∀ e, e ∈ rest → is_Some (tbl !! e.1)) →
  successor tbl rest = fst <$> head rest.
Proof.
  intros Hall. unfold successor. destruct rest as [|e rest]; [reflexivity|].
  rewrite filter_cons_True by (apply Hall; left). reflexivity.
Qed.

(** When every cleanup erases its own entry, the loop visits the whole
    table and leaves it empty. *)
Lemma kill_weak_persistents_all entries (w : World I) :
  unregisters_itself invoke entries →
  NoDup entries.*1 →
  weak_persistents (env w) = list_to_map entries →
  ∃ wk,
    kill_weak_persistents invoke entries (fst <$> head entries) w =
      (Return tt, wk, cleanup_event <$> entries) ∧
    weak_persistents (env wk) = ∅.
Proof.
  revert w. induction entries as [|[h [fn p]] rest IH]; intros w Hself Hnd Htbl.
  - exists w. split; [reflexivity|exact Htbl].
  - simpl in Hnd. apply NoDup_cons in Hnd as [Hh Hnd].
    cbn [kill_weak_persistents head fmap option_fmap option_map fst].
    rewrite bool_decide_eq_true_2 by reflexivity.
    unfold bind at 1. unfold get at 1. rewrite Htbl.
    cbn [list_to_map foldr uncurry]. rewrite lookup_insert_eq.
    unfold bind at 1, call_weak at 1. unfold bind at 1, emit at 1, modify at 1.
    rewrite successor_head.
    2:{ intros [h' v'] Hin. simpl.
        rewrite lookup_insert_ne.
        - rewrite (elem_of_list_to_map_1 rest h' v' Hnd Hin). eauto.
        - intros ->. apply Hh. apply list_elem_of_fmap. exists (h', v'). auto. }
    destruct (IH (invoke fn p w)) as (wk & Hk & Hempty).
    + intros h' fn' p' Hin. apply Hself. right. exact Hin.
    + exact Hnd.
    + rewrite (Hself h fn p) by left. rewrite Htbl.
      cbn [list_to_map foldr uncurry]. rewrite delete_insert_eq.
      apply delete_id. apply not_elem_of_list_to_map_1. exact Hh.
    + exists wk. cbn -[kill_weak_persistents]. rewrite Hk.
      split; [reflexivity|exact Hempty].
Qed.

(** The destructor from the end of the loop over the table on. *)
Lemma IsolateEnvironment_dtor_after_loop (w wk : World I) evk :
  root (env w) = false →
  kill_weak_persistents invoke (map_to_list (weak_persistents (env w)))
    (fst <$> head (map_to_list (weak_persistents (env w)))) (detached w) =
    (Return tt, wk, evk) →
  (weak_persistents (env wk) ≠ ∅ →
     IsolateEnvironment_dtor invoke w =
       (Stopped (assertion_failed "weak_persistents.empty()"), wk,
        dtor_prologue w ++ evk)) ∧
  (weak_persistents (env wk) = ∅ →
   is_Some (isolate_map wk !! isolate (env wk)) →
     IsolateEnvironment_dtor invoke w =
       (Return tt, destroyed w wk, dtor_prologue w ++ evk ++ dtor_epilogue wk)).
Proof.
  intros Hroot Hk.
  unfold detached in Hk.
  cbn -[kill_weak_persistents map_to_list] in Hk.
  split.
  - intros Hne.
    unfold IsolateEnvironment_dtor.
    unfold bind at 1, get at 1. rewrite Hroot.
    unfold SchedulerLock_enter at 1, SchedulerLock_leave at 1,
      ExecutorLock_enter, Scope_enter, modify_env.
    destruct (inspector_agent (env w)) eqn:Hagent;
      cbn -[kill_weak_persistents map_to_list]; rewrite Hagent;
      cbn -[kill_weak_persistents map_to_list];
      rewrite (bind_Return _ _ _ _ _ _ Hk); cbn;
      rewrite bool_decide_eq_false_2 by exact Hne;
      unfold dtor_prologue; rewrite ?Hagent; cbn;
      rewrite ?app_nil_r; reflexivity.
  - intros Hempty [p Hp].
    unfold IsolateEnvironment_dtor.
    unfold bind at 1, get at 1. rewrite Hroot.
    unfold SchedulerLock_enter at 1, SchedulerLock_leave at 1,
      ExecutorLock_enter, Scope_enter, modify_env.
    destruct (inspector_agent (env w)) eqn:Hagent;
      cbn -[kill_weak_persistents map_to_list]; rewrite Hagent;
      cbn -[kill_weak_persistents map_to_list];
      rewrite (bind_Return _ _ _ _ _ _ Hk); cbn;
      rewrite bool_decide_eq_true_2 by exact Hempty; cbn;
      rewrite bind_destroy_queue; cbn;
      rewrite bind_destroy_queue; cbn;
      rewrite bind_destroy_queue; cbn;
      rewrite bind_destroy_queue; cbn;
      rewrite Hp; cbn;
      unfold dtor_prologue, dtor_epilogue, destroyed; rewrite ?Hagent; cbn;
      rewrite ?app_nil_r, <- ?app_assoc; reflexivity.
Qed.

(** C7.  The destructor of the root environment does nothing.  On a
    sandboxed environment it detaches the inspector agent under the
    scheduler lock, takes the executor lock and runs the cleanups of the
    weak-callback table.  When each cleanup unregisters its own handle, all
    of them run and the table is empty; then, for an environment that is in
    the registry, the four queues are taken and their contents destroyed,
    the locks are released, the engine instance is disposed with this
    environment as the current one, and the instance is erased from the
    registry.  Whatever the cleanups do, a table that is not empty after
    the loop fails the assertion, and a destructor that returns leaves the
    table and the four queues empty. *)
Theorem IsolateEnvironment_dtor_spec (w : World I) :
  let entries := map_to_list (weak_persistents (env w)) in
  (root (env w) = true →
     IsolateEnvironment_dtor invoke w = (Return tt, w, [])) ∧
  (root (env w) = false → unregisters_itself invoke entries →
     ∃ wk,
       kill_weak_persistents invoke entries (fst <$> head entries) (detached w) =
         (Return tt, wk, cleanup_event <$> entries) ∧
       weak_persistents (env wk) = ∅ ∧
       (is_Some (isolate_map wk !! isolate (env wk)) →
          IsolateEnvironment_dtor invoke w =
            (Return tt, destroyed w wk,
             dtor_prologue w ++ (cleanup_event <$> entries) ++ dtor_epilogue wk))) ∧
  (root (env w) = false →
     ∀ wk evk,
       kill_weak_persistents invoke entries (fst <$> head entries) (detached w) =
         (Return tt, wk, evk) →
       (weak_persistents (env wk) ≠ ∅ →
          IsolateEnvironment_dtor invoke w =
            (Stopped (assertion_failed "weak_persistents.empty()"), wk,
             dtor_prologue w ++ evk)) ∧
       (weak_persistents (env wk) = ∅ →
        is_Some (isolate_map wk !! isolate (env wk)) →
          IsolateEnvironment_dtor invoke w =
            (Return tt, destroyed w wk,
             dtor_prologue w ++ evk ++ dtor_epilogue wk) ∧
          weak_persistents (env (destroyed w wk)) = ∅ ∧
          scheduler (env (destroyed w wk)) =
            mkScheduler (status (scheduler (env wk))) [] [] [] [] ∧
          v8 (destroyed w wk) = Dispose (v8 wk) ∧
          isolate_map (destroyed w wk) !! isolate (env wk) = None ∧
          current_env (destroyed w wk) = current_env w)).
Proof.
  intros entries. split; [|split].
  - intros Hroot. unfold IsolateEnvironment_dtor, bind, get. rewrite Hroot.
    reflexivity.
  - intros Hroot Hself.
    destruct (kill_weak_persistents_all entries (detached w)) as (wk & Hk & Hempty).
    + exact Hself.
    + apply NoDup_fst_map_to_list.
    + unfold detached. cbn. symmetry. apply list_to_map_to_list.
    + exists wk. split; [exact Hk|]. split; [exact Hempty|].
      apply (IsolateEnvironment_dtor_after_loop w wk _ Hroot Hk). exact Hempty.
  - intros Hroot wk evk Hk.
    destruct (IsolateEnvironment_dtor_after_loop w wk evk Hroot Hk) as [Hfail Hok].
    split; [exact Hfail|].
    intros Hempty Hreg. split; [apply Hok; assumption|].
    cbn. rewrite Hempty. repeat split. apply lookup_delete_eq.
Qed.

End DestructionProperties.

(** ** The execution pass *)

Section PassProperties.

Context {I : Type} `{Engine I}.
Variable Run : Runnable → World I → World I.

Lemma run_queue_spec (q : list Runnable) (w : World I) :
  run_queue Run q w = (Return tt, runs Run q w, ran q).
Proof.
  revert w. induction q as [|r q IH]; intros w; [reflexivity|].
  cbn -[ran]. unfold bind, call_Run, destroy, emit, modify, bind. rewrite IH.
  reflexivity.
Qed.

Lemma CheckMemoryPressure_returns (w : World I) :
  CheckMemoryPressure w = (Return tt, pressure_checked w, []).
Proof.
  unfold pressure_checked, CheckMemoryPressure, bind, get.
  case_bool_decide; reflexivity.
Qed.

Lemma pressure_checked_hit (w : World I) :
  hit_memory_limit (env (pressure_checked w)) = hit_memory_limit (env w).
Proof.
  unfold pressure_checked, CheckMemoryPressure, bind, get.
  case_bool_decide; reflexivity.
Qed.

Lemma none_hit_cons r q (w : World I) :
  hit_memory_limit (env (Run r w)) = false →
  none_hit Run q (pressure_checked (Run r w)) →
  none_hit Run (r :: q) w.
Proof.
  intros Hr Hq p r0 rest Heq. destruct p as [|r1 p]; simpl in Heq.
  - injection Heq as <- <-. exact Hr.
  - injection Heq as <- ->. apply (Hq p r0 rest). reflexivity.
Qed.

Lemma none_hit_inv r q (w : World I) :
  none_hit Run (r :: q) w →
  hit_memory_limit (env (Run r w)) = false ∧
  none_hit Run q (pressure_checked (Run r w)).
Proof.
  intros Hn. split.
  - apply (Hn [] r q). reflexivity.
  - intros p r0 rest ->. apply (Hn (r :: p) r0 rest). reflexivity.
Qed.

Lemma run_tasks_cons r (q : list Runnable) (w : World I) :
  run_tasks Run (r :: q) w =
    if hit_memory_limit (env (Run r w))
    then (Return true, Run r w, [EvRun r; EvDestroy r] ++ (EvDestroy <$> q))
    else match run_tasks Run q (pressure_checked (Run r w)) with
         | (o, w', ev) => (o, w', [EvRun r; EvDestroy r] ++ ev)
         end.
Proof.
  cbn [run_tasks].
  unfold bind at 1, call_Run at 1. unfold bind at 1, emit at 1, modify at 1.
  unfold bind at 1, destroy at 1, emit at 1.
  unfold bind at 1, get at 1.
  destruct (hit_memory_limit (env (Run r w))).
  - rewrite bind_destroy_queue. cbn. rewrite app_nil_r. reflexivity.
  - unfold bind at 1. rewrite CheckMemoryPressure_returns.
    destruct (run_tasks Run q (pressure_checked (Run r w))) as [[o w'] ev].
    reflexivity.
Qed.

(** The loop over the tasks: it runs all of them, with the check after
    each, or stops behind the first one that leaves [hit_memory_limit]
    set. *)
Lemma run_tasks_spec (q : list Runnable) (w : World I) :
  (none_hit Run q w ∧
   run_tasks Run q w = (Return false, task_world Run q w, ran q))
  ∨ (∃ p r left,
       q = p ++ r :: left ∧ none_hit Run p w ∧
       hit_memory_limit (env (Run r (task_world Run p w))) = true ∧
       run_tasks Run q w =
         (Return true, Run r (task_world Run p w),
          ran (p ++ [r]) ++ (EvDestroy <$> left))).
Proof.
  revert w. induction q as [|r q IH]; intros w.
  - left. split; [|reflexivity]. intros [|] ? ? ?; discriminate.
  - rewrite run_tasks_cons.
    destruct (hit_memory_limit (env (Run r w))) eqn:Hhit.
    + right. exists [], r, q. repeat split.
      * intros [|] ? ? ?; discriminate.
      * exact Hhit.
    + destruct (IH (pressure_checked (Run r w)))
        as [[Hnone Heq]|(p & r0 & left & -> & Hnone & Hr0 & Heq)].
      * left. split; [apply none_hit_cons; assumption|].
        rewrite Heq. reflexivity.
      * right. exists (r :: p), r0, left. repeat split.
        -- apply none_hit_cons; assumption.
        -- exact Hr0.
        -- rewrite Heq. reflexivity.
Qed.

(** One turn of the loop of [AsyncEntry]. *)
Lemma AsyncEntry_loop_S (n : nat) (w : World I) :
  AsyncEntry_loop Run (S n) w =
    if all_empty (tasks (scheduler (env w))) (handle_tasks (scheduler (env w)))
                 (interrupts (scheduler (env w)))
    then
      if bool_decide (status_of w = Running)
      then (Return tt, now_waiting (taken w), [EvSchedulerLock; EvSchedulerUnlock])
      else (Stopped (assertion_failed "scheduler.status == Status::Running"),
            taken w, [EvSchedulerLock])
    else
      match run_tasks Run (tasks (scheduler (env w))) (before_tasks Run w) with
      | (Return true, w3, ev) => (Return tt, w3, iteration_prefix w ++ ev)
      | (Return false, w3, ev) =>
          match AsyncEntry_loop Run n w3 with
          | (o, w4, ev') => (o, w4, iteration_prefix w ++ ev ++ ev')
          end
      | (Stopped s, w3, ev) => (Stopped s, w3, iteration_prefix w ++ ev)
      end.
Proof.
  cbn [AsyncEntry_loop].
  unfold SchedulerLock_enter, SchedulerLock_leave, TakeTasks, TakeHandleTasks,
    TakeInterrupts, modify_scheduler, modify_env.
  cbn -[run_queue run_tasks AsyncEntry_loop all_empty].
  destruct (all_empty _ _ _).
  - unfold DoneRunning, status_of, cxx_assert, modify_scheduler, modify_env,
      bind, get, modify, emit, ret, stop.
    cbn. case_bool_decide; reflexivity.
  - cbn -[run_queue run_tasks AsyncEntry_loop].
    rewrite (bind_Return _ _ _ _ _ _ (run_queue_spec _ _)).
    rewrite (bind_Return _ _ _ _ _ _ (run_queue_spec _ _)).
    unfold bind, before_tasks, iteration_prefix, taken.
    destruct (run_tasks Run _ _) as [[[[|]|s] w3] ev]; cbn -[ran AsyncEntry_loop].
    + rewrite app_nil_r, <- !app_assoc. reflexivity.
    + destruct (AsyncEntry_loop Run n w3) as [[o w4] ev'].
      rewrite <- !app_assoc. reflexivity.
    + rewrite <- !app_assoc. reflexivity.
Qed.

Lemma all_empty_nothing_queued (w : World I) :
  all_empty (tasks (scheduler (env w))) (handle_tasks (scheduler (env w)))
            (interrupts (scheduler (env w))) = true ↔ nothing_queued w.
Proof.
  unfold all_empty, nothing_queued.
  rewrite !andb_true_iff, !bool_decide_eq_true. tauto.
Qed.

Lemma all_empty_false (w : World I) :
  ¬ nothing_queued w →
  all_empty (tasks (scheduler (env w))) (handle_tasks (scheduler (env w)))
            (interrupts (scheduler (env w))) = false.
Proof.
  intros Hq. apply not_true_is_false. rewrite all_empty_nothing_queued. exact Hq.
Qed.

Lemma run_tasks_all (q : list Runnable) (w : World I) :
  none_hit Run q w →
  run_tasks Run q w = (Return false, task_world Run q w, ran q).
Proof.
  revert w. induction q as [|r q IH]; intros w Hnone; [reflexivity|].
  apply none_hit_inv in Hnone as [Hr Hq].
  rewrite run_tasks_cons, Hr, (IH _ Hq). reflexivity.
Qed.

Lemma run_tasks_stop (p : list Runnable) r left (w : World I) :
  none_hit Run p w →
  hit_memory_limit (env (Run r (task_world Run p w))) = true →
  run_tasks Run (p ++ r :: left) w =
    (Return true, Run r (task_world Run p w),
     ran (p ++ [r]) ++ (EvDestroy <$> left)).
Proof.
  revert w. induction p as [|r0 p IH]; intros w Hnone Hhit.
  - cbn [app]. rewrite run_tasks_cons. cbn in Hhit. rewrite Hhit. reflexivity.
  - apply none_hit_inv in Hnone as [Hr Hp].
    cbn [app]. rewrite run_tasks_cons, Hr, (IH _ Hp Hhit). reflexivity.
Qed.

Lemma AsyncEntry_loop_sound (fuel : nat) (w w' : World I) ev :
  AsyncEntry_loop Run fuel w = (Return tt, w', ev) → pass Run w ev w'.
Proof.
  revert w w' ev. induction fuel as [|n IH]; intros w w' ev; [discriminate|].
  rewrite AsyncEntry_loop_S.
  destruct (all_empty _ _ _) eqn:Hempty.
  - apply all_empty_nothing_queued in Hempty.
    case_bool_decide as Hst; [|discriminate].
    intros [= <- <-]. apply pass_done; assumption.
  - assert (¬ nothing_queued w) as Hq.
    { rewrite <- all_empty_nothing_queued, Hempty. discriminate. }
    destruct (run_tasks_spec (tasks (scheduler (env w))) (before_tasks Run w))
      as [[Hnone Heq]|(p & r & left & Hsplit & Hnone & Hhit & Heq)];
      rewrite Heq.
    + destruct (AsyncEntry_loop Run n _) as [[o w4] ev'] eqn:Hnext.
      intros [= -> <- <-]. eapply pass_again; eauto.
    + intros [= <- <-]. eapply pass_stop; eauto.
Qed.

Lemma AsyncEntry_loop_complete (w w' : World I) ev :
  pass Run w ev w' → ∃ fuel, AsyncEntry_loop Run fuel w = (Return tt, w', ev).
Proof.
  induction 1 as [w Hq Hst|w p r left w3 Hq Hsplit Hnone -> Hhit
                 |w w3 ev w' Hq Hnone -> Hpass [n IH]].
  - exists 1%nat. rewrite AsyncEntry_loop_S.
    apply all_empty_nothing_queued in Hq. rewrite Hq.
    rewrite bool_decide_eq_true_2 by exact Hst. reflexivity.
  - exists 1%nat. rewrite AsyncEntry_loop_S, (all_empty_false _ Hq), Hsplit.
    rewrite (run_tasks_stop _ _ _ _ Hnone Hhit). reflexivity.
  - exists (S n). rewrite AsyncEntry_loop_S, (all_empty_false _ Hq).
    rewrite (run_tasks_all _ _ Hnone), IH. reflexivity.
Qed.

Lemma pass_end (w w' : World I) ev :
  pass Run w ev w' →
  hit_memory_limit (env w') = true ∨ (nothing_queued w' ∧ status_of w' = Waiting).
Proof.
  induction 1 as [w Hq Hst|w p r left w3 Hq Hsplit Hnone -> Hhit
                 |w w3 ev w' Hq Hnone -> Hpass IH].
  - right. split; [repeat split|reflexivity].
  - left. exact Hhit.
  - exact IH.
Qed.

Variable stack_base : option N.

Lemma AsyncEntry_unfold (fuel : nat) (w : World I) :
  AsyncEntry Run stack_base fuel w =
    match AsyncEntry_loop Run fuel (entered stack_base w) with
    | (Return _, w1, ev) =>
        (Return tt, with_current_env (current_env w) w1,
         [EvExecutorLock (this (env w))] ++ ev ++
         [EvExecutorUnlock (this (env w1))])
    | (Stopped s, w1, ev) =>
        (Stopped s, w1, [EvExecutorLock (this (env w))] ++ ev)
    end.
Proof.
  unfold AsyncEntry, ExecutorLock_enter, ExecutorLock_leave, Scope_enter,
    Scope_leave, entered, modify_v8.
  cbn -[AsyncEntry_loop size_t_add].
  destruct (root (env w)); [|destruct stack_base];
    cbn -[AsyncEntry_loop size_t_add];
    unfold bind; destruct (AsyncEntry_loop Run fuel _) as [[[[]|s] w1] ev];
    cbn; rewrite ?app_nil_r; reflexivity.
Qed.

(** C1, as the code has it.  [AsyncEntry] takes the executor lock and
    loops.  A pass returns exactly the way [pass] describes: each turn
    takes [tasks], [handle_tasks] and [interrupts] out of the scheduler
    under its lock and leaves [sync_interrupts] where it is; with nothing
    in the three it calls [DoneRunning] and stops; otherwise it runs the
    interrupts, the handle tasks and the tasks, each queue front to back,
    stops behind a task that leaves [hit_memory_limit] set and checks
    memory pressure behind every other task; what was pushed on the three
    queues meanwhile is taken by the next turn.  A pass that returns has
    either stopped on [hit_memory_limit] or left the three queues empty
    and the status Waiting. *)
Theorem AsyncEntry_pass :
  (∀ fuel (w w' : World I) ev,
     AsyncEntry_loop Run fuel w = (Return tt, w', ev) → pass Run w ev w') ∧
  (∀ (w w' : World I) ev,
     pass Run w ev w' → ∃ fuel, AsyncEntry_loop Run fuel w = (Return tt, w', ev)) ∧
  (∀ (w w' : World I) ev,
     pass Run w ev w' →
     hit_memory_limit (env w') = true ∨
     (nothing_queued w' ∧ status_of w' = Waiting)) ∧
  (∀ fuel (w w' : World I) ev,
     AsyncEntry Run stack_base fuel w = (Return tt, w', ev) →
     ∃ w1 ev1,
       pass Run (entered stack_base w) ev1 w1 ∧
       ev = [EvExecutorLock (this (env w))] ++ ev1 ++
            [EvExecutorUnlock (this (env w1))] ∧
       w' = with_current_env (current_env w) w1) ∧
  (∀ w : World I,
     nothing_queued w → status_of w = Running →
     AsyncEntry_loop Run 1 w =
       (Return tt, now_waiting (taken w), [EvSchedulerLock; EvSchedulerUnlock]) ∧
     sync_interrupts (scheduler (env (now_waiting (taken w)))) =
       sync_interrupts (scheduler (env w))).
Proof.
  split; [exact AsyncEntry_loop_sound|].
  split; [exact AsyncEntry_loop_complete|].
  split; [exact pass_end|].
  split.
  - intros fuel w w' ev. rewrite AsyncEntry_unfold.
    destruct (AsyncEntry_loop Run fuel _) as [[[[]|s] w1] ev1] eqn:Hloop;
      [|discriminate].
    intros [= <- <-]. exists w1, ev1.
    split; [apply (AsyncEntry_loop_sound _ _ _ _ Hloop)|]. split; reflexivity.
  - intros w Hq Hst. split; [|reflexivity].
    rewrite AsyncEntry_loop_S.
    apply all_empty_nothing_queued in Hq. rewrite Hq.
    rewrite bool_decide_eq_true_2 by exact Hst. reflexivity.
Qed.

End PassProperties.

(** ** AsyncWait *)

Section AsyncWaitProperties.

Import AsyncWait.

Lemma step_released_right s o : released_right s → released_right (step s o).
Proof.
  unfold released_right.
  destruct s as [r d wt n c], o; cbn; intros Hs;
    destruct r, d, wt; cbn in *; intros; try discriminate; auto;
    destruct Hs; auto; discriminate.
Qed.

Lemma step_no_lost_wakeup s o : no_lost_wakeup s → no_lost_wakeup (step s o).
Proof.
  unfold no_lost_wakeup.
  destruct s as [r d wt n c], o; cbn; intros Hs;
    destruct r, d, wt; cbn in *; intros; try discriminate; auto;
    rewrite ?orb_true_r; auto.
Qed.

Lemma run_invariant (P : State → Prop) :
  (∀ s o, P s → P (step s o)) → ∀ ops s, P s → P (run ops s).
Proof.
  intros Hstep ops. unfold run.
  induction ops as [|o ops IH]; intros s Hs; [exact Hs|].
  cbn. apply IH, Hstep, Hs.
Qed.

Lemma run_without (P : State → Prop) (banned : Op) :
  (∀ s o, o ≠ banned → P s → P (step s o)) →
  ∀ ops s, banned ∉ ops → P s → P (run ops s).
Proof.
  intros Hstep ops. unfold run.
  induction ops as [|o ops IH]; intros s Hnot Hs; [exact Hs|].
  cbn. apply not_elem_of_cons in Hnot as [Hne Hnot].
  apply IH; [exact Hnot|]. apply Hstep; [congruence|exact Hs].
Qed.

(** C9.  Whatever the threads do and in whatever order: a waiter is
    released only when both flags are set; without a [Wake] (or without a
    [Ready]) while the flag is down it is never released; a parked waiter
    that finds both flags set has been notified, and returns from its
    wait, as does a waiter that calls [Wait] then; and [Ready] calls
    [notify_one] exactly when it finds [done] set, [Wake] exactly when it
    finds [ready] set. *)
Theorem AsyncWait_rendezvous :
  (∀ ops s, waiter s ≠ Released →
     waiter (run ops s) = Released →
     ready (run ops s) = true ∧ done (run ops s) = true) ∧
  (∀ ops s, waiter s ≠ Released → done s = false → OpWake ∉ ops →
     waiter (run ops s) ≠ Released) ∧
  (∀ ops s, waiter s ≠ Released → ready s = false → OpReady ∉ ops →
     waiter (run ops s) ≠ Released) ∧
  (∀ ops s, waiter s = Idle → no_lost_wakeup (run ops s)) ∧
  (∀ s, ready s = true → done s = true →
     (waiter s = Blocked → waiter (wakeup s) = Released) ∧
     (waiter s = Idle → waiter (Wait s) = Released)) ∧
  (∀ s, ready (Wake (Ready s)) = true ∧ done (Wake (Ready s)) = true ∧
        ready (Ready (Wake s)) = true ∧ done (Ready (Wake s)) = true) ∧
  (∀ s, notify_calls (Ready s) =
          if done s then S (notify_calls s) else notify_calls s) ∧
  (∀ s, notify_calls (Wake s) =
          if ready s then S (notify_calls s) else notify_calls s).
Proof.
  split; [|split; [|split; [|split; [|split; [|split; [|split]]]]]].
  - intros ops s Hs Hrel.
    apply (run_invariant released_right step_released_right ops s);
      [intros ?; contradiction|assumption].
  - intros ops s Hs Hd Hnot Hrel.
    assert (done (run ops s) = false ∧ waiter (run ops s) ≠ Released) as [_ Hn].
    { apply (run_without (λ s, done s = false ∧ waiter s ≠ Released) OpWake);
        [|assumption|split; assumption].
      intros [r d wt n c] o Ho [Hd' Hw]; cbn in *; subst d.
      destruct o; [| congruence | |]; destruct r, wt; cbn; auto. }
    contradiction.
  - intros ops s Hs Hr Hnot Hrel.
    assert (ready (run ops s) = false ∧ waiter (run ops s) ≠ Released) as [_ Hn].
    { apply (run_without (λ s, ready s = false ∧ waiter s ≠ Released) OpReady);
        [|assumption|split; assumption].
      intros [r d wt n c] o Ho [Hr' Hw]; cbn in *; subst r.
      destruct o; [congruence| | |]; destruct d, wt; cbn; auto. }
    contradiction.
  - intros ops s Hidle.
    apply (run_invariant no_lost_wakeup step_no_lost_wakeup).
    intros Hb. congruence.
  - intros s Hr Hd. split.
    + intros Hb. unfold wakeup, test_condition. rewrite Hb, Hr, Hd. reflexivity.
    + intros Hi. unfold Wait, test_condition. rewrite Hi, Hr, Hd. reflexivity.
  - intros [r d wt n c]. cbn. destruct r, d; repeat split; reflexivity.
  - intros [r d wt n c]. cbn. destruct d; reflexivity.
  - intros [r d wt n c]. cbn. destruct r; reflexivity.
Qed.

End AsyncWaitProperties.

(** * The model on concrete worlds *)

Section Concrete.

Local Open Scope N_scope.

(** Scenario of the design: three tasks pushed to a waiting environment and
    one wake give one hand-off to the pool; the pass runs them in order and
    the status is back to Waiting. *)
Example three_tasks :
  let w0 := Toy.exec (PushTask 3) (Toy.exec (PushTask 2) (Toy.exec (PushTask 1) Toy.world)) in
  (WakeIsolate w0).1.1 = Return true ∧
  dispatches (WakeIsolate w0).2 = [EvThreadPoolExec 1000] ∧
  let w1 := Toy.exec WakeIsolate w0 in
  (WakeIsolate w1).1.1 = Return false ∧
  (AsyncEntry Toy.Run None 2 w1).1.1 = Return tt ∧
  List.filter (λ e, match e with EvRun _ => true | _ => false end)
    (AsyncEntry Toy.Run None 2 w1).2 = [EvRun 1; EvRun 2; EvRun 3] ∧
  status_of (Toy.exec (AsyncEntry Toy.Run None 2) w1) = Waiting.
Proof. vm_compute. repeat split. Qed.

(** *** Scheduler *)

Lemma WakeIsolate_spec_witness :
  status_of Toy.world = Waiting ∧
  ∃ w' ev,
    WakeIsolate Toy.world = (Return true, w', ev) ∧
    status_of w' = Running ∧
    uv_ref_count w' = 1 ∧
    dispatches ev = [EvThreadPoolExec 1000].
Proof.
  split; [reflexivity|].
  destruct (proj2 (WakeIsolate_spec Toy.world))
    as (w' & ev & Heq & Hs & Hc & _ & Hd & _).
  - reflexivity.
  - intros _. reflexivity.
  - discriminate.
  - exists w', ev. unfold status_of. rewrite Hs, Hc.
    repeat split; [exact Heq|exact Hd].
Defined.

Lemma Toy_Run_keeps_status r w : status_of (Toy.Run r w) = status_of w.
Proof. unfold Toy.Run. repeat case_bool_decide; reflexivity. Qed.

Lemma Toy_invoke_keeps_status fn p w : status_of (Toy.invoke fn p w) = status_of w.
Proof. unfold Toy.invoke. case_bool_decide; reflexivity. Qed.

Lemma Status_transitions_witness :
  status_of Toy.world = Waiting ∧
  status_of (Toy.exec (perform true false OpWakeIsolate) Toy.world) = Running ∧
  status_of Toy.sync_pending = Running ∧
  status_of (Toy.exec (AsyncEntry Toy.Run None 1) Toy.sync_pending) = Waiting.
Proof.
  destruct (Status_transitions true false) as (Hops & _ & Hcallbacks).
  split; [reflexivity|]. split; [|split; [reflexivity|]].
  - destruct (Hops OpWakeIsolate Toy.world
                (Toy.exec (perform true false OpWakeIsolate) Toy.world)
                (Return (VBool true)) [EvUvRef; EvThreadPoolExec 1000])
      as [(_ & _ & _ & Hr)|(Hop & _)].
    + vm_compute. reflexivity.
    + reflexivity.
    + vm_compute. discriminate.
    + exact Hr.
    + discriminate Hop.
  - destruct (Hcallbacks Toy.Run Toy.invoke None
                Toy_Run_keeps_status Toy_invoke_keeps_status 1%nat Toy.sync_pending)
      as ([Hsame|[_ Hw]] & _).
    + vm_compute in Hsame. discriminate Hsame.
    + exact Hw.
Defined.

(** *** Environment *)

Lemma WeakCallback_spec_witness :
  AddWeakCallback 60 50 60 Toy.populated =
    (Stopped (throw (std_logic_error "Weak callback already added")),
     Toy.populated, []) ∧
  RemoveWeakCallback 62 Toy.populated =
    (Stopped (throw (std_logic_error "Weak callback doesn't exist")),
     Toy.populated, []) ∧
  weak_persistents (env (Toy.exec (AddWeakCallback 62 50 62) Toy.populated)) !! 62 =
    Some (50, 62) ∧
  weak_persistents (env (Toy.exec (RemoveWeakCallback 60) Toy.populated)) !! 60 = None ∧
  AddWeakCallback 60 50 60 Toy.root_world = (Return tt, Toy.root_world, []).
Proof.
  destruct (WeakCallback_spec Toy.populated 60 50 60) as [_ Hin].
  destruct (WeakCallback_spec Toy.populated 62 50 62) as [_ Hout].
  destruct (WeakCallback_spec Toy.root_world 60 50 60) as [Hroot _].
  destruct (Hin eq_refl) as [Hpresent _].
  destruct (Hout eq_refl) as [_ Habsent].
  destruct Hpresent as [Hadd Hremove]; [vm_compute; eauto|].
  destruct Habsent as [Hadd' Hremove']; [vm_compute; reflexivity|].
  destruct (Hroot eq_refl) as [Hradd _].
  split; [exact Hadd|]. split; [exact Hremove'|].
  unfold Toy.exec. rewrite Hadd', Hremove.
  split; [vm_compute; reflexivity|]. split; [vm_compute; reflexivity|exact Hradd].
Defined.

Lemma LookupIsolate_spec_witness :
  LookupIsolate 9999 Toy.world = (Return None, Toy.world, []) ∧
  LookupIsolate 2000 Toy.world = (Return (Some 3000), Toy.world, []).
Proof.
  destruct (LookupIsolate_spec Toy.world 9999) as [Hnone _].
  destruct (LookupIsolate_spec Toy.world 2000) as [_ Hsome].
  split.
  - apply Hnone. vm_compute. reflexivity.
  - apply (Hsome 1000 Toy.sandbox); vm_compute; reflexivity.
Defined.

Lemma Terminate_spec_witness :
  Terminate Toy.root_world =
    (Stopped (assertion_failed "!root"), Toy.root_world, []) ∧
  ∃ w',
    Terminate Toy.populated =
      (Return tt, w', [EvSchedulerLock; EvAgentTerminate 77; EvSchedulerUnlock]) ∧
    terminated (env w') = true ∧
    Toy.execution_terminated (v8 w') = true ∧
    holder_isolate w' !! 3000 = None.
Proof.
  split.
  - apply (proj1 (Terminate_spec Toy.root_world)). reflexivity.
  - destruct (proj2 (Terminate_spec Toy.populated))
      as (w' & ev & Heq & _ & Hterm & -> & Hv8 & _ & Hholder).
    + reflexivity.
    + exists w'. split; [exact Heq|]. split; [exact Hterm|].
      split; [rewrite Hv8; reflexivity|exact Hholder].
Defined.


(** *** Garbage-collection epilogue *)

Lemma MarkSweepCompactEpilogue_within_budget_witness :
  (budget Toy.expanded <? total_memory Toy.expanded) = false ∧
  MarkSweepCompactEpilogue true false 1 kNoGCCallbackFlags Toy.expanded =
    moderate_requested true false (ratcheted Toy.expanded).
Proof.
  assert ((budget Toy.expanded <? total_memory Toy.expanded) = false) as Hwithin
    by (vm_compute; reflexivity).
  split; [exact Hwithin|].
  rewrite (MarkSweepCompactEpilogue_within_budget true false 0
             kNoGCCallbackFlags Toy.expanded Hwithin).
  vm_compute. reflexivity.
Defined.

(** C5 as stated fails: with usage within the budget but at 93% of it, well
    above 80%, and an expansion active, the epilogue of an ordinary
    collection ratchets all the same.  The engine is back at its initial
    heap limit and the adjustment flag is cleared.  So it is not true that
    the flag is cleared only under 80% load. *)
Lemma MarkSweepCompactEpilogue_ratchets_above_80_percent :
  ((budget Toy.expanded <? total_memory Toy.expanded) = false ∧
   above_80_percent Toy.expanded = true ∧
   did_adjust_heap_limit (env Toy.expanded) = true ∧
   heap_size_limit (GetHeapStatistics (v8 Toy.expanded)) =
     initial_heap_size_limit (env Toy.expanded) + 2 * 1024 * 1024 * 1024 ∧
   ∃ w',
     MarkSweepCompactEpilogue true false 2 kNoGCCallbackFlags Toy.expanded =
       (Return tt, w', []) ∧
     heap_size_limit (GetHeapStatistics (v8 w')) =
       initial_heap_size_limit (env Toy.expanded) ∧
     did_adjust_heap_limit (env w') = false) ∧
  ¬ (∀ (w w' : World Toy.Isolate) ev,
       (budget w <? total_memory w) = false →
       MarkSweepCompactEpilogue true false 2 kNoGCCallbackFlags w = (Return tt, w', ev) →
       did_adjust_heap_limit (env w) = true →
       did_adjust_heap_limit (env w') = false →
       above_80_percent w = false).
Proof.
  split.
  - repeat split; try (vm_compute; reflexivity).
    eexists. vm_compute. repeat split.
  - intros Hclaim.
    specialize (Hclaim Toy.expanded
                  (Toy.exec (MarkSweepCompactEpilogue true false 2 kNoGCCallbackFlags)
                     Toy.expanded) []).
    assert (above_80_percent Toy.expanded = false) as Habs.
    { apply Hclaim; vm_compute; reflexivity. }
    vm_compute in Habs. discriminate Habs.
Qed.

(** *** Destruction *)

Lemma Toy_populated_unregisters :
  unregisters_itself Toy.invoke
    (map_to_list (weak_persistents (env Toy.populated))).
Proof.
  intros h fn p Hin w. apply list_elem_of_In in Hin. vm_compute in Hin.
  destruct Hin as [[= <- <- <-]|[[= <- <- <-]|[]]]; reflexivity.
Qed.

Lemma IsolateEnvironment_dtor_spec_witness :
  IsolateEnvironment_dtor Toy.invoke Toy.root_world = (Return tt, Toy.root_world, []) ∧
  ∃ w',
    IsolateEnvironment_dtor Toy.invoke Toy.populated =
      (Return tt, w',
       [EvSchedulerLock; EvSchedulerUnlock; EvExecutorLock 1000; EvAgentDestroy 77;
        EvWeakCallback 50 60; EvWeakCallback 50 61;
        EvSchedulerLock; EvDestroy 3; EvDestroy 4; EvDestroy 2; EvDestroy 1;
        EvSchedulerUnlock; EvExecutorUnlock 1000; EvIsolateDispose (Some 1000)]) ∧
    weak_persistents (env w') = ∅ ∧
    Toy.disposed (v8 w') = true ∧
    isolate_map w' !! 2000 = None.
Proof.
  destruct (IsolateEnvironment_dtor_spec Toy.invoke Toy.root_world) as (Hroot & _).
  destruct (IsolateEnvironment_dtor_spec Toy.invoke Toy.populated)
    as (_ & Hloop & Hrest).
  split; [apply Hroot; reflexivity|].
  destruct (Hloop eq_refl Toy_populated_unregisters) as (wk0 & Hk0 & _ & _).
  pose (entries := map_to_list (weak_persistents (env Toy.populated))).
  pose (wk := Toy.exec (kill_weak_persistents Toy.invoke entries
                          (fst <$> head entries)) (detached Toy.populated)).
  assert (kill_weak_persistents Toy.invoke entries (fst <$> head entries)
            (detached Toy.populated) =
          (Return tt, wk, [EvWeakCallback 50 60; EvWeakCallback 50 61])) as Hk
    by (vm_compute; reflexivity).
  destruct (Hrest eq_refl wk _ Hk) as [_ Hok].
  assert (weak_persistents (env wk) = ∅) as Hempty by (vm_compute; reflexivity).
  assert (is_Some (isolate_map wk !! isolate (env wk))) as Hreg
    by (vm_compute; eauto).
  destruct (Hok Hempty Hreg) as (Heq & Htbl & _ & Hv8 & Hmap & _).
  exists (destroyed Toy.populated wk). split; [|split; [exact Htbl|split]].
  - rewrite Heq. vm_compute. reflexivity.
  - rewrite Hv8. reflexivity.
  - exact Hmap.
Defined.

(** A cleanup that leaves its entry in the table makes the destructor fail
    its assertion. *)
Example dtor_leaky :
  (IsolateEnvironment_dtor Toy.invoke Toy.leaky).1.1 =
    Stopped (assertion_failed "weak_persistents.empty()").
Proof. vm_compute. reflexivity. Qed.

(** *** AsyncWait *)

Lemma AsyncWait_rendezvous_witness :
  let s0 := AsyncWait.mk false false AsyncWait.Idle false 0 in
  let both := [AsyncWait.OpWait; AsyncWait.OpWake; AsyncWait.OpReady;
               AsyncWait.OpWakeup] in
  let only_ready := [AsyncWait.OpWait; AsyncWait.OpReady; AsyncWait.OpWakeup] in
  AsyncWait.waiter (AsyncWait.run both s0) = AsyncWait.Released ∧
  AsyncWait.ready (AsyncWait.run both s0) = true ∧
  AsyncWait.done (AsyncWait.run both s0) = true ∧
  AsyncWait.waiter (AsyncWait.run only_ready s0) ≠ AsyncWait.Released.
Proof.
  intros s0 both only_ready.
  destruct AsyncWait_rendezvous as (Hsafe & Hno_wake & _).
  split; [reflexivity|].
  destruct (Hsafe both s0) as [Hr Hd]; [discriminate|reflexivity|].
  split; [exact Hr|]. split; [exact Hd|].
  apply Hno_wake; [discriminate|reflexivity|].
  intros Hin. apply list_elem_of_In in Hin. vm_compute in Hin.
  destruct Hin as [Hin|[Hin|[Hin|[]]]]; discriminate Hin.
Defined.

(** *** The execution pass *)

(** C1 as stated fails: a pass that finds a synchronous interrupt queued
    and the other three queues empty calls [DoneRunning] and stops.  The
    fourth queue is not swapped out, and its runnable is not run.  So it is
    not true that a pass which calls [DoneRunning] on its first turn found
    all four queues empty. *)
Lemma AsyncEntry_leaves_sync_interrupts :
  (sync_interrupts (scheduler (env Toy.sync_pending)) = [15] ∧
   status_of Toy.sync_pending = Running ∧
   AsyncEntry_loop Toy.Run 1 Toy.sync_pending =
     (Return tt, Toy.with_queues Waiting [] [] [] [15] Toy.world,
      [EvSchedulerLock; EvSchedulerUnlock])) ∧
  ¬ (∀ (w w' : World Toy.Isolate) ev,
       status_of w = Running →
       AsyncEntry_loop Toy.Run 1 w = (Return tt, w', ev) →
       status_of w' = Waiting →
       sync_interrupts (scheduler (env w)) = []).
Proof.
  split; [vm_compute; repeat split|].
  intros Hclaim.
  assert (sync_interrupts (scheduler (env Toy.sync_pending)) = []) as Habs.
  { eapply Hclaim; vm_compute; reflexivity. }
  discriminate Habs.
Qed.

Lemma AsyncEntry_pass_witness :
  ∃ w',
    AsyncEntry_loop Toy.Run 3 Toy.busy =
      (Return tt, w',
       [EvSchedulerLock; EvSchedulerUnlock;
        EvRun 3; EvDestroy 3; EvRun 2; EvDestroy 2;
        EvRun 10; EvDestroy 10; EvRun 1; EvDestroy 1;
        EvSchedulerLock; EvSchedulerUnlock; EvRun 11; EvDestroy 11;
        EvSchedulerLock; EvSchedulerUnlock]) ∧
    pass Toy.Run Toy.busy
      [EvSchedulerLock; EvSchedulerUnlock;
       EvRun 3; EvDestroy 3; EvRun 2; EvDestroy 2;
       EvRun 10; EvDestroy 10; EvRun 1; EvDestroy 1;
       EvSchedulerLock; EvSchedulerUnlock; EvRun 11; EvDestroy 11;
       EvSchedulerLock; EvSchedulerUnlock] w' ∧
    nothing_queued w' ∧ status_of w' = Waiting.
Proof.
  destruct (AsyncEntry_pass Toy.Run None) as (Hsound & _ & Hend & _).
  eexists. split; [vm_compute; reflexivity|].
  match goal with |- pass _ _ ?ev ?w' ∧ _ =>
    assert (pass Toy.Run Toy.busy ev w') as Hpass
      by (apply (Hsound 3%nat); vm_compute; reflexivity)
  end.
  split; [exact Hpass|].
  destruct (Hend _ _ _ Hpass) as [Hhit|Hdone]; [discriminate Hhit|exact Hdone].
Defined.

(** The synchronous interrupt that the pass leaves behind is served by
    [InterruptEntry<&Lock::TakeSyncInterrupts>]. *)
Example sync_interrupt_served :
  (InterruptEntry Toy.Run TakeSyncInterrupts 2 Toy.sync_pending).1.1 = Return tt ∧
  (InterruptEntry Toy.Run TakeSyncInterrupts 2 Toy.sync_pending).2 =
    [EvSchedulerLock; EvSchedulerUnlock; EvRun 15; EvDestroy 15;
     EvSchedulerLock; EvSchedulerUnlock] ∧
  sync_interrupts
    (scheduler (env (Toy.exec (InterruptEntry Toy.Run TakeSyncInterrupts 2)
                       Toy.sync_pending))) = [].
Proof. vm_compute. repeat split. Qed.

(** A task that leaves [hit_memory_limit] set ends the pass at once: the
    task behind it is destroyed unrun, the task pushed meanwhile stays in
    the queue, and the status stays Running. *)
Example pass_stops_on_memory_limit :
  (AsyncEntry_loop Toy.Run 3 Toy.doomed).1.1 = Return tt ∧
  (AsyncEntry_loop Toy.Run 3 Toy.doomed).2 =
    [EvSchedulerLock; EvSchedulerUnlock;
     EvRun 10; EvDestroy 10; EvRun 20; EvDestroy 20; EvDestroy 4] ∧
  tasks (scheduler (env (Toy.exec (AsyncEntry_loop Toy.Run 3) Toy.doomed))) = [11] ∧
  status_of (Toy.exec (AsyncEntry_loop Toy.Run 3) Toy.doomed) = Running.
Proof. vm_compute. repeat split. Qed.

End Concrete.

(** * More of the file *)

(** ** Queues, weak callbacks, reference counts *)

Section QueueProperties.

Context {I : Type} `{Engine I}.

Lemma with_env_same (w : World I) : with_env (env w) w = w.
Proof. destruct w. reflexivity. Qed.

Lemma with_scheduler_same (e : IsolateEnvironment) : with_scheduler (scheduler e) e = e.
Proof. destruct e. reflexivity. Qed.

Lemma with_weak_persistents_same (e : IsolateEnvironment) :
  with_weak_persistents (weak_persistents e) e = e.
Proof. destruct e. reflexivity. Qed.

Lemma push_many_PushTask rs (w : World I) :
  push_many PushTask rs w =
    (Return tt,
     with_env (with_scheduler
       (with_tasks (tasks (scheduler (env w)) ++ rs) (scheduler (env w))) (env w)) w,
     []).
Proof.
  revert w. induction rs as [|r rs IH]; intros w.
  - cbn. rewrite app_nil_r.
    destruct w as [[? ? ? ? [] ? ? ? ? ? ? ? ? ? ?] ? ? ? ? ? ? ? ? ?]. reflexivity.
  - cbn [push_many]. unfold bind at 1. unfold PushTask at 1, modify_scheduler,
      modify_env, modify. rewrite IH. cbn. rewrite <- app_assoc. reflexivity.
Qed.

Lemma push_many_PushHandleTask rs (w : World I) :
  push_many PushHandleTask rs w =
    (Return tt,
     with_env (with_scheduler
       (with_handle_tasks (handle_tasks (scheduler (env w)) ++ rs) (scheduler (env w)))
       (env w)) w,
     []).
Proof.
  revert w. induction rs as [|r rs IH]; intros w.
  - cbn. rewrite app_nil_r.
    destruct w as [[? ? ? ? [] ? ? ? ? ? ? ? ? ? ?] ? ? ? ? ? ? ? ? ?]. reflexivity.
  - cbn [push_many]. unfold bind at 1. unfold PushHandleTask at 1, modify_scheduler,
      modify_env, modify. rewrite IH. cbn. rewrite <- app_assoc. reflexivity.
Qed.

Lemma push_many_PushInterrupt rs (w : World I) :
  push_many PushInterrupt rs w =
    (Return tt,
     with_env (with_scheduler
       (with_interrupts (interrupts (scheduler (env w)) ++ rs) (scheduler (env w)))
       (env w)) w,
     []).
Proof.
  revert w. induction rs as [|r rs IH]; intros w.
  - cbn. rewrite app_nil_r.
    destruct w as [[? ? ? ? [] ? ? ? ? ? ? ? ? ? ?] ? ? ? ? ? ? ? ? ?]. reflexivity.
  - cbn [push_many]. unfold bind at 1. unfold PushInterrupt at 1, modify_scheduler,
      modify_env, modify. rewrite IH. cbn. rewrite <- app_assoc. reflexivity.
Qed.

Lemma push_many_PushSyncInterrupt rs (w : World I) :
  push_many PushSyncInterrupt rs w =
    (Return tt,
     with_env (with_scheduler
       (with_sync_interrupts (sync_interrupts (scheduler (env w)) ++ rs)
          (scheduler (env w)))
       (env w)) w,
     []).
Proof.
  revert w. induction rs as [|r rs IH]; intros w.
  - cbn. rewrite app_nil_r.
    destruct w as [[? ? ? ? [] ? ? ? ? ? ? ? ? ? ?] ? ? ? ? ? ? ? ? ?]. reflexivity.
  - cbn [push_many]. unfold bind at 1. unfold PushSyncInterrupt at 1, modify_scheduler,
      modify_env, modify. rewrite IH. cbn. rewrite <- app_assoc. reflexivity.
Qed.

(** X1.  Each of the four queues is first in, first out and stands alone:
    after any run of pushes, the matching take hands back what was queued
    followed by what was pushed, in order, and leaves that queue empty, so
    that a second take finds nothing; the status and the other three queues
    are as they were. *)
Theorem queues_are_fifo (rs : list Runnable) (w : World I) :
  let s := scheduler (env w) in
  push_take_take PushTask TakeTasks rs w =
    (Return (tasks s ++ rs, []),
     with_env (with_scheduler (with_tasks [] s) (env w)) w, []) ∧
  push_take_take PushHandleTask TakeHandleTasks rs w =
    (Return (handle_tasks s ++ rs, []),
     with_env (with_scheduler (with_handle_tasks [] s) (env w)) w, []) ∧
  push_take_take PushInterrupt TakeInterrupts rs w =
    (Return (interrupts s ++ rs, []),
     with_env (with_scheduler (with_interrupts [] s) (env w)) w, []) ∧
  push_take_take PushSyncInterrupt TakeSyncInterrupts rs w =
    (Return (sync_interrupts s ++ rs, []),
     with_env (with_scheduler (with_sync_interrupts [] s) (env w)) w, []).
Proof.
  intros s. unfold push_take_take. repeat split.
  - unfold bind at 1. rewrite push_many_PushTask. reflexivity.
  - unfold bind at 1. rewrite push_many_PushHandleTask. reflexivity.
  - unfold bind at 1. rewrite push_many_PushInterrupt. reflexivity.
  - unfold bind at 1. rewrite push_many_PushSyncInterrupt. reflexivity.
Qed.

(** X2.  On a sandboxed environment registering a handle that is not in
    the table and unregistering it again gives back the world as it was,
    and so does unregistering a registered handle and registering it again
    with the same cleanup; registering twice fails on the second call with
    the first registration in place, unregistering twice fails on the
    second call with the entry gone. *)
Theorem weak_callback_round_trip (w : World I) (h : Handle) (fn : FnPtr) (p : Param) :
  root (env w) = false →
  let tbl := weak_persistents (env w) in
  (tbl !! h = None →
     bind (AddWeakCallback h fn p) (λ _, RemoveWeakCallback h) w = (Return tt, w, []) ∧
     bind (AddWeakCallback h fn p) (λ _, AddWeakCallback h fn p) w =
       (Stopped (throw (std_logic_error "Weak callback already added")),
        with_env (with_weak_persistents (<[h := (fn, p)]> tbl) (env w)) w, [])) ∧
  (tbl !! h = Some (fn, p) →
     bind (RemoveWeakCallback h) (λ _, AddWeakCallback h fn p) w = (Return tt, w, []) ∧
     bind (RemoveWeakCallback h) (λ _, RemoveWeakCallback h) w =
       (Stopped (throw (std_logic_error "Weak callback doesn't exist")),
        with_env (with_weak_persistents (delete h tbl) (env w)) w, [])).
Proof.
  intros Hroot tbl. subst tbl.
  destruct w as [e ? ? ? ? ? ? ? ? ?]. destruct e. cbn in Hroot. subst.
  unfold AddWeakCallback, RemoveWeakCallback, modify_env, modify, bind, get.
  cbn. split; intros Hh; rewrite Hh; cbn.
  - rewrite lookup_insert_eq. cbn. rewrite delete_insert_id by exact Hh.
    split; reflexivity.
  - rewrite lookup_delete_eq. cbn. rewrite insert_delete_id by exact Hh.
    split; reflexivity.
Qed.

Lemma uint_decr_incr n : n < 2 ^ 32 → uint_decr (uint_incr n) = n.
Proof.
  intros Hn. unfold uint_decr, uint_incr.
  destruct (decide (n = 2 ^ 32 - 1)) as [->|Hne]; [reflexivity|].
  rewrite (N.mod_small (n + 1)) by lia.
  replace (n + 1 + 2 ^ 32 - 1) with (n + 1 * 2 ^ 32) by lia.
  rewrite N.Div0.mod_add. apply N.mod_small. exact Hn.
Qed.

Lemma with_uv_ref_count_same (w : World I) : with_uv_ref_count (uv_ref_count w) w = w.
Proof. destruct w. reflexivity. Qed.

(** X3.  The outstanding-work count is balanced and the async handle of
    the default thread follows it: [IncrementUvRef] followed by
    [DecrementUvRef] gives back the world as it was, with [uv_ref] and
    [uv_unref] when and only when the count started at zero.  Starting at
    zero on any thread but the default one, the increment fails its
    assertion. *)
Theorem uv_ref_count_balanced (w : World I) :
  uv_ref_count w < 2 ^ 32 →
  (this_thread w = default_thread w ∨ uv_ref_count w ≠ 0 →
     bind IncrementUvRef (λ _, DecrementUvRef) w =
       (Return tt, w, if bool_decide (uv_ref_count w = 0)
                      then [EvUvRef; EvUvUnref] else [])) ∧
  (this_thread w ≠ default_thread w → uv_ref_count w = 0 →
     (bind IncrementUvRef (λ _, DecrementUvRef) w).1.1 =
       Stopped (assertion_failed
         "std::this_thread::get_id() == Executor::default_thread")).
Proof.
  intros Hrange.
  destruct w as [e v o n r m hi c t d]. cbn in Hrange |- *.
  assert (uint_incr n = 1 ↔ n = 0) as Hone.
  { unfold uint_incr. split; [|intros ->; reflexivity].
    destruct (decide (n = 2 ^ 32 - 1)) as [->|Hne]; [discriminate|].
    rewrite N.mod_small by lia. lia. }
  pose proof (uint_decr_incr n Hrange) as Hback.
  unfold IncrementUvRef, DecrementUvRef, IsDefaultThread, modify, bind, get.
  cbn -[uint_incr uint_decr].
  split.
  - intros Hok.
    destruct (bool_decide (uint_incr n = 1)) eqn:Hb.
    + apply bool_decide_eq_true in Hb. apply Hone in Hb. subst n.
      destruct Hok as [Hthread|Hne]; [|contradiction].
      rewrite ?(bool_decide_eq_true_2 _ Hthread). cbn -[uint_incr uint_decr].
      rewrite ?Hback.
      rewrite !(bool_decide_eq_true_2 (0 = 0)) by reflexivity. cbn.
      rewrite ?(bool_decide_eq_true_2 _ Hthread). reflexivity.
    + apply bool_decide_eq_false in Hb.
      assert (n ≠ 0) as Hne by (intros Hz; apply Hb, Hone, Hz).
      cbn -[uint_incr uint_decr]. rewrite Hback.
      rewrite !(bool_decide_eq_false_2 _ Hne). reflexivity.
  - intros Hthread ->.
    rewrite (bool_decide_eq_true_2 (uint_incr 0 = 1)) by reflexivity.
    cbn -[uint_incr uint_decr].
    rewrite (bool_decide_eq_false_2 _ Hthread). reflexivity.
Qed.

End QueueProperties.


(** ** Waking and dispatch *)

Section WakeProperties.

Context {I : Type} `{Engine I} `{EngineSetup I}.

Lemma WakeIsolate_while_waiting (w : World I) :
  status (scheduler (env w)) = Waiting →
  (uint_incr (uv_ref_count w) = 1 → this_thread w = default_thread w) →
  (root (env w) = true → root_async_data w = None) →
  WakeIsolate w = (Return true, woken w, wake_events w).
Proof.
  intros Hst Hthread Hdata.
  unfold WakeIsolate, woken, wake_events, bind, get. rewrite Hst. simpl.
  unfold IncrementUvRef, IsDefaultThread, bind, get, modify. simpl.
  case_bool_decide as Hone.
  - rewrite (bool_decide_eq_true_2 _ (Hthread Hone)). simpl.
    destruct (root (env w)) eqn:Hroot; simpl.
    + rewrite Hdata by reflexivity. reflexivity.
    + reflexivity.
  - simpl. destruct (root (env w)) eqn:Hroot; simpl.
    + rewrite Hdata by reflexivity. reflexivity.
    + reflexivity.
Qed.

Lemma wake_many_running n (w : World I) :
  status (scheduler (env w)) = Running →
  wake_many n w = (Return O, w, []).
Proof.
  intros Hst. induction n as [|n IH]; [reflexivity|].
  cbn [wake_many]. unfold bind at 1.
  rewrite (WakeIsolate_while_running w Hst).
  unfold bind. rewrite IH. reflexivity.
Qed.

(** X4.  However many callers wake a waiting environment in a row, one of
    them is told it did and one hand-off is made: all the calls after the
    first find the status Running and do nothing.  On a running environment
    none of them does anything. *)
Theorem wake_many_dispatches_once (n : nat) (w : World I) :
  (status (scheduler (env w)) = Running →
     wake_many n w = (Return O, w, [])) ∧
  (status (scheduler (env w)) = Waiting →
   (uint_incr (uv_ref_count w) = 1 → this_thread w = default_thread w) →
   (root (env w) = true → root_async_data w = None) →
     wake_many (S n) w = (Return 1%nat, woken w, wake_events w) ∧
     length (dispatches (wake_events w)) = 1%nat ∧
     status (scheduler (env (woken w))) = Running).
Proof.
  split; [apply wake_many_running|].
  intros Hst Hthread Hdata. split; [|split].
  - cbn [wake_many]. unfold bind at 1.
    rewrite (WakeIsolate_while_waiting w Hst Hthread Hdata).
    unfold bind. rewrite wake_many_running by reflexivity.
    cbn. rewrite app_nil_r. reflexivity.
  - unfold wake_events. case_bool_decide; destruct (root (env w)); reflexivity.
  - reflexivity.
Qed.

End WakeProperties.

Section DispatchProperties.

Context {I : Type} `{Engine I} `{EngineSetup I}.
Variable Run : Runnable → World I → World I.
Variable stack_base : option N.
Variable invoke : FnPtr → Param → World I → World I.
Hypothesis Run_keeps_count : ∀ r w, uv_ref_count (Run r w) = uv_ref_count w.
Hypothesis invoke_keeps_count :
  ∀ fn p w, uv_ref_count (invoke fn p w) = uv_ref_count w.
Hypothesis Run_keeps_view :
  ∀ r w, default_thread_view (Run r w) = default_thread_view w.

Local Abbreviation count := (@uv_ref_count I).
Local Abbreviation view := (@default_thread_view I).

Ltac keeps_count :=
  repeat lazymatch goal with
  | |- keeps _ (ret _) => apply keeps_ret
  | |- keeps _ (get _) => apply keeps_get
  | |- keeps _ (emit _) => apply keeps_emit
  | |- keeps _ (stop _) => apply keeps_stop
  | |- keeps _ (cxx_assert _ _) => apply keeps_assert
  | |- keeps _ (bind _ _) => apply keeps_bind; [|intros ?]
  | |- keeps _ (modify _) => apply keeps_modify; intros ?; reflexivity
  | |- keeps _ (if ?b then _ else _) => destruct b
  | |- keeps _ (match ?x with _ => _ end) => destruct x
  | |- keeps _ _ => solve [auto with nocore]
  end.

Lemma call_Run_keeps_count r : keeps count (call_Run Run r).
Proof.
  unfold call_Run. apply keeps_bind; [apply keeps_emit|intros _].
  intros w. apply Run_keeps_count.
Qed.

Lemma run_queue_keeps_count q : keeps count (run_queue Run q).
Proof.
  pose proof call_Run_keeps_count.
  induction q; simpl; unfold destroy; keeps_count.
Qed.

Lemma run_tasks_keeps_count q : keeps count (run_tasks Run q).
Proof.
  pose proof call_Run_keeps_count. pose proof (destroy_queue_keeps count).
  induction q; simpl; unfold destroy, CheckMemoryPressure, modify_env, modify_v8;
    keeps_count.
Qed.

Lemma AsyncEntry_loop_keeps_count fuel : keeps count (AsyncEntry_loop Run fuel).
Proof.
  pose proof run_queue_keeps_count. pose proof run_tasks_keeps_count.
  induction fuel as [|fuel IH]; simpl; [apply keeps_stop|].
  unfold SchedulerLock_enter, SchedulerLock_leave, TakeTasks, TakeHandleTasks,
    TakeInterrupts, DoneRunning, modify_scheduler, modify_env.
  keeps_count.
Qed.

Lemma AsyncEntry_keeps_count fuel : keeps count (AsyncEntry Run stack_base fuel).
Proof.
  pose proof (AsyncEntry_loop_keeps_count fuel).
  unfold AsyncEntry, ExecutorLock_enter, ExecutorLock_leave, Scope_enter,
    Scope_leave, modify_v8.
  keeps_count.
Qed.

Lemma dispatches_app ev1 ev2 : dispatches (ev1 ++ ev2) = dispatches ev1 ++ dispatches ev2.
Proof. unfold dispatches. apply List.filter_app. Qed.

Lemma dispatches_ran q : dispatches (ran q) = [].
Proof. induction q as [|r q IH]; [reflexivity|exact IH]. Qed.

Lemma dispatches_destroyed (q : list Runnable) : dispatches (EvDestroy <$> q) = [].
Proof. induction q as [|r q IH]; [reflexivity|exact IH]. Qed.

Lemma pass_dispatches_nothing (w w' : World I) ev :
  pass Run w ev w' → dispatches ev = [].
Proof.
  induction 1; unfold iteration_prefix;
    rewrite ?dispatches_app, ?dispatches_ran, ?dispatches_destroyed; auto.
Qed.

(** *** The destructor inside the callback *)

Lemma call_weak_keeps_count fn p : keeps count (call_weak invoke fn p).
Proof.
  unfold call_weak. apply keeps_bind; [apply keeps_emit|intros _].
  intros w. apply invoke_keeps_count.
Qed.

Lemma kill_weak_persistents_keeps_count entries it :
  keeps count (kill_weak_persistents invoke entries it).
Proof.
  pose proof call_weak_keeps_count.
  revert it. induction entries as [|[h v] rest IH]; intros it; simpl; keeps_count.
Qed.

Lemma IsolateEnvironment_dtor_keeps_count : keeps count (IsolateEnvironment_dtor invoke).
Proof.
  pose proof kill_weak_persistents_keeps_count.
  pose proof (destroy_queue_keeps count).
  unfold IsolateEnvironment_dtor, SchedulerLock_enter, SchedulerLock_leave,
    ExecutorLock_enter, ExecutorLock_leave, Scope_enter, Scope_leave,
    TakeTasks, TakeHandleTasks, TakeInterrupts, TakeSyncInterrupts,
    modify_scheduler, modify_env, modify_v8.
  keeps_count.
Qed.

Lemma hands_off_bind {A B} (m : M I A) (k : A → M I B) :
  hands_off_nothing m → (∀ a, hands_off_nothing (k a)) →
  hands_off_nothing (bind m k).
Proof.
  intros Hm Hk w. unfold bind. specialize (Hm w).
  destruct (m w) as [[[a|s] w1] ev1]; cbn [snd] in Hm |- *; [|exact Hm].
  specialize (Hk a w1). destruct (k a w1) as [[o w2] ev2]. cbn [snd] in Hk |- *.
  rewrite dispatches_app, Hm, Hk. reflexivity.
Qed.

Ltac hands_off :=
  repeat lazymatch goal with
  | |- hands_off_nothing (ret _) => intros ?; reflexivity
  | |- hands_off_nothing (get _) => intros ?; reflexivity
  | |- hands_off_nothing (modify _) => intros ?; reflexivity
  | |- hands_off_nothing (emit _) => intros ?; reflexivity
  | |- hands_off_nothing (stop _) => intros ?; reflexivity
  | |- hands_off_nothing (cxx_assert _ ?b) => destruct b; intros ?; reflexivity
  | |- hands_off_nothing (bind _ _) => apply hands_off_bind; [|intros ?]
  | |- hands_off_nothing (if ?b then _ else _) => destruct b
  | |- hands_off_nothing (match ?x with _ => _ end) => destruct x
  | |- hands_off_nothing _ => solve [auto with nocore]
  end.

Lemma destroy_queue_hands_off q : hands_off_nothing (destroy_queue (I:=I) q).
Proof. induction q; simpl; unfold destroy; hands_off. Qed.

Lemma kill_weak_persistents_hands_off entries it :
  hands_off_nothing (kill_weak_persistents invoke entries it).
Proof.
  revert it. induction entries as [|[h v] rest IH]; intros it; simpl;
    unfold call_weak; hands_off.
Qed.

Lemma IsolateEnvironment_dtor_hands_off :
  hands_off_nothing (IsolateEnvironment_dtor invoke).
Proof.
  pose proof kill_weak_persistents_hands_off.
  pose proof destroy_queue_hands_off.
  unfold IsolateEnvironment_dtor, SchedulerLock_enter, SchedulerLock_leave,
    ExecutorLock_enter, ExecutorLock_leave, Scope_enter, Scope_leave,
    TakeTasks, TakeHandleTasks, TakeInterrupts, TakeSyncInterrupts,
    modify_scheduler, modify_env, modify_v8.
  hands_off.
Qed.

(** The callback with the reference released is the callback without,
    followed by the destructor when the reference was the last one. *)
Lemma AsyncCallbackCommon_unfold pool_thread last_reference fuel (w : World I) :
  AsyncCallbackCommon Run stack_base invoke pool_thread last_reference fuel w =
    match AsyncCallbackCommon Run stack_base invoke pool_thread false fuel w with
    | (Return _, wp, evp) =>
        if last_reference then
          match IsolateEnvironment_dtor invoke wp with
          | (o, wd, evd) => (o, wd, evp ++ evd)
          end
        else (Return tt, wp, evp)
    | (Stopped s, wp, evp) => (Stopped s, wp, evp)
    end.
Proof.
  unfold AsyncCallbackCommon.
  generalize (IsolateEnvironment_dtor invoke). intros dtor.
  unfold bind.
  destruct (AsyncEntry Run stack_base fuel w) as [[[[]|s] w1] ev1]; [|reflexivity].
  destruct ((if negb pool_thread then modify_v8 DiscardThreadSpecificMetadata
             else ret tt) w1) as [[[[]|s] w2] ev2]; [|reflexivity].
  destruct last_reference; cbn; rewrite !app_nil_r; [|reflexivity].
  destruct (dtor w2) as [[o wd] evd]. rewrite app_assoc. reflexivity.
Qed.

Lemma AsyncCallbackCommon_pass pool_thread fuel (w wp : World I) evp :
  AsyncCallbackCommon Run stack_base invoke pool_thread false fuel w =
    (Return tt, wp, evp) →
  dispatches evp = [] ∧
  (hit_memory_limit (env wp) = true ∨
   (nothing_queued wp ∧ status_of wp = Waiting)).
Proof.
  unfold AsyncCallbackCommon. unfold bind at 1.
  rewrite AsyncEntry_unfold.
  destruct (AsyncEntry_loop Run fuel (entered stack_base w))
    as [[[[]|s] wl] evl] eqn:Hloop; [|discriminate].
  apply AsyncEntry_loop_sound in Hloop.
  pose proof (pass_dispatches_nothing _ _ _ Hloop) as Hnone.
  pose proof (pass_end _ _ _ _ Hloop) as Hend.
  assert (∀ e l, dispatches (EvExecutorLock e :: l) = dispatches l) as Hlock
    by reflexivity.
  destruct pool_thread; cbn; intros [= <- <-];
    (split; [|exact Hend]);
    rewrite ?app_nil_r, Hlock, dispatches_app, Hnone; reflexivity.
Qed.

Lemma AsyncCallbackCommon_keeps_count pool_thread fuel :
  keeps count (AsyncCallbackCommon Run stack_base invoke pool_thread false fuel).
Proof.
  pose proof (AsyncEntry_keeps_count fuel).
  unfold AsyncCallbackCommon, modify_v8. keeps_count.
Qed.

Lemma AsyncCallbackCommon_returns pool_thread last_reference fuel (w w' : World I) ev :
  AsyncCallbackCommon Run stack_base invoke pool_thread last_reference fuel w =
    (Return tt, w', ev) →
  uv_ref_count w' = uv_ref_count w ∧
  dispatches ev = [] ∧
  ∃ wp evp,
    AsyncCallbackCommon Run stack_base invoke pool_thread false fuel w =
      (Return tt, wp, evp) ∧
    (hit_memory_limit (env wp) = true ∨
     (nothing_queued wp ∧ status_of wp = Waiting)) ∧
    (last_reference = false → w' = wp ∧ ev = evp) ∧
    (last_reference = true →
       ∃ evd, IsolateEnvironment_dtor invoke wp = (Return tt, w', evd) ∧
              ev = evp ++ evd).
Proof.
  rewrite AsyncCallbackCommon_unfold.
  destruct (AsyncCallbackCommon Run stack_base invoke pool_thread false fuel w)
    as [[[[]|s] wp] evp] eqn:Hpass; [|discriminate].
  destruct (AsyncCallbackCommon_pass _ _ _ _ _ Hpass) as (Hnone & Hend).
  pose proof (AsyncCallbackCommon_keeps_count pool_thread fuel w) as Hcount.
  rewrite Hpass in Hcount. cbn [fst snd] in Hcount.
  destruct last_reference.
  - pose proof (IsolateEnvironment_dtor_keeps_count wp) as Hdc.
    pose proof (IsolateEnvironment_dtor_hands_off wp) as Hdn.
    destruct (IsolateEnvironment_dtor invoke wp) as [[o wd] evd] eqn:Hdtor.
    cbn [fst snd] in Hdc, Hdn. intros [= -> <- <-].
    split; [congruence|]. split; [rewrite dispatches_app, Hnone, Hdn; reflexivity|].
    exists wp, evp. split; [reflexivity|]. split; [exact Hend|].
    split; [discriminate|]. intros _. exists evd. split; [exact Hdtor|reflexivity].
  - intros [= <- <-]. split; [exact Hcount|]. split; [exact Hnone|].
    exists wp, evp. split; [reflexivity|]. split; [exact Hend|].
    split; [intros _; split; reflexivity|discriminate].
Qed.

(** X5.  A wake and the pool callback it hands off to are balanced.  On a
    sandboxed environment [WakeIsolate] raises the outstanding-work count
    and calls the pool; when the callback returns, the count is what it was
    before the wake and, if that was zero, the default thread has been sent
    one [uv_async_send] to drop its handle, and otherwise none.  The pass
    has either stopped on [hit_memory_limit] or left the three queues empty
    and the status Waiting.  When the reference the callback took over is
    the last one, its release destroys the environment inside the callback,
    after the pass and before the count is lowered, and the balance holds
    all the same.  (The runnables and the cleanups are taken not to touch
    the count.) *)
Theorem wake_and_pool_callback_balance (pool_thread last_reference : bool)
    (t : ThreadId) (fuel : nat) (w w' : World I) ev :
  root (env w) = false →
  status (scheduler (env w)) = Waiting →
  uv_ref_count w < 2 ^ 32 →
  (uint_incr (uv_ref_count w) = 1 → this_thread w = default_thread w) →
  AsyncCallbackNonDefaultIsolate Run stack_base invoke pool_thread last_reference fuel
    (on_thread t (woken w)) = (Return tt, w', ev) →
  WakeIsolate w = (Return true, woken w, wake_events w) ∧
  dispatches (wake_events w) = [EvThreadPoolExec (this (env w))] ∧
  uv_ref_count w' = uv_ref_count w ∧
  dispatches ev =
    (if bool_decide (uv_ref_count w = 0) then [EvUvAsyncSend] else []) ∧
  ∃ wp evp,
    AsyncCallbackCommon Run stack_base invoke pool_thread false fuel
      (on_thread t (woken w)) = (Return tt, wp, evp) ∧
    (hit_memory_limit (env wp) = true ∨
     (nothing_queued wp ∧ status_of wp = Waiting)) ∧
    (last_reference = false →
       w' = with_uv_ref_count (uv_ref_count w) wp ∧
       ev = evp ++ if bool_decide (uv_ref_count w = 0) then [EvUvAsyncSend] else []) ∧
    (last_reference = true →
       ∃ wd evd,
         IsolateEnvironment_dtor invoke wp = (Return tt, wd, evd) ∧
         w' = with_uv_ref_count (uv_ref_count w) wd ∧
         ev = evp ++ evd ++
              if bool_decide (uv_ref_count w = 0) then [EvUvAsyncSend] else []).
Proof.
  intros Hroot Hst Hrange Hthread Hcb.
  split.
  { apply WakeIsolate_while_waiting; [assumption|assumption|].
    rewrite Hroot. discriminate. }
  split.
  { unfold wake_events. rewrite Hroot. case_bool_decide; reflexivity. }
  revert Hcb. unfold AsyncCallbackNonDefaultIsolate. unfold bind at 1.
  destruct (AsyncCallbackCommon Run stack_base invoke pool_thread last_reference fuel _)
    as [[[[]|s] wc] evc] eqn:Hcommon; [|discriminate].
  apply AsyncCallbackCommon_returns in Hcommon
    as (Hcount & Hnone & wp & evp & Hpass & Hend & Hshared & Hlast).
  unfold bind, modify, get. cbn -[uint_decr uint_incr] in Hcount |- *.
  rewrite Hcount, uint_decr_incr by exact Hrange.
  set (send := if bool_decide (uv_ref_count w = 0) then [EvUvAsyncSend] else []).
  intros Hcb.
  assert (w' = with_uv_ref_count (uv_ref_count w) wc ∧ ev = evc ++ send ∧
          dispatches send = send) as (-> & -> & Hsend).
  { unfold send. revert Hcb. case_bool_decide; intros [= <- <-];
      rewrite ?app_nil_r; repeat split. }
  split; [reflexivity|].
  split; [rewrite dispatches_app, Hnone, Hsend; reflexivity|].
  exists wp, evp. split; [exact Hpass|]. split; [exact Hend|]. split.
  - intros Hno. destruct (Hshared Hno) as [-> ->]. split; reflexivity.
  - intros Hyes. destruct (Hlast Hyes) as (evd & Hdtor & ->).
    exists wc, evd. split; [exact Hdtor|]. split; [reflexivity|].
    rewrite app_assoc. reflexivity.
Qed.

(** *** The callback of the default thread *)

Lemma call_Run_keeps_view r : keeps view (call_Run Run r).
Proof.
  unfold call_Run. apply keeps_bind; [apply keeps_emit|intros _].
  intros w. apply Run_keeps_view.
Qed.

Lemma run_queue_keeps_view q : keeps view (run_queue Run q).
Proof.
  pose proof call_Run_keeps_view.
  induction q; simpl; unfold destroy; keeps_count.
Qed.

Lemma run_tasks_keeps_view q : keeps view (run_tasks Run q).
Proof.
  pose proof call_Run_keeps_view. pose proof (destroy_queue_keeps view).
  induction q; simpl; unfold destroy, CheckMemoryPressure, modify_env, modify_v8;
    keeps_count.
Qed.

Lemma AsyncEntry_loop_keeps_view fuel : keeps view (AsyncEntry_loop Run fuel).
Proof.
  pose proof run_queue_keeps_view. pose proof run_tasks_keeps_view.
  induction fuel as [|fuel IH]; simpl; [apply keeps_stop|].
  unfold SchedulerLock_enter, SchedulerLock_leave, TakeTasks, TakeHandleTasks,
    TakeInterrupts, DoneRunning, modify_scheduler, modify_env.
  keeps_count.
Qed.

Lemma AsyncEntry_keeps_view fuel : keeps view (AsyncEntry Run stack_base fuel).
Proof.
  pose proof (AsyncEntry_loop_keeps_view fuel).
  unfold AsyncEntry, ExecutorLock_enter, ExecutorLock_leave, Scope_enter,
    Scope_leave, modify_v8.
  keeps_count.
Qed.

Lemma AsyncCallbackCommon_keeps_view pool_thread fuel :
  keeps view (AsyncCallbackCommon Run stack_base invoke pool_thread false fuel).
Proof.
  pose proof (AsyncEntry_keeps_view fuel).
  unfold AsyncCallbackCommon, modify_v8. keeps_count.
Qed.

(** The destructor of the root environment returns at once, so that the
    release of a reference to it changes nothing. *)
Lemma AsyncCallbackCommon_root pool_thread last_reference fuel (w : World I) :
  root (env w) = true →
  AsyncCallbackCommon Run stack_base invoke pool_thread last_reference fuel w =
    AsyncCallbackCommon Run stack_base invoke pool_thread false fuel w.
Proof.
  intros Hroot. rewrite AsyncCallbackCommon_unfold.
  pose proof (AsyncCallbackCommon_keeps_view pool_thread fuel w) as Hview.
  destruct (AsyncCallbackCommon Run stack_base invoke pool_thread false fuel w)
    as [[[[]|s] wp] evp]; [|reflexivity].
  destruct last_reference; [|reflexivity].
  cbn in Hview. injection Hview as _ _ Hr.
  unfold IsolateEnvironment_dtor, bind, get. rewrite Hr, Hroot. cbn.
  rewrite app_nil_r. reflexivity.
Qed.

(** X6.  The callback of the default thread.  Called with no environment
    pending, as when a pool thread only asks it to drop its handle, it runs
    no pass: the world is untouched and [uv_unref] is called when and only
    when the count is zero.  Called with the root environment pending, it
    takes and releases the scheduler lock and runs the pass from a world in
    which the slot is already empty; the release of the reference changes
    nothing, the destructor of the root environment being empty.  When it
    returns the slot is still empty, so that the next wake of the root
    environment finds it so, and the count is one less than it found, with
    [uv_unref] when and only when that is zero.  (The runnables are taken
    to touch neither the count, nor the slot, nor [root].) *)
Theorem default_thread_callback (last_reference : bool) (fuel : nat) (w : World I) :
  (root_async_data w = None →
     AsyncCallbackDefaultIsolate Run stack_base invoke last_reference fuel w =
       (Return tt, w,
        [EvSchedulerLock; EvSchedulerUnlock] ++
        if bool_decide (uv_ref_count w = 0) then [EvUvUnref] else [])) ∧
  (∀ w' ev,
     root (env w) = true →
     root_async_data w = Some (this (env w)) →
     AsyncCallbackDefaultIsolate Run stack_base invoke last_reference fuel w =
       (Return tt, w', ev) →
     (∃ wp evp,
        AsyncCallbackCommon Run stack_base invoke true false fuel
          (with_root_async_data None w) = (Return tt, wp, evp) ∧
        w' = with_uv_ref_count (uint_decr (uv_ref_count w)) wp ∧
        ev = [EvSchedulerLock; EvSchedulerUnlock] ++ evp ++
             if bool_decide (uint_decr (uv_ref_count w) = 0)
             then [EvUvUnref] else []) ∧
     root_async_data w' = None ∧
     uv_ref_count w' = uint_decr (uv_ref_count w) ∧
     dispatches ev = [] ∧
     (hit_memory_limit (env w') = true ∨
      (nothing_queued w' ∧ status_of w' = Waiting))).
Proof.
  split.
  - intros Hdata.
    unfold AsyncCallbackDefaultIsolate, SchedulerLock_enter, SchedulerLock_leave,
      bind, get, modify, emit.
    rewrite Hdata. cbn.
    assert (with_root_async_data None w = w) as ->
      by (destruct w; cbn in Hdata; subst; reflexivity).
    case_bool_decide; reflexivity.
  - intros w' ev Hroot Hdata.
    unfold AsyncCallbackDefaultIsolate, SchedulerLock_enter, SchedulerLock_leave.
    unfold bind at 1, emit at 1. unfold bind at 1, get at 1. rewrite Hdata.
    unfold bind at 1, modify at 1. unfold bind at 1, emit at 1.
    unfold bind at 1.
    rewrite AsyncCallbackCommon_root by exact Hroot.
    pose proof (AsyncCallbackCommon_keeps_view true fuel (with_root_async_data None w))
      as Hview.
    destruct (AsyncCallbackCommon Run stack_base invoke true false fuel _)
      as [[[[]|s] wp] evp] eqn:Hpass; [|discriminate].
    destruct (AsyncCallbackCommon_pass _ _ _ _ _ Hpass) as (Hnone & Hend).
    cbn in Hview. injection Hview as Hcount Hslot _.
    unfold bind, modify, get. cbn -[uint_decr].
    rewrite Hcount.
    set (unref := if bool_decide (uint_decr (uv_ref_count w) = 0)
                  then [EvUvUnref] else []).
    intros Hcb.
    assert (w' = with_uv_ref_count (uint_decr (uv_ref_count w)) wp ∧
            ev = [EvSchedulerLock; EvSchedulerUnlock] ++ evp ++ unref ∧
            dispatches unref = []) as (-> & -> & Hunref).
    { unfold unref. revert Hcb. case_bool_decide; intros [= <- <-];
        rewrite ?app_nil_r; repeat split. }
    split; [exists wp, evp; repeat split; exact Hpass|].
    split; [exact Hslot|]. split; [reflexivity|].
    split; [|exact Hend].
    change (dispatches (evp ++ unref) = []).
    rewrite dispatches_app, Hnone, Hunref. reflexivity.
Qed.

End DispatchProperties.


(** ** Memory pressure and the heap limit *)

Section PressureProperties.

Context {I : Type} `{Engine I}.
Variable V8_AT_LEAST_6_9_406 : bool.
Variable as_interrupt_default : bool.

Local Abbreviation GC_epilogue :=
  (MarkSweepCompactEpilogue V8_AT_LEAST_6_9_406 as_interrupt_default).

Lemma CheckMemoryPressure_parked (p : MemoryPressureLevel) (w : World I) :
  p ≠ kNone →
  CheckMemoryPressure (parked p w) = (Return tt, delivered p w, []).
Proof.
  intros Hp. unfold CheckMemoryPressure, parked, delivered, bind, get.
  destruct w as [e v o n r m hi c t d]; destruct e. cbn.
  rewrite (bool_decide_eq_true_2 _ Hp). reflexivity.
Qed.

Lemma CheckMemoryPressure_none (w : World I) :
  memory_pressure (env w) = kNone →
  CheckMemoryPressure w = (Return tt, w, []).
Proof.
  intros Hp. unfold CheckMemoryPressure, bind, get. rewrite Hp. reflexivity.
Qed.

(** X7.  [NearHeapLimitCallback] grants the engine one more GiB, in
    [size_t], sets [did_adjust_heap_limit] and leaves the engine alone: it
    only parks a memory-pressure level, critical when the total is over
    the budget and moderate otherwise, and requests one interrupt.  It
    never re-enters the GC epilogue, whatever the fuel.  The interrupt, when
    it is served, hands that level to the engine and clears it, and a
    second one finds nothing to hand over. *)
Theorem NearHeapLimitCallback_spec (fuel : nat) (current_heap_limit : N) (w : World I) :
  let w0 := with_env (with_did_adjust_heap_limit true (env w)) w in
  let p := if budget w <? total_memory w then kCritical else kModerate in
  NearHeapLimitCallback V8_AT_LEAST_6_9_406 as_interrupt_default fuel
      current_heap_limit w =
    (Return ((current_heap_limit + 2 ^ 30) mod 2 ^ 64), parked p w0,
     [EvRequestInterrupt MemoryPressureInterrupt]) ∧
  v8 (parked p w0) = v8 w ∧
  IsolateEnvironment_MemoryPressureInterrupt (parked p w0) =
    (Return tt, delivered p w0, []) ∧
  IsolateEnvironment_MemoryPressureInterrupt (delivered p w0) =
    (Return tt, delivered p w0, []).
Proof.
  intros w0 p. split; [|split; [reflexivity|split]].
  - unfold NearHeapLimitCallback, RequestMemoryPressureNotification,
      RequestMemoryPressureNotification_with, modify_env, modify, bind, get, emit, ret.
    subst w0 p. unfold budget, total_memory, parked.
    destruct w as [e v o n r m hi c t d]; destruct e. cbn -[N.ltb size_t_add].
    rewrite orb_true_r.
    match goal with |- context [if ?b then _ else _] => destruct b end;
      reflexivity.
  - unfold IsolateEnvironment_MemoryPressureInterrupt.
    apply CheckMemoryPressure_parked. subst p. destruct (_ <? _); discriminate.
  - unfold IsolateEnvironment_MemoryPressureInterrupt.
    apply CheckMemoryPressure_none.
    unfold delivered. destruct w0 as [e v o n r m hi c t d]; destruct e. reflexivity.
Qed.

Lemma bind_get {A B} (f : World I → A) (k : A → M I B) (w : World I) :
  bind (get f) k w = k (f w) w.
Proof. unfold bind, get. destruct (k (f w) w) as [[? ?] ?]. reflexivity. Qed.

Lemma MarkSweepCompactEpilogue_unfold (n : nat) (gc_flags : Z) (w : World I) :
  GC_epilogue (S n) gc_flags w =
    if budget w <? total_memory w then
      if flag_set gc_flags
           (Z.lor kGCCallbackFlagCollectAllAvailableGarbage kGCCallbackFlagForced)
      then bind Terminate (λ _, modify_env (with_hit_memory_limit true)) w
      else RequestMemoryPressureNotification_with V8_AT_LEAST_6_9_406
             (GC_epilogue n) kCritical true as_interrupt_default w
    else GC_epilogue (S n) gc_flags w.
Proof.
  destruct (budget w <? total_memory w) eqn:Hover; [|reflexivity].
  cbn [MarkSweepCompactEpilogue].
  rewrite !bind_get. fold (total_memory w). fold (budget w). rewrite Hover.
  destruct (flag_set gc_flags _); reflexivity.
Qed.

Lemma MarkSweepCompactEpilogue_over_forced (n : nat) (gc_flags : Z) (w : World I) :
  root (env w) = false →
  (budget w <? total_memory w) = true →
  flag_set gc_flags
    (Z.lor kGCCallbackFlagCollectAllAvailableGarbage kGCCallbackFlagForced) = true →
  GC_epilogue (S n) gc_flags w =
    (Return tt, terminated_for_memory w, Terminate_events w).
Proof.
  intros Hroot Hover Hflag.
  rewrite MarkSweepCompactEpilogue_unfold, Hover, Hflag.
  rewrite (bind_Return _ _ _ _ _ _ (Terminate_nonroot w Hroot)).
  unfold modify_env, modify, terminated_for_memory. rewrite app_nil_r. reflexivity.
Qed.

Lemma MarkSweepCompactEpilogue_within_returns (n : nat) (gc_flags : Z) (w : World I) :
  (budget w <? total_memory w) = false →
  (GC_epilogue (S n) gc_flags w).1.1 = Return tt.
Proof.
  intros Hwithin.
  cbn [MarkSweepCompactEpilogue].
  unfold bind at 1. unfold get at 1.
  unfold bind at 1. unfold get at 1.
  unfold bind at 1. unfold get at 1.
  fold (total_memory w). fold (budget w). rewrite Hwithin.
  destruct (flag_set gc_flags kGCCallbackFlagCollectAllAvailableGarbage);
    [reflexivity|].
  cbn [negb].
  generalize (budget w <? size_t_add (total_memory w) (total_memory w / 4)).
  intros b80.
  unfold RequestMemoryPressureNotification_with,
    ratchet_heap_limit, modify_v8, modify_env, bind, get, modify, ret, emit.
  destruct (did_adjust_heap_limit (env w)); cbn.
  - case_bool_decide; destruct b80, V8_AT_LEAST_6_9_406, as_interrupt_default;
      reflexivity.
  - destruct b80, V8_AT_LEAST_6_9_406, as_interrupt_default; reflexivity.
Qed.

Lemma MarkSweepCompactEpilogue_over_parked (n : nat) (gc_flags : Z) (w : World I) :
  (budget w <? total_memory w) = true →
  flag_set gc_flags
    (Z.lor kGCCallbackFlagCollectAllAvailableGarbage kGCCallbackFlagForced) = false →
  negb V8_AT_LEAST_6_9_406 || as_interrupt_default = true →
  GC_epilogue (S n) gc_flags w =
    (Return tt, parked kCritical w, [EvRequestInterrupt MemoryPressureInterrupt]).
Proof.
  intros Hover Hflag Hint.
  rewrite MarkSweepCompactEpilogue_unfold, Hover, Hflag.
  unfold RequestMemoryPressureNotification_with. rewrite andb_true_r, Hint.
  reflexivity.
Qed.

Lemma MarkSweepCompactEpilogue_over_reenters (n : nat) (gc_flags : Z) (w : World I) :
  (budget w <? total_memory w) = true →
  flag_set gc_flags
    (Z.lor kGCCallbackFlagCollectAllAvailableGarbage kGCCallbackFlagForced) = false →
  negb V8_AT_LEAST_6_9_406 || as_interrupt_default = false →
  GC_epilogue (S (S n)) gc_flags w =
    GC_epilogue 1 kGCCallbackFlagForced (delivered kCritical w).
Proof.
  intros Hover Hflag Hint.
  rewrite MarkSweepCompactEpilogue_unfold, Hover, Hflag.
  unfold RequestMemoryPressureNotification_with. rewrite andb_true_r, Hint.
  unfold bind, modify_env, modify_v8, modify. cbn [andb].
  rewrite (bool_decide_eq_true_2 (kCritical = kCritical)) by reflexivity.
  fold (delivered kCritical w). rewrite MarkSweepCompactEpilogue_forced.
  destruct (GC_epilogue 1 kGCCallbackFlagForced _) as [[? ?] ?]. reflexivity.
Qed.

(** X8.  The epilogue of a mark-sweep-compact collection that finds the
    total over the budget, on a sandboxed environment.  On a forced or
    collect-all pass it terminates the environment and then sets
    [hit_memory_limit].  On any other pass it asks for critical pressure:
    with the interrupt path that level is parked and one interrupt
    requested, nothing else changes; on the direct path the engine is
    notified at once and the epilogue runs a second time as a forced pass
    on the world that leaves, so that an environment still over the budget
    is terminated. *)
Theorem MarkSweepCompactEpilogue_over_budget (n : nat) (gc_flags : Z) (w : World I) :
  root (env w) = false →
  (budget w <? total_memory w) = true →
  let forced :=
    flag_set gc_flags
      (Z.lor kGCCallbackFlagCollectAllAvailableGarbage kGCCallbackFlagForced) in
  let by_interrupt := negb V8_AT_LEAST_6_9_406 || as_interrupt_default in
  let w1 := delivered kCritical w in
  (forced = true →
     GC_epilogue (S n) gc_flags w =
       (Return tt, terminated_for_memory w, Terminate_events w)) ∧
  (forced = false → by_interrupt = true →
     GC_epilogue (S n) gc_flags w =
       (Return tt, parked kCritical w, [EvRequestInterrupt MemoryPressureInterrupt])) ∧
  (forced = false → by_interrupt = false →
     GC_epilogue (S (S n)) gc_flags w = GC_epilogue 1 kGCCallbackFlagForced w1 ∧
     ((budget w1 <? total_memory w1) = true →
        GC_epilogue (S (S n)) gc_flags w =
          (Return tt, terminated_for_memory w1, Terminate_events w1))).
Proof.
  intros Hroot Hover forced by_interrupt w1.
  split; [|split].
  - intros Hflag. apply MarkSweepCompactEpilogue_over_forced; assumption.
  - intros Hflag Hint. apply MarkSweepCompactEpilogue_over_parked; assumption.
  - intros Hflag Hint.
    pose proof (MarkSweepCompactEpilogue_over_reenters n gc_flags w Hover Hflag Hint)
      as Hre.
    split; [exact Hre|].
    intros Hstill. rewrite Hre.
    apply MarkSweepCompactEpilogue_over_forced; [exact Hroot|exact Hstill|reflexivity].
Qed.

(** X9.  The epilogue and [RequestMemoryPressureNotification] call each
    other, but the epilogue is entered a second time at most once: on a
    sandboxed environment it returns with two units of fuel, and more fuel
    changes nothing. *)
Theorem MarkSweepCompactEpilogue_reenters_once (n : nat) (gc_flags : Z) (w : World I) :
  root (env w) = false →
  (GC_epilogue (S (S n)) gc_flags w).1.1 = Return tt ∧
  GC_epilogue (S (S n)) gc_flags w = GC_epilogue 2 gc_flags w.
Proof.
  intros Hroot. split; [|apply MarkSweepCompactEpilogue_fuel].
  destruct (budget w <? total_memory w) eqn:Hover;
    [|apply MarkSweepCompactEpilogue_within_returns, Hover].
  destruct (flag_set gc_flags
    (Z.lor kGCCallbackFlagCollectAllAvailableGarbage kGCCallbackFlagForced)) eqn:Hflag.
  - rewrite MarkSweepCompactEpilogue_over_forced by assumption. reflexivity.
  - destruct (negb V8_AT_LEAST_6_9_406 || as_interrupt_default) eqn:Hint.
    + rewrite MarkSweepCompactEpilogue_over_parked by assumption. reflexivity.
    + rewrite MarkSweepCompactEpilogue_over_reenters by assumption.
      destruct (budget (delivered kCritical w) <? total_memory (delivered kCritical w))
        eqn:Hover1.
      * rewrite MarkSweepCompactEpilogue_over_forced;
          [reflexivity|exact Hroot|exact Hover1|reflexivity].
      * apply MarkSweepCompactEpilogue_within_returns, Hover1.
Qed.

End PressureProperties.

(** ** Interrupts *)

Section InterruptProperties.

Context {I : Type} `{Engine I}.
Variable Run : Runnable → World I → World I.

Lemma TakeInterrupts_takes :
  takes (I:=I) TakeInterrupts (λ w, interrupts (scheduler (env w))) without_interrupts.
Proof.
  repeat split.
  intros w Hq. unfold without_interrupts.
  destruct w as [[? ? ? ? [] ? ? ? ? ? ? ? ? ? ?] ? ? ? ? ? ? ? ? ?].
  cbn in Hq |- *. subst. reflexivity.
Qed.

Lemma TakeSyncInterrupts_takes :
  takes (I:=I) TakeSyncInterrupts (λ w, sync_interrupts (scheduler (env w)))
    without_sync_interrupts.
Proof.
  repeat split.
  intros w Hq. unfold without_sync_interrupts.
  destruct w as [[? ? ? ? [] ? ? ? ? ? ? ? ? ? ?] ? ? ? ? ? ? ? ? ?].
  cbn in Hq |- *. subst. reflexivity.
Qed.

Lemma InterruptEntry_S Take sel clr (n : nat) (w : World I) :
  takes Take sel clr →
  InterruptEntry Run Take (S n) w =
    match sel w with
    | [] => (Return tt, w, [EvSchedulerLock; EvSchedulerUnlock])
    | r :: q =>
        match InterruptEntry Run Take n (runs Run (r :: q) (clr w)) with
        | (o, w', ev) =>
            (o, w', [EvSchedulerLock; EvSchedulerUnlock] ++ ran (r :: q) ++ ev)
        end
    end.
Proof.
  intros (HTake & Hclr & Hsame).
  cbn [InterruptEntry]. unfold SchedulerLock_enter, SchedulerLock_leave.
  unfold bind at 1. unfold emit at 1.
  unfold bind at 1. rewrite HTake.
  unfold bind at 1. unfold emit at 1.
  destruct (sel w) as [|r q] eqn:Hq.
  - rewrite (Hsame w Hq). reflexivity.
  - unfold bind at 1. unfold call_Run at 1. unfold bind at 1, emit at 1, modify at 1.
    unfold bind at 1. unfold destroy at 1, emit at 1.
    unfold bind at 1. rewrite run_queue_spec.
    change (runs Run q (Run r (clr w))) with (runs Run (r :: q) (clr w)).
    destruct (InterruptEntry Run Take n (runs Run (r :: q) (clr w))) as [[o w'] ev].
    cbn. reflexivity.
Qed.

Lemma InterruptEntry_drains Take sel clr (fuel : nat) (w w' : World I) ev :
  takes Take sel clr →
  InterruptEntry Run Take fuel w = (Return tt, w', ev) →
  sel w' = [].
Proof.
  intros HT. revert w ev. induction fuel as [|n IH]; intros w ev Hrun.
  - discriminate.
  - rewrite (InterruptEntry_S _ _ _ _ _ HT) in Hrun.
    destruct (sel w) as [|r q] eqn:Hq.
    + injection Hrun as <- _. exact Hq.
    + destruct (InterruptEntry Run Take n (runs Run (r :: q) (clr w)))
        as [[o w1] ev1] eqn:Hrec.
      injection Hrun as -> -> _. eapply IH, Hrec.
Qed.

(** X10.  The interrupt callbacks.  Either of them, when it returns,
    leaves its own queue empty.  On an empty queue it takes and releases
    the scheduler lock and changes nothing.  Otherwise it runs the batch it
    took, front to back, outside the lock, and starts over on what the
    batch pushed meanwhile. *)
Theorem interrupt_callback_drains (sync : bool) (fuel : nat) (w w' : World I) ev :
  interrupt_callback Run sync fuel w = (Return tt, w', ev) →
  interrupt_queue sync w' = [] ∧
  match interrupt_queue sync w with
  | [] => w' = w ∧ ev = [EvSchedulerLock; EvSchedulerUnlock]
  | r :: q =>
      ∃ n ev',
        fuel = S n ∧
        interrupt_callback Run sync n (runs Run (r :: q) (without_queue sync w)) =
          (Return tt, w', ev') ∧
        ev = [EvSchedulerLock; EvSchedulerUnlock] ++ ran (r :: q) ++ ev'
  end.
Proof.
  assert (∀ Take sel clr, takes Take sel clr →
            InterruptEntry Run Take fuel w = (Return tt, w', ev) →
            sel w' = [] ∧
            match sel w with
            | [] => w' = w ∧ ev = [EvSchedulerLock; EvSchedulerUnlock]
            | r :: q =>
                ∃ n ev',
                  fuel = S n ∧
                  InterruptEntry Run Take n (runs Run (r :: q) (clr w)) =
                    (Return tt, w', ev') ∧
                  ev = [EvSchedulerLock; EvSchedulerUnlock] ++ ran (r :: q) ++ ev'
            end) as Hgen.
  { intros Take sel clr HT Hrun.
    split; [exact (InterruptEntry_drains _ _ _ _ _ _ _ HT Hrun)|].
    destruct fuel as [|n]; [discriminate|].
    rewrite (InterruptEntry_S _ _ _ _ _ HT) in Hrun.
    destruct (sel w) as [|r q].
    - injection Hrun as <- <-. split; reflexivity.
    - destruct (InterruptEntry Run Take n (runs Run (r :: q) (clr w)))
        as [[o w1] ev1] eqn:Hrec.
      injection Hrun as -> -> <-. exists n, ev1.
      split; [reflexivity|]. split; [exact Hrec|reflexivity]. }
  destruct sync.
  - exact (Hgen _ _ _ TakeSyncInterrupts_takes).
  - exact (Hgen _ _ _ TakeInterrupts_takes).
Qed.

End InterruptProperties.

(** ** Terminate, destruction and the registry *)

Section RegistryProperties.

Context {I : Type} `{Engine I}.
Variable invoke : FnPtr → Param → World I → World I.

(** X11.  Terminating a sandboxed environment twice: the second call
    returns as the first did, tells the inspector agent and the engine
    again, and leaves the environment and the holder's reference as the
    first call left them. *)
Theorem Terminate_twice (w : World I) :
  root (env w) = false →
  bind Terminate (λ _, Terminate) w =
    (Return tt,
     with_v8 (TerminateExecution (v8 (Terminate_world w))) (Terminate_world w),
     Terminate_events w ++ Terminate_events w).
Proof.
  intros Hroot.
  rewrite (bind_Return _ _ _ _ _ _ (Terminate_nonroot w Hroot)).
  rewrite Terminate_nonroot by exact Hroot.
  unfold Terminate_world, Terminate_events.
  destruct w as [e v o n r m hi c t d]; destruct e. cbn.
  rewrite delete_delete_eq. reflexivity.
Qed.

(** X12.  Once the destructor of a sandboxed environment has returned,
    [LookupIsolate] on its engine instance gives a null holder; every other
    registration is as the cleanups left it. *)
Theorem destroyed_environment_not_found (w wk : World I) evk :
  root (env w) = false →
  kill_weak_persistents invoke (map_to_list (weak_persistents (env w)))
    (fst <$> head (map_to_list (weak_persistents (env w)))) (detached w) =
    (Return tt, wk, evk) →
  weak_persistents (env wk) = ∅ →
  is_Some (isolate_map wk !! isolate (env wk)) →
  bind (IsolateEnvironment_dtor invoke) (λ _, LookupIsolate (isolate (env wk))) w =
    (Return None, destroyed w wk, dtor_prologue w ++ evk ++ dtor_epilogue wk) ∧
  ∀ i, i ≠ isolate (env wk) →
    isolate_map (destroyed w wk) !! i = isolate_map wk !! i.
Proof.
  intros Hroot Hkill Hempty Hreg.
  destruct (IsolateEnvironment_dtor_after_loop invoke w wk evk Hroot Hkill) as [_ Hok].
  split.
  - rewrite (bind_Return _ _ _ _ _ _ (Hok Hempty Hreg)).
    unfold LookupIsolate, bind, get, destroyed. cbn.
    rewrite lookup_delete_eq. cbn. rewrite !app_nil_r. reflexivity.
  - intros i Hi. unfold destroyed. cbn. apply lookup_delete_ne. congruence.
Qed.

End RegistryProperties.


(** ** Construction *)

Section ConstructionProperties.

Context {I : Type} `{Engine I} `{EngineSetup I}.

Lemma size_t_sub_add (a b : N) :
  a < 2 ^ 64 → b < 2 ^ 64 → size_t_add b (size_t_sub a b) = a.
Proof.
  intros Ha Hb. unfold size_t_add, size_t_sub.
  rewrite (N.mod_small b) by exact Hb.
  rewrite N.Div0.add_mod_idemp_r.
  replace (b + (a + 2 ^ 64 - b)) with (a + 1 * 2 ^ 64) by lia.
  rewrite N.Div0.mod_add. apply N.mod_small, Ha.
Qed.

(** X13.  The constructor of the root environment.  On a thread with no
    current environment it marks the environment as root, makes it the
    current one and the running thread the default thread, clears the slot
    of the async handle and drops the handle's reference, and registers
    the engine instance unless it is registered already; so a lookup of a
    newly registered instance finds this environment's holder, a first
    wake meets both assertions on its path, and a second construction on
    that thread fails its assertion.  On a thread that has a current
    environment it fails the assertion before touching the registry or
    the default thread. *)
Theorem IsolateCtor_root_spec (iso : IsolatePtr) (w : World I) :
  (current_env w = None →
     ∃ w',
       IsolateCtor_root iso w = (Return tt, w', [EvUvUnref]) ∧
       root (env w') = true ∧
       isolate (env w') = iso ∧
       current_env w' = Some (this (env w)) ∧
       default_thread w' = this_thread w' ∧
       root_async_data w' = None ∧
       isolate_map w' = map_insert_new iso (this (env w)) (isolate_map w) ∧
       (isolate_map w !! iso = None →
          LookupIsolate iso w' = (Return (Some (holder (env w))), w', [])) ∧
       (status (scheduler (env w)) = Waiting →
          WakeIsolate w' = (Return true, woken w', wake_events w')) ∧
       ∀ iso2, (IsolateCtor_root iso2 w').1.1 =
                 Stopped (assertion_failed "current_env == nullptr")) ∧
  (current_env w ≠ None →
     (IsolateCtor_root iso w).1.1 =
       Stopped (assertion_failed "current_env == nullptr") ∧
     isolate_map (IsolateCtor_root iso w).1.2 = isolate_map w ∧
     default_thread (IsolateCtor_root iso w).1.2 = default_thread w).
Proof.
  split.
  - intros Hcur. eexists. split.
    { unfold IsolateCtor_root, Executor_Init, Scheduler_Init, register_isolate,
        modify_env, modify, bind, get, emit. cbn. rewrite Hcur. cbn. reflexivity. }
    repeat split.
    + intros Hfresh. unfold LookupIsolate, bind, get, map_insert_new. cbn.
      rewrite Hfresh, lookup_insert_eq. cbn. unfold deref. cbn.
      rewrite bool_decide_eq_true_2 by reflexivity. reflexivity.
    + intros Hst. apply WakeIsolate_while_waiting.
      * exact Hst.
      * intros _. reflexivity.
      * intros _. reflexivity.
  - intros Hcur.
    unfold IsolateCtor_root, Executor_Init, modify_env, modify, bind, get. cbn.
    rewrite bool_decide_eq_false_2 by exact Hcur. cbn. repeat split.
Qed.

(** X14.  The constructor of a sandboxed environment.  It returns with
    [memory_limit] the megabytes asked for times 2^20 in [size_t], the
    initial heap size limit the one the engine reports once the callbacks
    are installed, and [misc_memory_size] such that [memory_limit +
    misc_memory_size] is that reported limit, also when the subtraction
    wraps around.  The instance is registered unless it is registered
    already; scheduler, reference count and current environment are
    untouched. *)
Theorem IsolateCtor_sandbox_spec (memory_limit_in_mb : N) (iso : IsolatePtr)
    (created : I) (w : World I) :
  let configured :=
    AddNearHeapLimitCallback
      (AddGCEpilogueCallback (SetPromiseRejectCallback (SetOOMErrorHandler created))) in
  let reported := heap_size_limit (GetHeapStatistics configured) in
  reported < 2 ^ 64 →
  ∃ w',
    IsolateCtor_sandbox memory_limit_in_mb iso created w = (Return tt, w', []) ∧
    root (env w') = false ∧
    isolate (env w') = iso ∧
    memory_limit (env w') = (memory_limit_in_mb * 2 ^ 20) mod 2 ^ 64 ∧
    initial_heap_size_limit (env w') = reported ∧
    budget w' = reported ∧
    v8 w' = DiscardThreadSpecificMetadata (NewContext configured) ∧
    isolate_map w' = map_insert_new iso (this (env w)) (isolate_map w) ∧
    scheduler (env w') = scheduler (env w) ∧
    uv_ref_count w' = uv_ref_count w ∧
    current_env w' = current_env w.
Proof.
  intros configured reported Hrange. eexists. split; [reflexivity|].
  cbn. fold configured. fold reported.
  assert (size_t_mul (size_t_mul memory_limit_in_mb 1024) 1024 =
          (memory_limit_in_mb * 2 ^ 20) mod 2 ^ 64) as Hlimit.
  { unfold size_t_mul. rewrite N.Div0.mul_mod_idemp_l.
    f_equal. lia. }
  repeat split.
  - exact Hlimit.
  - unfold budget. cbn. fold configured. fold reported.
    apply size_t_sub_add; [exact Hrange|].
    rewrite Hlimit. apply N.mod_upper_bound. discriminate.
Qed.

(** X15.  Attaching an inspector agent to a sandboxed environment
    destroys the agent that was attached, if any; [GetInspectorAgent] then
    gives the new one, a [Terminate] that follows tells the new one, under
    the scheduler lock, and keeps it attached. *)
Theorem inspector_agent_lifecycle (agent : AgentPtr) (w : World I) :
  root (env w) = false →
  let attached := with_env (with_inspector_agent (Some agent) (env w)) w in
  let replaced :=
    match inspector_agent (env w) with
    | Some old => [EvAgentDestroy old]
    | None => []
    end in
  bind (EnableInspectorAgent agent) (λ _, GetInspectorAgent) w =
    (Return (Some agent), attached, replaced) ∧
  bind (EnableInspectorAgent agent) (λ _, Terminate) w =
    (Return tt, Terminate_world attached,
     replaced ++ [EvSchedulerLock; EvAgentTerminate agent; EvSchedulerUnlock]) ∧
  inspector_agent (env (Terminate_world attached)) = Some agent.
Proof.
  intros Hroot attached replaced.
  assert (EnableInspectorAgent agent w = (Return tt, attached, replaced)) as Hen.
  { unfold EnableInspectorAgent, modify_env, modify, bind, get, attached, replaced.
    destruct (inspector_agent (env w)); reflexivity. }
  split; [|split].
  - rewrite (bind_Return _ _ _ _ _ _ Hen). unfold GetInspectorAgent, get.
    rewrite app_nil_r. reflexivity.
  - rewrite (bind_Return _ _ _ _ _ _ Hen).
    rewrite Terminate_nonroot by exact Hroot. reflexivity.
  - reflexivity.
Qed.

(** X16.  A [HeapCheck] around a body that returns: the body runs on the
    world as it is and the epilogue compares with the
    [extra_allocated_memory] taken before.  On the root environment, and on
    an unforced check around a body that leaves [extra_allocated_memory] as
    it was, the epilogue neither asks the engine nor changes anything,
    whatever the heap holds. *)
Theorem HeapCheck_bracket (force : bool) (body : M I unit) (w w1 : World I) ev1 :
  body w = (Return tt, w1, ev1) →
  let bracket := bind (HeapCheck_ctor force) (λ hc, bind body (λ _, Epilogue hc)) in
  bracket w =
    match Epilogue (mkHeapCheck (extra_allocated_memory (env w)) force) w1 with
    | (o, w2, ev2) => (o, w2, ev1 ++ ev2)
    end ∧
  (root (env w1) = true → bracket w = (Return tt, w1, ev1)) ∧
  (force = false →
   extra_allocated_memory (env w1) = extra_allocated_memory (env w) →
   bracket w = (Return tt, w1, ev1)).
Proof.
  intros Hbody bracket.
  assert (bracket w =
    match Epilogue (mkHeapCheck (extra_allocated_memory (env w)) force) w1 with
    | (o, w2, ev2) => (o, w2, ev1 ++ ev2)
    end) as Heq.
  { unfold bracket.
    rewrite (bind_Return _ _ w (mkHeapCheck (extra_allocated_memory (env w)) force)
               w []) by reflexivity.
    rewrite (bind_Return _ _ _ _ _ _ Hbody).
    destruct (Epilogue _ w1) as [[? ?] ?]. reflexivity. }
  split; [exact Heq|]. split.
  - intros Hroot. rewrite Heq. unfold Epilogue. rewrite !bind_get, Hroot. cbn.
    rewrite app_nil_r. reflexivity.
  - intros -> Hsame. rewrite Heq. unfold Epilogue. rewrite !bind_get. cbn.
    rewrite bool_decide_eq_false_2 by (intros Hne; apply Hne, Hsame).
    rewrite andb_false_r. cbn. rewrite app_nil_r. reflexivity.
Qed.

End ConstructionProperties.

(** ** Timers *)

Section TimerProperties.

Import Timers.

Local Notation "'do' x <- m ; k" := (Timers.bind m (λ x, k))
  (at level 10, x name, m at level 100, k at level 200).
Local Notation "m >> k" := (Timers.bind m (λ _, k))
  (at level 65, right associativity).

Lemma Timers_bind_Return {A B} (m : T A) (k : A → T B) s a s1 ev1 :
  m s = (Return a, s1, ev1) →
  Timers.bind m k s = match k a s1 with (o, s2, ev2) => (o, s2, ev1 ++ ev2) end.
Proof. intros Hm. unfold Timers.bind. rewrite Hm. reflexivity. Qed.

Lemma Timers_bind_get {A B} (f : State → A) (k : A → T B) s :
  Timers.bind (Timers.get f) k s = k (f s) s.
Proof.
  unfold Timers.bind, Timers.get. destruct (k (f s) s) as [[? ?] ?]. reflexivity.
Qed.

Lemma Timers_bind_modify {B} (f : State → State) (k : unit → T B) s :
  Timers.bind (Timers.modify f) k s = k tt (f s).
Proof.
  unfold Timers.bind, Timers.modify. destruct (k tt (f s)) as [[? ?] ?]. reflexivity.
Qed.

Lemma the_executor_live e x s :
  executors s !! e = Some x → the_executor e s = (Return x, s, []).
Proof. intros He. unfold the_executor. rewrite Timers_bind_get, He. reflexivity. Qed.

Lemma update_executor_live e f x s :
  executors s !! e = Some x →
  update_executor e f s = (Return tt, with_executors (<[e := f x]> (executors s)) s, []).
Proof.
  intros He. unfold update_executor.
  rewrite (Timers_bind_Return _ _ _ _ _ _ (the_executor_live _ _ _ He)).
  reflexivity.
Qed.

Lemma the_cpu_timer_live a t s :
  cpu_timers s !! a = Some t → the_cpu_timer (Some a) s = (Return t, s, []).
Proof. intros Ha. unfold the_cpu_timer. rewrite Timers_bind_get, Ha. reflexivity. Qed.

Lemma the_wall_timer_live a t s :
  wall_timers s !! a = Some t → the_wall_timer (Some a) s = (Return t, s, []).
Proof. intros Ha. unfold the_wall_timer. rewrite Timers_bind_get, Ha. reflexivity. Qed.

Lemma Pause_returns a t x now s :
  cpu_timers s !! a = Some t →
  executors s !! CpuTimer_executor t = Some x →
  cpu_timer x = Some a →
  Pause (Some a) now s =
    (Return tt,
     with_executors (<[CpuTimer_executor t := stopped t now x]> (executors s)) s,
     [EvTimerPause (CpuTimer_executor t)]).
Proof.
  intros Ha Hx Hreg. unfold Pause.
  rewrite (Timers_bind_Return _ _ _ _ _ _ (the_cpu_timer_live _ _ _ Ha)).
  rewrite (Timers_bind_Return _ _ _ _ _ _ (update_executor_live _ _ _ _ Hx)).
  erewrite (Timers_bind_Return (the_executor _));
    [|apply the_executor_live; cbn; apply lookup_insert_eq].
  cbn [cpu_timer with_cpu_time]. rewrite Hreg.
  rewrite (bool_decide_eq_true_2 (Some a = Some a)) by reflexivity.
  cbn [Timers.cxx_assert].
  unfold Timers.bind at 1. unfold Timers.ret at 1.
  erewrite (Timers_bind_Return (update_executor _ _));
    [|apply update_executor_live; cbn; apply lookup_insert_eq].
  unfold Timers.emit, with_executors, stopped. cbn.
  rewrite insert_insert_eq. reflexivity.
Qed.

Ltac timer_unfold :=
  unfold Pause, Resume, CpuTimer_ctor, CpuTimer_dtor, CpuTimer_Delta,
    WallTimer_ctor, WallTimer_dtor, WallTimer_Delta,
    the_cpu_timer, the_wall_timer, update_executor, the_executor,
    Timers.bind, Timers.get, Timers.modify, Timers.cxx_assert, Timers.emit,
    Timers.ret, Timers.stop.

Lemma Pause_cases a now s :
  Pause (Some a) now s =
    match cpu_timers s !! a with
    | None => (Stopped (undefined_behaviour "dangling CpuTimer*"), s, [])
    | Some t =>
        match executors s !! CpuTimer_executor t with
        | None => (Stopped (undefined_behaviour "dangling Executor&"), s, [])
        | Some x =>
            if bool_decide (cpu_timer x = Some a) then
              (Return tt,
               with_executors (<[CpuTimer_executor t := stopped t now x]> (executors s)) s,
               [EvTimerPause (CpuTimer_executor t)])
            else
              (Stopped (assertion_failed "executor.cpu_timer == this"),
               with_executors
                 (<[CpuTimer_executor t :=
                      with_cpu_time (cpu_time x + (now - CpuTimer_time t)) x]>
                    (executors s)) s,
               [])
        end
    end.
Proof.
  timer_unfold. cbn.
  destruct (cpu_timers s !! a) as [t|]; [|reflexivity].
  destruct (executors s !! CpuTimer_executor t) as [x|] eqn:Hx; [|reflexivity].
  cbn. rewrite lookup_insert_eq. cbn.
  case_bool_decide; cbn; [|reflexivity].
  rewrite lookup_insert_eq. cbn. rewrite insert_insert_eq. reflexivity.
Qed.

Lemma Resume_cases a now s :
  Resume (Some a) now s =
    match cpu_timers s !! a with
    | None => (Stopped (undefined_behaviour "dangling CpuTimer*"), s, [])
    | Some t =>
        let s1 :=
          with_cpu_timers
            (<[a := mkCpuTimer (CpuTimer_executor t) (CpuTimer_last t) now]>
               (cpu_timers s)) s in
        match executors s !! CpuTimer_executor t with
        | None => (Stopped (undefined_behaviour "dangling Executor&"), s1, [])
        | Some x =>
            if bool_decide (cpu_timer x = None) then
              (Return tt,
               with_executors
                 (<[CpuTimer_executor t := with_cpu_timer (Some a) x]> (executors s)) s1,
               [EvTimerResume (CpuTimer_executor t)])
            else
              (Stopped (assertion_failed "executor.cpu_timer == nullptr"), s1, [])
        end
    end.
Proof.
  timer_unfold. cbn.
  destruct (cpu_timers s !! a) as [t|]; [|reflexivity].
  cbn. destruct (executors s !! CpuTimer_executor t) as [x|] eqn:Hx; [|reflexivity].
  cbn. case_bool_decide; cbn; [|reflexivity].
  rewrite Hx. reflexivity.
Qed.

Lemma CpuTimer_ctor_cases self ex now s :
  CpuTimer_ctor self ex now s =
    let s1 :=
      with_cpu_timer_thread (Some self)
        (with_cpu_timers
           (<[self := mkCpuTimer ex (cpu_timer_thread s) now]> (cpu_timers s)) s) in
    match executors s !! ex with
    | None => (Stopped (undefined_behaviour "dangling Executor&"), s1, [])
    | Some x =>
        if bool_decide (cpu_timer x = None) then
          (Return tt,
           with_executors (<[ex := with_cpu_timer (Some self) x]> (executors s)) s1, [])
        else
          (Stopped (assertion_failed "executor.cpu_timer == nullptr"), s1, [])
    end.
Proof.
  timer_unfold. cbn.
  destruct (executors s !! ex) as [x|] eqn:Hx; [|reflexivity].
  cbn. case_bool_decide; cbn; [|reflexivity].
  rewrite Hx. reflexivity.
Qed.

Lemma CpuTimer_dtor_cases self now s :
  CpuTimer_dtor self now s =
    match cpu_timers s !! self with
    | None => (Stopped (undefined_behaviour "dangling CpuTimer*"), s, [])
    | Some t =>
        let s1 := with_cpu_timer_thread (CpuTimer_last t) s in
        match executors s !! CpuTimer_executor t with
        | None => (Stopped (undefined_behaviour "dangling Executor&"), s1, [])
        | Some x =>
            if bool_decide (cpu_timer x = Some self) then
              (Return tt,
               with_cpu_timers (delete self (cpu_timers s))
                 (with_executors
                    (<[CpuTimer_executor t := stopped t now x]> (executors s)) s1),
               [])
            else
              (Stopped (assertion_failed "executor.cpu_timer == this"),
               with_executors
                 (<[CpuTimer_executor t :=
                      with_cpu_time (cpu_time x + (now - CpuTimer_time t)) x]>
                    (executors s)) s1,
               [])
        end
    end.
Proof.
  timer_unfold. cbn.
  destruct (cpu_timers s !! self) as [t|]; [|reflexivity].
  cbn. destruct (executors s !! CpuTimer_executor t) as [x|] eqn:Hx; [|reflexivity].
  cbn. rewrite lookup_insert_eq. cbn.
  case_bool_decide; cbn; [|reflexivity].
  rewrite lookup_insert_eq. cbn. rewrite insert_insert_eq. reflexivity.
Qed.

Lemma GetCpuTime_cases e now s :
  GetCpuTime e now s =
    match executors s !! e with
    | None => (Stopped (undefined_behaviour "dangling Executor&"), s, [])
    | Some x =>
        match cpu_timer x with
        | None => (Return (cpu_time x), s, [])
        | Some a =>
            match cpu_timers s !! a with
            | None => (Stopped (undefined_behaviour "dangling CpuTimer*"), s, [])
            | Some t => (Return (cpu_time x + (now - CpuTimer_time t))%Z, s, [])
            end
        end
    end.
Proof.
  unfold GetCpuTime. timer_unfold. cbn.
  destruct (executors s !! e) as [x|]; [|reflexivity].
  destruct (cpu_timer x) as [a|]; [|reflexivity].
  cbn. destruct (cpu_timers s !! a); reflexivity.
Qed.

Lemma GetCpuTime_value e now s :
  (GetCpuTime e now s).1.1 =
    match executors s !! e with
    | None => Stopped (undefined_behaviour "dangling Executor&")
    | Some x =>
        match cpu_timer x with
        | None => Return (cpu_time x)
        | Some a =>
            match cpu_timers s !! a with
            | None => Stopped (undefined_behaviour "dangling CpuTimer*")
            | Some t => Return (cpu_time x + (now - CpuTimer_time t))%Z
            end
        end
    end.
Proof.
  rewrite GetCpuTime_cases.
  destruct (executors s !! e) as [x|]; [|reflexivity].
  destruct (cpu_timer x) as [a|]; [|reflexivity].
  destruct (cpu_timers s !! a); reflexivity.
Qed.

(** X17.  CPU time is counted once.  In a state in which every executor
    points at a live timer of its own: between two operations the total
    [GetCpuTime] reports grows with the clock while a timer runs for the
    environment and stands still otherwise; and starting, stopping, pausing
    or resuming a timer at a reading of the clock leaves the total of every
    environment at that reading as it was, and the state as well formed. *)
Theorem cpu_time_accounting (s : State) :
  registered s →
  (∀ e now1 now2 v,
     (GetCpuTime e now1 s).1.1 = Return v →
     (GetCpuTime e now2 s).1.1 =
       Return (if cpu_running e s then v + (now2 - now1) else v)%Z) ∧
  (∀ op now s' ev,
     cpu_timer_op_fresh op s →
     cpu_timer_op op now s = (Return tt, s', ev) →
     registered s' ∧
     ∀ e, (GetCpuTime e now s').1.1 = (GetCpuTime e now s).1.1).
Proof.
  intros Hreg. split.
  - intros e now1 now2 v. rewrite !GetCpuTime_value. unfold cpu_running.
    destruct (executors s !! e) as [x|]; [|discriminate].
    destruct (cpu_timer x) as [a|] eqn:Ha.
    + destruct (cpu_timers s !! a) as [t|]; [|discriminate].
      cbn. intros [= <-]. f_equal. lia.
    + cbn. intros [= <-]. reflexivity.
  - intros op now s' ev Hfresh Hop.
    destruct op as [self ex|self|a|a];
      cbn [cpu_timer_op cpu_timer_op_fresh] in Hfresh, Hop.
    + (* constructor *)
      rewrite CpuTimer_ctor_cases in Hop. cbv zeta in Hop.
      destruct (executors s !! ex) as [x0|] eqn:Hx0; [|discriminate].
      case_bool_decide as Hnone; [|discriminate].
      injection Hop as <- <-. split.
      * intros e x a. cbn. intros He Ha.
        destruct (decide (e = ex)) as [->|Hne].
        -- rewrite lookup_insert_eq in He. injection He as <-. cbn in Ha.
           injection Ha as <-. rewrite lookup_insert_eq. eauto.
        -- rewrite lookup_insert_ne in He by congruence.
           destruct (Hreg e x a He Ha) as (t & Ht & Hex).
           exists t. split; [|exact Hex].
           rewrite lookup_insert_ne; [exact Ht|]. intros <-. congruence.
      * intros e. rewrite !GetCpuTime_value. cbn.
        destruct (decide (e = ex)) as [->|Hne].
        -- rewrite lookup_insert_eq, Hx0. cbn. rewrite Hnone, lookup_insert_eq. cbn.
           f_equal. lia.
        -- rewrite lookup_insert_ne by congruence.
           destruct (executors s !! e) as [x|] eqn:He; [|reflexivity].
           destruct (cpu_timer x) as [a|] eqn:Ha; [|reflexivity].
           destruct (Hreg e x a He Ha) as (t & Ht & Hex).
           rewrite lookup_insert_ne; [reflexivity|]. intros <-. congruence.
    + (* destructor *)
      rewrite CpuTimer_dtor_cases in Hop.
      destruct (cpu_timers s !! self) as [t0|] eqn:Ht0; [|discriminate].
      cbv zeta in Hop.
      destruct (executors s !! CpuTimer_executor t0) as [x0|] eqn:Hx0; [|discriminate].
      case_bool_decide as Hself; [|discriminate].
      injection Hop as <- <-. split.
      * intros e x a. cbn. intros He Ha.
        destruct (decide (e = CpuTimer_executor t0)) as [->|Hne].
        -- rewrite lookup_insert_eq in He. injection He as <-. discriminate Ha.
        -- rewrite lookup_insert_ne in He by congruence.
           destruct (Hreg e x a He Ha) as (t & Ht & Hex).
           exists t. split; [|exact Hex].
           rewrite lookup_delete_ne; [exact Ht|]. intros <-. congruence.
      * intros e. rewrite !GetCpuTime_value. cbn.
        destruct (decide (e = CpuTimer_executor t0)) as [->|Hne].
        -- rewrite lookup_insert_eq, Hx0. cbn. rewrite Hself, Ht0. reflexivity.
        -- rewrite lookup_insert_ne by congruence.
           destruct (executors s !! e) as [x|] eqn:He; [|reflexivity].
           destruct (cpu_timer x) as [a|] eqn:Ha; [|reflexivity].
           destruct (Hreg e x a He Ha) as (t & Ht & Hex).
           rewrite lookup_delete_ne; [reflexivity|]. intros <-. congruence.
    + (* Pause *)
      rewrite Pause_cases in Hop.
      destruct (cpu_timers s !! a) as [t0|] eqn:Ht0; [|discriminate].
      destruct (executors s !! CpuTimer_executor t0) as [x0|] eqn:Hx0; [|discriminate].
      case_bool_decide as Hself; [|discriminate].
      injection Hop as <- <-. split.
      * intros e x b. cbn. intros He Hb.
        destruct (decide (e = CpuTimer_executor t0)) as [->|Hne].
        -- rewrite lookup_insert_eq in He. injection He as <-. discriminate Hb.
        -- rewrite lookup_insert_ne in He by congruence. exact (Hreg e x b He Hb).
      * intros e. rewrite !GetCpuTime_value. cbn.
        destruct (decide (e = CpuTimer_executor t0)) as [->|Hne].
        -- rewrite lookup_insert_eq, Hx0. cbn. rewrite Hself, Ht0. reflexivity.
        -- rewrite lookup_insert_ne by congruence. reflexivity.
    + (* Resume *)
      rewrite Resume_cases in Hop.
      destruct (cpu_timers s !! a) as [t0|] eqn:Ht0; [|discriminate].
      cbv zeta in Hop.
      destruct (executors s !! CpuTimer_executor t0) as [x0|] eqn:Hx0; [|discriminate].
      case_bool_decide as Hnone; [|discriminate].
      injection Hop as <- <-. split.
      * intros e x b. cbn. intros He Hb.
        destruct (decide (e = CpuTimer_executor t0)) as [->|Hne].
        -- rewrite lookup_insert_eq in He. injection He as <-. cbn in Hb.
           injection Hb as <-. rewrite lookup_insert_eq. eauto.
        -- rewrite lookup_insert_ne in He by congruence.
           destruct (Hreg e x b He Hb) as (t & Ht & Hex).
           exists t. split; [|exact Hex].
           rewrite lookup_insert_ne; [exact Ht|]. intros <-. congruence.
      * intros e. rewrite !GetCpuTime_value. cbn.
        destruct (decide (e = CpuTimer_executor t0)) as [->|Hne].
        -- rewrite lookup_insert_eq, Hx0. cbn. rewrite Hnone, lookup_insert_eq. cbn.
           f_equal. lia.
        -- rewrite lookup_insert_ne by congruence.
           destruct (executors s !! e) as [x|] eqn:He; [|reflexivity].
           destruct (cpu_timer x) as [b|] eqn:Hb; [|reflexivity].
           destruct (Hreg e x b He Hb) as (t & Ht & Hex).
           rewrite lookup_insert_ne; [reflexivity|]. intros <-. congruence.
Qed.

Lemma GetWallTime_value e now s :
  (GetWallTime e now s).1.1 =
    match wall_view s e with
    | None => Stopped (undefined_behaviour "dangling Executor&")
    | Some (None, total) => Return total
    | Some (Some a, total) =>
        match wall_timers s !! a with
        | None => Stopped (undefined_behaviour "dangling WallTimer*")
        | Some t =>
            match WallTimer_time t with
            | Some since => Return (total + (now - since))%Z
            | None => Stopped (undefined_behaviour "time is not initialised")
            end
        end
    end.
Proof.
  unfold GetWallTime, wall_view. timer_unfold. cbn.
  destruct (executors s !! e) as [x|]; [|reflexivity].
  cbn. destruct (wall_timer x) as [a|]; [|reflexivity].
  cbn. destruct (wall_timers s !! a) as [t|]; [|reflexivity].
  cbn. destruct (WallTimer_time t); reflexivity.
Qed.

Lemma Pause_keeps_wall p now s s' ev :
  Pause p now s = (Return tt, s', ev) →
  wall_timers s' = wall_timers s ∧ ∀ e, wall_view s' e = wall_view s e.
Proof.
  destruct p as [a|]; [|discriminate].
  rewrite Pause_cases.
  destruct (cpu_timers s !! a) as [t0|]; [|discriminate].
  destruct (executors s !! CpuTimer_executor t0) as [x0|] eqn:Hx0; [|discriminate].
  case_bool_decide; [|discriminate].
  intros [= <- _]. split; [reflexivity|].
  intros e. unfold wall_view. cbn.
  destruct (decide (e = CpuTimer_executor t0)) as [->|Hne].
  - rewrite lookup_insert_eq, Hx0. reflexivity.
  - rewrite lookup_insert_ne by congruence. reflexivity.
Qed.

Lemma Resume_keeps_wall p now s s' ev :
  Resume p now s = (Return tt, s', ev) →
  wall_timers s' = wall_timers s ∧ ∀ e, wall_view s' e = wall_view s e.
Proof.
  destruct p as [a|]; [|discriminate].
  rewrite Resume_cases.
  destruct (cpu_timers s !! a) as [t0|]; [|discriminate].
  cbv zeta.
  destruct (executors s !! CpuTimer_executor t0) as [x0|] eqn:Hx0; [|discriminate].
  case_bool_decide; [|discriminate].
  intros [= <- _]. split; [reflexivity|].
  intros e. unfold wall_view. cbn.
  destruct (decide (e = CpuTimer_executor t0)) as [->|Hne].
  - rewrite lookup_insert_eq, Hx0. reflexivity.
  - rewrite lookup_insert_ne by congruence. reflexivity.
Qed.

Lemma WallTimer_ctor_cases self ex now_cpu now s :
  WallTimer_ctor self ex now_cpu now s =
    let s0 :=
      with_wall_timers
        (<[self := mkWallTimer ex (cpu_timer_thread s) None]> (wall_timers s)) s in
    match
      match cpu_timer_thread s with
      | Some _ => Pause (cpu_timer_thread s) now_cpu s0
      | None => (Return tt, s0, [])
      end
    with
    | (Return _, s1, ev1) =>
        match executors s1 !! ex with
        | None => (Stopped (undefined_behaviour "dangling Executor&"), s1, ev1)
        | Some x =>
            if bool_decide (wall_timer x = None) then
              (Return tt,
               with_wall_timers
                 (<[self := mkWallTimer ex (cpu_timer_thread s) (Some now)]>
                    (wall_timers s1))
                 (with_executors (<[ex := with_wall_timer (Some self) x]> (executors s1))
                    s1),
               ev1)
            else (Return tt, s1, ev1)
        end
    | (Stopped e, s1, ev1) => (Stopped e, s1, ev1)
    end.
Proof.
  unfold WallTimer_ctor.
  rewrite Timers_bind_get, Timers_bind_modify. cbv zeta.
  set (s0 := with_wall_timers _ s).
  change (cpu_timer_thread s0) with (cpu_timer_thread s).
  unfold Timers.bind at 1.
  destruct (match cpu_timer_thread s with
            | Some _ => Pause (cpu_timer_thread s) now_cpu
            | None => Timers.ret ()
            end s0) as [[[[]|e] s1] ev1] eqn:Hp.
  - assert (match cpu_timer_thread s with
            | Some _ => Pause (cpu_timer_thread s) now_cpu s0
            | None => (Return tt, s0, [])
            end = (Return tt, s1, ev1)) as ->.
    { destruct (cpu_timer_thread s); exact Hp. }
    timer_unfold. cbn.
    destruct (executors s1 !! ex) as [x|] eqn:Hx; cbn; [|rewrite app_nil_r; reflexivity].
    case_bool_decide; cbn; [|rewrite app_nil_r; reflexivity].
    rewrite Hx. cbn. rewrite app_nil_r. reflexivity.
  - assert (match cpu_timer_thread s with
            | Some _ => Pause (cpu_timer_thread s) now_cpu s0
            | None => (Return tt, s0, [])
            end = (Stopped e, s1, ev1)) as ->.
    { destruct (cpu_timer_thread s); exact Hp. }
    reflexivity.
Qed.

Lemma WallTimer_dtor_cases self now_cpu now s :
  WallTimer_dtor self now_cpu now s =
    match wall_timers s !! self with
    | None => (Stopped (undefined_behaviour "dangling WallTimer*"), s, [])
    | Some t =>
        match
          match WallTimer_cpu_timer t with
          | Some _ => Resume (WallTimer_cpu_timer t) now_cpu s
          | None => (Return tt, s, [])
          end
        with
        | (Return _, s1, ev1) =>
            match executors s1 !! WallTimer_executor t with
            | None => (Stopped (undefined_behaviour "dangling Executor&"), s1, ev1)
            | Some x =>
                if bool_decide (wall_timer x = Some self) then
                  match WallTimer_time t with
                  | Some since =>
                      (Return tt,
                       with_wall_timers (delete self (wall_timers s1))
                         (with_executors
                            (<[WallTimer_executor t :=
                                 mkExecutor (cpu_timer x) None (cpu_time x)
                                   (wall_time x + (now - since))]> (executors s1)) s1),
                       ev1)
                  | None =>
                      (Stopped (undefined_behaviour "time is not initialised"),
                       with_executors
                         (<[WallTimer_executor t := with_wall_timer None x]>
                            (executors s1)) s1,
                       ev1)
                  end
                else
                  (Return tt, with_wall_timers (delete self (wall_timers s1)) s1, ev1)
            end
        | (Stopped e, s1, ev1) => (Stopped e, s1, ev1)
        end
    end.
Proof.
  unfold WallTimer_dtor.
  unfold Timers.bind at 1. unfold the_wall_timer. rewrite Timers_bind_get.
  destruct (wall_timers s !! self) as [t|]; [|reflexivity].
  unfold Timers.ret at 1.
  unfold Timers.bind at 1.
  destruct (match WallTimer_cpu_timer t with
            | Some _ => Resume (WallTimer_cpu_timer t) now_cpu
            | None => Timers.ret ()
            end s) as [[[[]|e] s1] ev1] eqn:Hp.
  - assert (match WallTimer_cpu_timer t with
            | Some _ => Resume (WallTimer_cpu_timer t) now_cpu s
            | None => (Return tt, s, [])
            end = (Return tt, s1, ev1)) as ->.
    { destruct (WallTimer_cpu_timer t); exact Hp. }
    timer_unfold. cbn.
    destruct (executors s1 !! WallTimer_executor t) as [x|] eqn:Hx; cbn;
      [|rewrite app_nil_r; reflexivity].
    case_bool_decide; cbn; [|rewrite app_nil_r; reflexivity].
    rewrite Hx. cbn.
    destruct (WallTimer_time t) as [since|]; cbn.
    + rewrite lookup_insert_eq. cbn. rewrite insert_insert_eq, app_nil_r. reflexivity.
    + rewrite app_nil_r. reflexivity.
  - assert (match WallTimer_cpu_timer t with
            | Some _ => Resume (WallTimer_cpu_timer t) now_cpu s
            | None => (Return tt, s, [])
            end = (Stopped e, s1, ev1)) as ->.
    { destruct (WallTimer_cpu_timer t); exact Hp. }
    reflexivity.
Qed.

Lemma wall_registered_view s :
  wall_registered s ↔
  ∀ e a total, wall_view s e = Some (Some a, total) →
    ∃ t since, wall_timers s !! a = Some t ∧ WallTimer_executor t = e ∧
               WallTimer_time t = Some since.
Proof.
  unfold wall_registered, wall_view. split.
  - intros Hreg e a total Hview.
    destruct (executors s !! e) as [x|] eqn:He; [|discriminate].
    injection Hview as Ha _. eauto.
  - intros Hreg e x a He Ha. apply (Hreg e a (wall_time x)).
    rewrite He. cbn. rewrite Ha. reflexivity.
Qed.

Lemma wall_total_agree s s' now :
  (∀ e, wall_view s' e = wall_view s e) →
  (∀ e a total, wall_view s e = Some (Some a, total) →
     wall_timers s' !! a = wall_timers s !! a) →
  ∀ e, (GetWallTime e now s').1.1 = (GetWallTime e now s).1.1.
Proof.
  intros Hview Htimers e. rewrite !GetWallTime_value, Hview.
  destruct (wall_view s e) as [[[a|] total]|] eqn:He; [|reflexivity..].
  rewrite (Htimers e a total He). reflexivity.
Qed.

(** X18.  Wall time is counted once.  In a state in which every executor
    points at a live wall timer of its own that has taken its reading: the
    total [GetWallTime] reports grows with the clock while a wall timer is
    registered and stands still otherwise; and constructing or destroying
    a [WallTimer] at a reading leaves the total of every environment at
    that reading as it was. *)
Theorem wall_time_accounting (s : State) :
  wall_registered s →
  (∀ e now1 now2 v,
     (GetWallTime e now1 s).1.1 = Return v →
     (GetWallTime e now2 s).1.1 =
       Return (if wall_running e s then v + (now2 - now1) else v)%Z) ∧
  (∀ op now_cpu now s' ev,
     wall_timer_op_fresh op s →
     wall_timer_op op now_cpu now s = (Return tt, s', ev) →
     wall_registered s' ∧
     ∀ e, (GetWallTime e now s').1.1 = (GetWallTime e now s).1.1).
Proof.
  intros Hreg. split.
  - intros e now1 now2 v. rewrite !GetWallTime_value. unfold wall_running, wall_view.
    destruct (executors s !! e) as [x|]; [|discriminate].
    cbn. destruct (wall_timer x) as [a|].
    + destruct (wall_timers s !! a) as [t|]; [|discriminate].
      destruct (WallTimer_time t) as [since|]; [|discriminate].
      cbn. intros [= <-]. f_equal. lia.
    + cbn. intros [= <-]. reflexivity.
  - pose proof (proj1 (wall_registered_view s) Hreg) as Hreg'. clear Hreg.
    rename Hreg' into Hreg.
    intros op now_cpu now s' ev Hfresh Hop. rewrite wall_registered_view.
    destruct op as [self ex|self]; cbn [wall_timer_op wall_timer_op_fresh] in Hfresh, Hop.
    + (* constructor *)
      rewrite WallTimer_ctor_cases in Hop. cbv zeta in Hop.
      set (s0 := with_wall_timers _ s) in Hop.
      destruct (match cpu_timer_thread s with
                | Some _ => Pause (cpu_timer_thread s) now_cpu s0
                | None => (Return tt, s0, [])
                end) as [[[[]|stp] s1] ev1] eqn:Hp; [|discriminate].
      assert (wall_timers s1 = wall_timers s0 ∧ ∀ e, wall_view s1 e = wall_view s e)
        as [Htimers Hview].
      { destruct (cpu_timer_thread s).
        - apply Pause_keeps_wall in Hp. exact Hp.
        - injection Hp as <- _. split; reflexivity. }
      assert (∀ e a total, wall_view s e = Some (Some a, total) → a ≠ self) as Hother.
      { intros e a total He ->. destruct (Hreg e self total He) as (t & ? & Ht & _).
        congruence. }
      destruct (executors s1 !! ex) as [x|] eqn:Hx; [|discriminate].
      case_bool_decide as Hnone; injection Hop as <- <-.
      * assert (wall_view s ex = Some (None, wall_time x)) as Hex.
        { rewrite <- Hview. unfold wall_view. rewrite Hx. cbn. rewrite Hnone.
          reflexivity. }
        assert (∀ e, e ≠ ex →
                  wall_view
                    (with_wall_timers
                       (<[self := mkWallTimer ex (cpu_timer_thread s) (Some now)]>
                          (wall_timers s1))
                       (with_executors
                          (<[ex := with_wall_timer (Some self) x]> (executors s1)) s1)) e =
                  wall_view s e) as Hrest.
        { intros e Hne. rewrite <- Hview. unfold wall_view. cbn.
          rewrite lookup_insert_ne by congruence. reflexivity. }
        split.
        -- intros e a total. destruct (decide (e = ex)) as [->|Hne].
           ++ unfold wall_view. cbn. rewrite lookup_insert_eq. cbn.
              intros [= <- _]. rewrite lookup_insert_eq. eauto.
           ++ rewrite (Hrest e Hne). intros He.
              destruct (Hreg e a total He) as (t & since & Ht & Hrest').
              exists t, since. split; [|exact Hrest'].
              cbn. rewrite Htimers. unfold s0. cbn.
              rewrite !lookup_insert_ne by (apply not_eq_sym, (Hother e a total He)).
              exact Ht.
        -- intros e. destruct (decide (e = ex)) as [->|Hne].
           ++ rewrite !GetWallTime_value, Hex. unfold wall_view. cbn.
              rewrite lookup_insert_eq. cbn. rewrite lookup_insert_eq. cbn.
              f_equal. lia.
           ++ rewrite !GetWallTime_value, (Hrest e Hne).
              destruct (wall_view s e) as [[[a|] total]|] eqn:He; [|reflexivity..].
              cbn. rewrite Htimers. unfold s0. cbn.
              rewrite !lookup_insert_ne by (apply not_eq_sym, (Hother e a total He)).
              reflexivity.
      * split.
        -- intros e a total. rewrite Hview. intros He.
           destruct (Hreg e a total He) as (t & since & Ht & Hrest').
           exists t, since. split; [|exact Hrest'].
           rewrite Htimers. unfold s0. cbn.
           rewrite lookup_insert_ne by (apply not_eq_sym, (Hother e a total He)).
           exact Ht.
        -- apply wall_total_agree; [exact Hview|].
           intros e a total He. rewrite Htimers. unfold s0. cbn.
           apply lookup_insert_ne, not_eq_sym, (Hother e a total He).
    + (* destructor *)
      rewrite WallTimer_dtor_cases in Hop.
      destruct (wall_timers s !! self) as [t0|] eqn:Ht0; [|discriminate].
      destruct (match WallTimer_cpu_timer t0 with
                | Some _ => Resume (WallTimer_cpu_timer t0) now_cpu s
                | None => (Return tt, s, [])
                end) as [[[[]|stp] s1] ev1] eqn:Hp; [|discriminate].
      assert (wall_timers s1 = wall_timers s ∧ ∀ e, wall_view s1 e = wall_view s e)
        as [Htimers Hview].
      { destruct (WallTimer_cpu_timer t0).
        - apply Resume_keeps_wall in Hp. exact Hp.
        - injection Hp as <- _. split; reflexivity. }
      destruct (executors s1 !! WallTimer_executor t0) as [x|] eqn:Hx; [|discriminate].
      assert (wall_view s (WallTimer_executor t0) = Some (wall_timer x, wall_time x))
        as Hex.
      { rewrite <- Hview. unfold wall_view. rewrite Hx. reflexivity. }
      assert (∀ e a total, e ≠ WallTimer_executor t0 →
                wall_view s e = Some (Some a, total) → a ≠ self) as Hother.
      { intros e a total Hne He ->.
        destruct (Hreg e self total He) as (t & ? & Ht & Hexec & _).
        congruence. }
      case_bool_decide as Hself.
      * destruct (WallTimer_time t0) as [since0|] eqn:Hsince; [|discriminate].
        injection Hop as <- <-.
        assert (∀ e, e ≠ WallTimer_executor t0 →
                  wall_view
                    (with_wall_timers (delete self (wall_timers s1))
                       (with_executors
                          (<[WallTimer_executor t0 :=
                               mkExecutor (cpu_timer x) None (cpu_time x)
                                 (wall_time x + (now - since0))]> (executors s1)) s1)) e =
                  wall_view s e) as Hrest.
        { intros e Hne. rewrite <- Hview. unfold wall_view. cbn.
          rewrite lookup_insert_ne by congruence. reflexivity. }
        split.
        -- intros e a total. destruct (decide (e = WallTimer_executor t0)) as [->|Hne].
           ++ unfold wall_view. cbn. rewrite lookup_insert_eq. discriminate.
           ++ rewrite (Hrest e Hne). intros He.
              destruct (Hreg e a total He) as (t & since & Ht & Hrest').
              exists t, since. split; [|exact Hrest'].
              cbn. rewrite Htimers.
              rewrite lookup_delete_ne by (apply not_eq_sym, (Hother e a total Hne He)).
              exact Ht.
        -- intros e. destruct (decide (e = WallTimer_executor t0)) as [->|Hne].
           ++ rewrite !GetWallTime_value, Hex, Hself, Ht0, Hsince.
              unfold wall_view. cbn. rewrite lookup_insert_eq. reflexivity.
           ++ rewrite !GetWallTime_value, (Hrest e Hne).
              destruct (wall_view s e) as [[[a|] total]|] eqn:He; [|reflexivity..].
              cbn. rewrite Htimers.
              rewrite lookup_delete_ne by (apply not_eq_sym, (Hother e a total Hne He)).
              reflexivity.
      * injection Hop as <- <-.
        assert (∀ e a total, wall_view s e = Some (Some a, total) → a ≠ self)
          as Hother'.
        { intros e a total He. destruct (decide (e = WallTimer_executor t0)) as [->|Hne].
          - rewrite Hex in He. injection He as Ha _. congruence.
          - exact (Hother e a total Hne He). }
        split.
        -- intros e a total. change (wall_view (with_wall_timers _ s1) e)
             with (wall_view s1 e). rewrite Hview. intros He.
           destruct (Hreg e a total He) as (t & since & Ht & Hrest').
           exists t, since. split; [|exact Hrest'].
           cbn. rewrite Htimers.
           rewrite lookup_delete_ne by (apply not_eq_sym, (Hother' e a total He)).
           exact Ht.
        -- apply wall_total_agree; [exact Hview|].
           intros e a total He. cbn. rewrite Htimers.
           apply lookup_delete_ne, not_eq_sym, (Hother' e a total He).
Qed.

(** X19.  [Executor::Unlock] around nothing, on an environment whose
    running timer is [a]: the timer is paused and resumed, with [timer_t]
    told each time, [cpu_time] gains what ran up to the pause and the timer
    restarts at the reading of the resume.  While unlocked the total stands
    still; a second [Unlock] dereferences a null pointer; and if [a] is the
    timer of the thread, an [Executor::Lock] taken on that thread fails
    the assertion of [Pause], which finds the timer paused already. *)
Theorem Unlock_bracket (env : EnvPtr) (a : TimerPtr) (t : CpuTimer) (x : Executor)
    (now_pause now_resume : Z) (s : State) :
  executors s !! env = Some x →
  cpu_timer x = Some a →
  cpu_timers s !! a = Some t →
  CpuTimer_executor t = env →
  let counted := (cpu_time x + (now_pause - CpuTimer_time t))%Z in
  let paused := with_executors (<[env := stopped t now_pause x]> (executors s)) s in
  unlocked env now_pause now_resume s =
    (Return tt,
     with_executors (<[env := with_cpu_time counted x]> (executors s))
       (with_cpu_timers
          (<[a := mkCpuTimer env (CpuTimer_last t) now_resume]> (cpu_timers s)) s),
     [EvTimerPause env; EvUnlocker env; EvUnlockerRelease env; EvTimerResume env]) ∧
  Unlock_ctor env now_pause s =
    (Return (Some a), paused, [EvTimerPause env; EvUnlocker env]) ∧
  cpu_running env paused = false ∧
  (∀ now, (GetCpuTime env now paused).1.1 = Return counted) ∧
  (∀ now, (Unlock_ctor env now paused).1.1 =
            Stopped (undefined_behaviour "null CpuTimer*")) ∧
  (cpu_timer_thread s = Some a →
   ∀ self wall_timer cpu_timer e now1 now2 now3,
     (Lock_ctor self wall_timer cpu_timer e now1 now2 now3 paused).1.1 =
       Stopped (assertion_failed "executor.cpu_timer == this")).
Proof.
  intros Hx Ha Ht <- counted paused.
  assert (Unlock_ctor (CpuTimer_executor t) now_pause s =
            (Return (Some a), paused,
             [EvTimerPause (CpuTimer_executor t); EvUnlocker (CpuTimer_executor t)]))
    as Hctor.
  { unfold Unlock_ctor, PauseScope_ctor.
    rewrite (Timers_bind_Return _ _ _ _ _ _ (the_executor_live _ _ _ Hx)).
    rewrite Ha. unfold Timers.bind at 1. unfold Timers.bind at 1.
    rewrite Pause_cases, Ht, Hx, Ha.
    rewrite (bool_decide_eq_true_2 (Some a = Some a)) by reflexivity.
    reflexivity. }
  assert (executors paused !! CpuTimer_executor t = Some (stopped t now_pause x))
    as Hpaused by apply lookup_insert_eq.
  split; [|split; [exact Hctor|split; [|split; [|split]]]].
  - unfold unlocked. rewrite (Timers_bind_Return _ _ _ _ _ _ Hctor).
    unfold Unlock_dtor, PauseScope_dtor.
    unfold Timers.bind at 1. unfold Timers.emit at 1.
    rewrite Resume_cases.
    change (cpu_timers paused) with (cpu_timers s). rewrite Ht. cbv zeta.
    change (executors paused) with
      (<[CpuTimer_executor t := stopped t now_pause x]> (executors s)).
    rewrite lookup_insert_eq.
    rewrite (bool_decide_eq_true_2 (cpu_timer (stopped t now_pause x) = None))
      by reflexivity.
    unfold paused, with_executors, with_cpu_timers, with_cpu_timer, with_cpu_time,
      stopped, counted. cbn.
    rewrite insert_insert_eq, Ha. reflexivity.
  - unfold cpu_running. rewrite Hpaused. reflexivity.
  - intros now. rewrite GetCpuTime_value, Hpaused. reflexivity.
  - intros now. unfold Unlock_ctor, PauseScope_ctor.
    rewrite (Timers_bind_Return _ _ _ _ _ _ (the_executor_live _ _ _ Hpaused)).
    reflexivity.
  - intros Hthread self wall_timer cpu_timer e now1 now2 now3.
    unfold Lock_ctor. rewrite Timers_bind_get.
    unfold Timers.bind at 1. rewrite WallTimer_ctor_cases. cbv zeta.
    change (cpu_timer_thread paused) with (cpu_timer_thread s). rewrite Hthread.
    rewrite Pause_cases. cbn [cpu_timers with_wall_timers executors].
    change (cpu_timers paused) with (cpu_timers s). rewrite Ht.
    rewrite Hpaused.
    rewrite (bool_decide_eq_false_2 (Timers.cpu_timer (stopped t now_pause x) = Some a))
      by discriminate.
    reflexivity.
Qed.

End TimerProperties.

Section LockProperties.

Import Timers.

Local Notation "'do' x <- m ; k" := (Timers.bind m (λ x, k))
  (at level 10, x name, m at level 100, k at level 200).
Local Notation "m >> k" := (Timers.bind m (λ _, k))
  (at level 65, right associativity).

Lemma returns_bind {A B} (m : T A) (k : A → T B) s (Q : B → State → Prop) :
  returns m s (λ a s1, returns (k a) s1 Q) → returns (Timers.bind m k) s Q.
Proof.
  intros (a & s1 & ev1 & Hm & b & s2 & ev2 & Hk & HQ).
  exists b, s2, (ev1 ++ ev2). split; [|exact HQ].
  unfold Timers.bind. rewrite Hm, Hk. reflexivity.
Qed.

Lemma returns_mono {A} (m : T A) s (P Q : A → State → Prop) :
  returns m s P → (∀ a s', P a s' → Q a s') → returns m s Q.
Proof. intros (a & s' & ev & Hm & HP) HPQ. exists a, s', ev. auto. Qed.

Lemma returns_get {A} (f : State → A) s (Q : A → State → Prop) :
  Q (f s) s → returns (Timers.get f) s Q.
Proof. intros HQ. exists (f s), s, []. auto. Qed.

Lemma returns_modify (f : State → State) s (Q : unit → State → Prop) :
  Q tt (f s) → returns (Timers.modify f) s Q.
Proof. intros HQ. exists tt, (f s), []. auto. Qed.

Lemma returns_emit e s (Q : unit → State → Prop) :
  Q tt s → returns (Timers.emit e) s Q.
Proof. intros HQ. exists tt, s, [e]. auto. Qed.

Lemma returns_ret {A} (a : A) s (Q : A → State → Prop) :
  Q a s → returns (Timers.ret a) s Q.
Proof. intros HQ. exists a, s, []. auto. Qed.

(** *** The operations on the shape of a state *)

Lemma cpu_timer_of_insert s e0 x e :
  cpu_timer_of (with_executors (<[e0 := x]> (executors s)) s) e =
    if decide (e = e0) then Some (cpu_timer x) else cpu_timer_of s e.
Proof.
  unfold cpu_timer_of. cbn. destruct (decide (e = e0)) as [->|Hne].
  - rewrite lookup_insert_eq. reflexivity.
  - rewrite lookup_insert_ne by congruence. reflexivity.
Qed.

Lemma wall_timer_of_insert s e0 x e :
  wall_timer_of (with_executors (<[e0 := x]> (executors s)) s) e =
    if decide (e = e0) then Some (wall_timer x) else wall_timer_of s e.
Proof.
  unfold wall_timer_of. cbn. destruct (decide (e = e0)) as [->|Hne].
  - rewrite lookup_insert_eq. reflexivity.
  - rewrite lookup_insert_ne by congruence. reflexivity.
Qed.

Ltac shape_lookup Hx :=
  let e := fresh "e" in
  intros e; unfold cpu_timer_of, wall_timer_of, cpu_timer_shape; cbn;
  destruct (decide _) as [->|?];
  rewrite ?lookup_insert_eq, ?lookup_delete_eq;
  rewrite ?lookup_insert_ne, ?lookup_delete_ne by congruence;
  rewrite ?Hx; reflexivity.

Ltac shape_frame k Hx :=
  let e := fresh "e" in
  intros e; unfold cpu_timer_of, wall_timer_of, cpu_timer_shape; cbn;
  destruct (decide (e = k)) as [->|?];
  rewrite ?lookup_insert_eq, ?lookup_delete_eq;
  rewrite ?lookup_insert_ne, ?lookup_delete_ne by congruence;
  rewrite ?Hx; reflexivity.

Lemma Pause_shape a now s e0 last :
  cpu_timer_shape s a = Some (e0, last) →
  cpu_timer_of s e0 = Some (Some a) →
  returns (Pause (Some a) now) s (λ _ s',
    cpu_timer_thread s' = cpu_timer_thread s ∧ current s' = current s ∧
    wall_timers s' = wall_timers s ∧ cpu_timers s' = cpu_timers s ∧
    (∀ e, cpu_timer_of s' e = if decide (e = e0) then Some None else cpu_timer_of s e) ∧
    (∀ e, wall_timer_of s' e = wall_timer_of s e)).
Proof.
  intros Ha He0. unfold cpu_timer_shape in Ha. unfold cpu_timer_of in He0.
  destruct (cpu_timers s !! a) as [t|] eqn:Ht; [|discriminate].
  injection Ha as <- <-.
  destruct (executors s !! CpuTimer_executor t) as [x|] eqn:Hx; [|discriminate].
  injection He0 as Hreg.
  eexists tt, _, _. split.
  { rewrite Pause_cases, Ht, Hx, bool_decide_eq_true_2 by exact Hreg. reflexivity. }
  repeat split; [shape_lookup Hx|shape_frame (CpuTimer_executor t) Hx].
Qed.

Lemma Resume_shape a now s e0 last :
  cpu_timer_shape s a = Some (e0, last) →
  cpu_timer_of s e0 = Some None →
  returns (Resume (Some a) now) s (λ _ s',
    cpu_timer_thread s' = cpu_timer_thread s ∧ current s' = current s ∧
    wall_timers s' = wall_timers s ∧
    (∀ a', cpu_timer_shape s' a' = cpu_timer_shape s a') ∧
    (∀ e, cpu_timer_of s' e =
            if decide (e = e0) then Some (Some a) else cpu_timer_of s e) ∧
    (∀ e, wall_timer_of s' e = wall_timer_of s e)).
Proof.
  intros Ha He0. unfold cpu_timer_shape in Ha. unfold cpu_timer_of in He0.
  destruct (cpu_timers s !! a) as [t|] eqn:Ht; [|discriminate].
  injection Ha as <- <-.
  destruct (executors s !! CpuTimer_executor t) as [x|] eqn:Hx; [|discriminate].
  injection He0 as Hreg.
  eexists tt, _, _. split.
  { rewrite Resume_cases, Ht. cbv zeta.
    rewrite Hx, bool_decide_eq_true_2 by exact Hreg. reflexivity. }
  repeat split;
    [shape_frame a Ht|shape_lookup Hx|shape_frame (CpuTimer_executor t) Hx].
Qed.

Lemma CpuTimer_ctor_shape self ex now s :
  cpu_timer_of s ex = Some None →
  returns (CpuTimer_ctor self ex now) s (λ _ s',
    cpu_timer_thread s' = Some self ∧ current s' = current s ∧
    wall_timers s' = wall_timers s ∧
    (∀ a, cpu_timer_shape s' a =
            if decide (a = self) then Some (ex, cpu_timer_thread s)
            else cpu_timer_shape s a) ∧
    (∀ e, cpu_timer_of s' e =
            if decide (e = ex) then Some (Some self) else cpu_timer_of s e) ∧
    (∀ e, wall_timer_of s' e = wall_timer_of s e)).
Proof.
  intros Hex. unfold cpu_timer_of in Hex.
  destruct (executors s !! ex) as [x|] eqn:Hx; [|discriminate].
  injection Hex as Hreg.
  eexists tt, _, _. split.
  { rewrite CpuTimer_ctor_cases. cbv zeta.
    rewrite Hx, bool_decide_eq_true_2 by exact Hreg. reflexivity. }
  repeat split; [shape_lookup Hx|shape_lookup Hx|shape_frame ex Hx].
Qed.

Lemma CpuTimer_dtor_shape self now s e0 last :
  cpu_timer_shape s self = Some (e0, last) →
  cpu_timer_of s e0 = Some (Some self) →
  returns (CpuTimer_dtor self now) s (λ _ s',
    cpu_timer_thread s' = last ∧ current s' = current s ∧
    wall_timers s' = wall_timers s ∧
    (∀ a, cpu_timer_shape s' a =
            if decide (a = self) then None else cpu_timer_shape s a) ∧
    (∀ e, cpu_timer_of s' e = if decide (e = e0) then Some None else cpu_timer_of s e) ∧
    (∀ e, wall_timer_of s' e = wall_timer_of s e)).
Proof.
  intros Ha He0. unfold cpu_timer_shape in Ha. unfold cpu_timer_of in He0.
  destruct (cpu_timers s !! self) as [t|] eqn:Ht; [|discriminate].
  injection Ha as <- <-.
  destruct (executors s !! CpuTimer_executor t) as [x|] eqn:Hx; [|discriminate].
  injection He0 as Hreg.
  eexists tt, _, _. split.
  { rewrite CpuTimer_dtor_cases, Ht. cbv zeta.
    rewrite Hx, bool_decide_eq_true_2 by exact Hreg. reflexivity. }
  repeat split;
    [shape_lookup Hx|shape_lookup Hx|shape_frame (CpuTimer_executor t) Hx].
Qed.

Lemma pause_thread_shape s s0 now :
  settled s →
  executors s0 = executors s → cpu_timers s0 = cpu_timers s →
  ∃ s1 ev1,
    match cpu_timer_thread s with
    | Some _ => Pause (cpu_timer_thread s) now s0
    | None => (Return tt, s0, [])
    end = (Return tt, s1, ev1) ∧
    cpu_timer_thread s1 = cpu_timer_thread s0 ∧ current s1 = current s0 ∧
    wall_timers s1 = wall_timers s0 ∧ cpu_timers s1 = cpu_timers s ∧
    (∀ e, cpu_timer_of s1 e = (λ _, None) <$> cpu_timer_of s e) ∧
    (∀ e, wall_timer_of s1 e = wall_timer_of s e).
Proof.
  intros (Hexcl & Hrun & _) Hex Hcpu.
  assert (∀ e, cpu_timer_of s0 e = cpu_timer_of s e) as Hof
    by (intros e; unfold cpu_timer_of; rewrite Hex; reflexivity).
  assert (∀ e, wall_timer_of s0 e = wall_timer_of s e) as Hwof
    by (intros e; unfold wall_timer_of; rewrite Hex; reflexivity).
  assert (∀ a, cpu_timer_shape s0 a = cpu_timer_shape s a) as Hsh
    by (intros a; unfold cpu_timer_shape; rewrite Hcpu; reflexivity).
  destruct (cpu_timer_thread s) as [p|] eqn:Hthread.
  - destruct (Hrun p eq_refl) as (e_p & last & Hp & Hreg).
    destruct (Pause_shape p now s0 e_p last) as ([] & s1 & ev1 & Heq & F1 & F2 & F3 & F4 & F5 & F6).
    { rewrite Hsh. exact Hp. }
    { rewrite Hof. exact Hreg. }
    exists s1, ev1. split; [exact Heq|].
    split; [exact F1|]. split; [exact F2|]. split; [exact F3|].
    split; [congruence|]. split.
    + intros e. rewrite F5, Hof. destruct (decide (e = e_p)) as [->|Hne].
      * rewrite Hreg. reflexivity.
      * destruct (cpu_timer_of s e) as [[q|]|] eqn:He; [|reflexivity..].
        destruct (Hexcl e q He) as [Hq (last' & Hq')].
        assert (q = p) as -> by congruence. congruence.
    + intros e. rewrite F6, Hwof. reflexivity.
  - exists s0, []. split; [reflexivity|].
    split; [reflexivity|]. split; [reflexivity|]. split; [reflexivity|].
    split; [exact Hcpu|]. split.
    + intros e. rewrite Hof.
      destruct (cpu_timer_of s e) as [[q|]|] eqn:He; [|reflexivity..].
      destruct (Hexcl e q He) as [Hq _]. discriminate.
    + exact Hwof.
Qed.

Lemma wall_running_of s e w :
  wall_timer_of s e = Some w → wall_running e s = bool_decide (is_Some w).
Proof.
  unfold wall_timer_of, wall_running.
  destruct (executors s !! e) as [x|]; [|discriminate]. intros [= <-]. reflexivity.
Qed.

Lemma WallTimer_ctor_shape self ex now_cpu now s w :
  settled s →
  wall_timer_of s ex = Some w →
  returns (WallTimer_ctor self ex now_cpu now) s (λ _ s',
    cpu_timer_thread s' = cpu_timer_thread s ∧ current s' = current s ∧
    wall_timers s' =
      <[self := mkWallTimer ex (cpu_timer_thread s)
                  (if wall_running ex s then None else Some now)]> (wall_timers s) ∧
    (∀ a, cpu_timer_shape s' a = cpu_timer_shape s a) ∧
    (∀ e, cpu_timer_of s' e = (λ _, None) <$> cpu_timer_of s e) ∧
    (∀ e, wall_timer_of s' e =
            if decide (e = ex) then Some (Some (default self w)) else wall_timer_of s e)).
Proof.
  intros Hsettled Hw.
  rewrite (wall_running_of _ _ _ Hw).
  pose (s0 := with_wall_timers
                (<[self := mkWallTimer ex (cpu_timer_thread s) None]> (wall_timers s)) s).
  destruct (pause_thread_shape s s0 now_cpu Hsettled eq_refl eq_refl)
    as (s1 & ev1 & Heq & F1 & F2 & F3 & F4 & F5 & F6).
  assert (∃ x, executors s1 !! ex = Some x ∧ wall_timer x = w) as (x & Hx & Hxw).
  { specialize (F6 ex). rewrite Hw in F6. unfold wall_timer_of in F6.
    destruct (executors s1 !! ex) as [x|]; [|discriminate].
    injection F6 as F6. eauto. }
  assert (∀ a, cpu_timer_shape s1 a = cpu_timer_shape s a) as Hsh
    by (intros a; unfold cpu_timer_shape; rewrite F4; reflexivity).
  unfold returns. rewrite WallTimer_ctor_cases. cbv zeta. fold s0. rewrite Heq, Hx.
  destruct w as [b|]; subst.
  - rewrite bool_decide_eq_false_2 by (rewrite Hxw; discriminate).
    rewrite bool_decide_eq_true_2 by eauto.
    eexists tt, s1, _. split; [reflexivity|].
    split; [exact F1|]. split; [exact F2|]. split; [rewrite F3|].
    { unfold s0. reflexivity. }
    split; [exact Hsh|]. split; [exact F5|].
    intros e. rewrite F6. destruct (decide (e = ex)) as [->|]; [|reflexivity].
    rewrite Hw. reflexivity.
  - rewrite bool_decide_eq_true_2 by exact Hxw.
    rewrite bool_decide_eq_false_2 by (intros [? ?]; discriminate).
    eexists tt, _, _. split; [reflexivity|].
    split; [exact F1|]. split; [exact F2|]. split.
    { cbn. rewrite F3. unfold s0. cbn. rewrite insert_insert_eq. reflexivity. }
    split; [exact Hsh|]. split.
    + intros e. rewrite <- F5. unfold cpu_timer_of. cbn.
      destruct (decide (e = ex)) as [->|].
      * rewrite lookup_insert_eq, Hx. reflexivity.
      * rewrite lookup_insert_ne by congruence. reflexivity.
    + intros e. rewrite <- F6. unfold wall_timer_of. cbn.
      destruct (decide (e = ex)) as [->|].
      * rewrite lookup_insert_eq. reflexivity.
      * rewrite lookup_insert_ne by congruence. reflexivity.
Qed.

Lemma WallTimer_dtor_shape self now_cpu now s W home w :
  wall_timers s !! self = Some W →
  (∀ p, WallTimer_cpu_timer W = Some p →
     ∃ last, cpu_timer_shape s p = Some (home, last) ∧ cpu_timer_of s home = Some None) →
  wall_timer_of s (WallTimer_executor W) = Some w →
  (w = Some self → is_Some (WallTimer_time W)) →
  returns (WallTimer_dtor self now_cpu now) s (λ _ s',
    cpu_timer_thread s' = cpu_timer_thread s ∧ current s' = current s ∧
    wall_timers s' = delete self (wall_timers s) ∧
    (∀ a, cpu_timer_shape s' a = cpu_timer_shape s a) ∧
    (∀ e, cpu_timer_of s' e =
            if decide (is_Some (WallTimer_cpu_timer W) ∧ e = home)
            then Some (WallTimer_cpu_timer W) else cpu_timer_of s e) ∧
    (∀ e, wall_timer_of s' e =
            if decide (e = WallTimer_executor W)
            then Some (if decide (w = Some self) then None else w)
            else wall_timer_of s e)).
Proof.
  intros HW Houter Hw Htime.
  assert (∃ s1 ev1,
            match WallTimer_cpu_timer W with
            | Some _ => Resume (WallTimer_cpu_timer W) now_cpu s
            | None => (Return tt, s, [])
            end = (Return tt, s1, ev1) ∧
            cpu_timer_thread s1 = cpu_timer_thread s ∧ current s1 = current s ∧
            wall_timers s1 = wall_timers s ∧
            (∀ a, cpu_timer_shape s1 a = cpu_timer_shape s a) ∧
            (∀ e, cpu_timer_of s1 e =
                    if decide (is_Some (WallTimer_cpu_timer W) ∧ e = home)
                    then Some (WallTimer_cpu_timer W) else cpu_timer_of s e) ∧
            (∀ e, wall_timer_of s1 e = wall_timer_of s e))
    as (s1 & ev1 & Heq & F1 & F2 & F3 & F4 & F5 & F6).
  { destruct (WallTimer_cpu_timer W) as [p|].
    - destruct (Houter p eq_refl) as (last & Hp & Hhome).
      destruct (Resume_shape p now_cpu s home last Hp Hhome)
        as ([] & s1 & ev1 & Heq & F1 & F2 & F3 & F4 & F5 & F6).
      exists s1, ev1. split; [exact Heq|]. split; [exact F1|]. split; [exact F2|].
      split; [exact F3|]. split; [exact F4|]. split; [|exact F6].
      intros e. rewrite F5. destruct (decide (e = home)) as [->|Hne].
      + rewrite decide_True by eauto. reflexivity.
      + rewrite decide_False by (intros [_ ?]; contradiction). reflexivity.
    - exists s, []. split; [reflexivity|]. split; [reflexivity|].
      split; [reflexivity|]. split; [reflexivity|]. split; [reflexivity|].
      split; [|reflexivity].
      intros e. rewrite decide_False; [reflexivity|]. intros [[? ?] _]. discriminate. }
  assert (∃ x, executors s1 !! WallTimer_executor W = Some x ∧ wall_timer x = w)
    as (x & Hx & Hxw).
  { specialize (F6 (WallTimer_executor W)). rewrite Hw in F6. unfold wall_timer_of in F6.
    destruct (executors s1 !! WallTimer_executor W) as [x|]; [|discriminate].
    injection F6 as F6. eauto. }
  unfold returns. rewrite WallTimer_dtor_cases, HW, Heq, Hx.
  destruct (decide (w = Some self)) as [Hself|Hself].
  - rewrite bool_decide_eq_true_2 by congruence.
    destruct (Htime Hself) as [since Hsince]. rewrite Hsince.
    eexists tt, _, _. split; [reflexivity|].
    split; [exact F1|]. split; [exact F2|]. split; [cbn; rewrite F3; reflexivity|].
    split; [exact F4|]. split.
    + intros e. rewrite <- F5. unfold cpu_timer_of. cbn.
      destruct (decide (e = WallTimer_executor W)) as [->|].
      * rewrite lookup_insert_eq, Hx. reflexivity.
      * rewrite lookup_insert_ne by congruence. reflexivity.
    + intros e. rewrite <- F6. unfold wall_timer_of. cbn.
      destruct (decide (e = WallTimer_executor W)) as [->|].
      * rewrite lookup_insert_eq. reflexivity.
      * rewrite lookup_insert_ne by congruence. reflexivity.
  - rewrite bool_decide_eq_false_2 by congruence.
    eexists tt, _, _. split; [reflexivity|].
    split; [exact F1|]. split; [exact F2|]. split; [cbn; rewrite F3; reflexivity|].
    split; [exact F4|]. split; [exact F5|].
    intros e. change (wall_timer_of (with_wall_timers _ s1) e) with (wall_timer_of s1 e).
    rewrite F6. destruct (decide (e = WallTimer_executor W)) as [->|]; [|reflexivity].
    exact Hw.
Qed.

Lemma is_Some_cpu_timer_of s e :
  is_Some (executors s !! e) ↔ is_Some (cpu_timer_of s e).
Proof. unfold cpu_timer_of. rewrite fmap_is_Some. reflexivity. Qed.

Lemma is_Some_wall_timer_of s e :
  is_Some (executors s !! e) ↔ is_Some (wall_timer_of s e).
Proof. unfold wall_timer_of. rewrite fmap_is_Some. reflexivity. Qed.

Lemma cpu_timer_shape_None s a :
  cpu_timers s !! a = None ↔ cpu_timer_shape s a = None.
Proof. unfold cpu_timer_shape. rewrite fmap_None. reflexivity. Qed.

Lemma Lock_ctor_locks (l : LockUse) (s : State) :
  settled s →
  is_Some (executors s !! lock_env l) →
  returns
    (Lock_ctor (lock_self l) (lock_wall_timer l) (lock_cpu_timer l) (lock_env l)
       (lock_readings l).1.1 (lock_readings l).1.2 (lock_readings l).2) s
    (λ last s1, last = current s ∧ locked l s s1).
Proof.
  intros Hsettled Henv.
  pose proof (proj1 (is_Some_cpu_timer_of s _) Henv) as [c Hc].
  pose proof (proj1 (is_Some_wall_timer_of s _) Henv) as [w Hw].
  unfold Lock_ctor. apply returns_bind, returns_get. apply returns_bind.
  eapply returns_mono; [apply (WallTimer_ctor_shape _ _ _ _ _ w Hsettled Hw)|].
  intros [] s1 (F1 & F2 & F3 & F4 & F5 & F6). cbv beta.
  apply returns_bind, returns_emit. apply returns_bind.
  eapply returns_mono; [apply CpuTimer_ctor_shape|].
  { rewrite F5, Hc. reflexivity. }
  intros [] s2 (G1 & G2 & G3 & G4 & G5 & G6). cbv beta.
  apply returns_bind, returns_modify, returns_ret.
  split; [reflexivity|]. unfold locked.
  split; [exact G1|]. split; [reflexivity|].
  split; [cbn; rewrite G3, F3; reflexivity|].
  split; [|split].
  - intros e. change (cpu_timer_of (with_current _ s2) e) with (cpu_timer_of s2 e).
    rewrite G5. destruct (decide (e = lock_env l)) as [->|].
    + rewrite Hc. reflexivity.
    + apply F5.
  - intros e. change (wall_timer_of (with_current _ s2) e) with (wall_timer_of s2 e).
    rewrite G6, F6. destruct (decide (e = lock_env l)) as [->|].
    + rewrite Hw. reflexivity.
    + destruct (wall_timer_of s e); reflexivity.
  - intros a. change (cpu_timer_shape (with_current _ s2) a) with (cpu_timer_shape s2 a).
    rewrite G4, F1. destruct (decide _); [reflexivity|apply F4].
Qed.

Lemma Lock_dtor_unlocks (l : LockUse) (s s1 : State) :
  settled s →
  is_Some (executors s !! lock_env l) →
  cpu_timers s !! lock_cpu_timer l = None →
  wall_timers s !! lock_wall_timer l = None →
  locked l s s1 →
  returns
    (Lock_dtor (current s) (lock_wall_timer l) (lock_cpu_timer l) (lock_env l)
       (unlock_readings l).1.1 (unlock_readings l).1.2 (unlock_readings l).2) s1
    (λ _ s2, same_shape s s2).
Proof.
  intros Hsettled Henv Hcpu Hwall (L1 & L2 & L3 & L4 & L5 & L6).
  pose proof Hsettled as (Hexcl & Hrun & Hwreg).
  pose proof (proj1 (is_Some_cpu_timer_of s _) Henv) as [c Hc].
  pose proof (proj1 (is_Some_wall_timer_of s _) Henv) as [w Hw].
  apply cpu_timer_shape_None in Hcpu.
  unfold Lock_dtor. apply returns_bind, returns_modify. apply returns_bind.
  eapply returns_mono;
    [apply (CpuTimer_dtor_shape _ _ _ (lock_env l) (cpu_timer_thread s))|].
  { change (cpu_timer_shape (with_current _ s1) ?a) with (cpu_timer_shape s1 a).
    rewrite L6, decide_True by reflexivity. reflexivity. }
  { change (cpu_timer_of (with_current _ s1) ?e) with (cpu_timer_of s1 e).
    rewrite L4, Hc. cbn. rewrite decide_True by reflexivity. reflexivity. }
  intros [] s2 (F1 & F2 & F3 & F4 & F5 & F6). cbv beta.
  apply returns_bind, returns_emit.
  assert (∃ home, ∀ p, cpu_timer_thread s = Some p →
            ∃ last, cpu_timer_shape s p = Some (home, last) ∧
                    cpu_timer_of s home = Some (Some p)) as [home Hhome].
  { destruct (cpu_timer_thread s) as [p|] eqn:Hp.
    - destruct (Hrun p eq_refl) as (e_p & last & H1 & H2).
      exists e_p. intros ? [= <-]. eauto.
    - exists 0. discriminate. }
  pose (W := mkWallTimer (lock_env l) (cpu_timer_thread s)
               (if wall_running (lock_env l) s then None else Some (lock_readings l).1.2)).
  assert (w ≠ Some (lock_wall_timer l)) as Hw_old.
  { intros ->. unfold wall_timer_of in Hw.
    destruct (executors s !! lock_env l) as [x|] eqn:Hx; [|discriminate].
    injection Hw as Hw. destruct (Hwreg _ _ _ Hx Hw) as (? & ? & ? & _). congruence. }
  eapply returns_mono;
    [apply (WallTimer_dtor_shape _ _ _ _ W home
              (Some (default (lock_wall_timer l) w)))|].
  { rewrite F3. change (wall_timers (with_current _ s1)) with (wall_timers s1).
    rewrite L3. apply lookup_insert_eq. }
  { cbn. intros p Hp. destruct (Hhome p Hp) as (last & H1 & H2).
    assert (p ≠ lock_cpu_timer l) as Hne by (intros ->; congruence).
    exists last. split.
    - rewrite F4, decide_False by exact Hne.
      change (cpu_timer_shape (with_current _ s1) ?a) with (cpu_timer_shape s1 a).
      rewrite L6, decide_False by exact Hne. exact H1.
    - rewrite F5. destruct (decide (home = lock_env l)); [reflexivity|].
      change (cpu_timer_of (with_current _ s1) ?e) with (cpu_timer_of s1 e).
      rewrite L4, H2. cbn. rewrite decide_False by assumption. reflexivity. }
  { cbn. rewrite F6.
    change (wall_timer_of (with_current _ s1) ?e) with (wall_timer_of s1 e).
    rewrite L5, Hw. cbn. rewrite decide_True by reflexivity. reflexivity. }
  { cbn. rewrite (wall_running_of _ _ _ Hw). destruct w as [b|]; cbn.
    - intros [= ->]. contradiction.
    - intros _. eauto. }
  intros [] s3 (G1 & G2 & G3 & G4 & G5 & G6). cbn in G5, G6.
  unfold same_shape.
  split; [congruence|]. split; [rewrite G2, F2; reflexivity|].
  split.
  { rewrite G3, F3. change (wall_timers (with_current _ s1)) with (wall_timers s1).
    rewrite L3. apply delete_insert_id, Hwall. }
  split; [|split].
  - intros e. rewrite G5.
    destruct (decide (is_Some (cpu_timer_thread s) ∧ e = home)) as [[[p Hp] ->]|Hno].
    + destruct (Hhome p Hp) as (last & H1 & H2). rewrite Hp, H2. reflexivity.
    + rewrite F5.
      change (cpu_timer_of (with_current _ s1) ?e) with (cpu_timer_of s1 e).
      rewrite L4.
      destruct (cpu_timer_of s e) as [[q|]|] eqn:He; cbn.
      * destruct (Hexcl e q He) as [Hq (last' & Hq')].
        destruct (Hhome q Hq) as (last & H1 & H2).
        exfalso. apply Hno. split; [eauto|]. congruence.
      * destruct (decide (e = lock_env l)); reflexivity.
      * destruct (decide (e = lock_env l)) as [->|]; [congruence|reflexivity].
  - intros e. rewrite G6. destruct (decide (e = lock_env l)) as [->|].
    + rewrite Hw. destruct w as [b|]; cbn.
      * rewrite decide_False by congruence. reflexivity.
      * rewrite decide_True by reflexivity. reflexivity.
    + rewrite F6.
      change (wall_timer_of (with_current _ s1) ?e) with (wall_timer_of s1 e).
      rewrite L5.
      destruct (wall_timer_of s e); cbn; [rewrite decide_False by assumption|];
        reflexivity.
  - intros a. rewrite G4, F4.
    change (cpu_timer_shape (with_current _ s1) ?a) with (cpu_timer_shape s1 a).
    rewrite L6. destruct (decide (a = lock_cpu_timer l)) as [->|]; [|reflexivity].
    symmetry. exact Hcpu.
Qed.

Lemma same_shape_refl s : same_shape s s.
Proof. repeat split. Qed.

Lemma wall_registered_of s :
  wall_registered s ↔
  ∀ e a, wall_timer_of s e = Some (Some a) →
    ∃ t since, wall_timers s !! a = Some t ∧ WallTimer_executor t = e ∧
               WallTimer_time t = Some since.
Proof.
  unfold wall_registered, wall_timer_of. split.
  - intros Hreg e a He. destruct (executors s !! e) as [x|] eqn:Hx; [|discriminate].
    injection He as He. eauto.
  - intros Hreg e x a Hx Ha. apply Hreg. rewrite Hx. cbn. rewrite Ha. reflexivity.
Qed.

Lemma settled_same_shape s s' : settled s → same_shape s s' → settled s'.
Proof.
  intros (Hexcl & Hrun & Hwreg) (S1 & S2 & S3 & S4 & S5 & S6).
  split; [|split].
  - intros e a. rewrite S4, S1, S6. apply Hexcl.
  - intros a. rewrite S1. intros Ha.
    destruct (Hrun a Ha) as (e & last & H1 & H2).
    exists e, last. rewrite S6, S4. auto.
  - apply wall_registered_of. intros e a. rewrite S5, S3.
    apply wall_registered_of, Hwreg.
Qed.

Lemma locked_same_shape l s s1 s1' : locked l s s1 → same_shape s1 s1' → locked l s s1'.
Proof.
  intros (L1 & L2 & L3 & L4 & L5 & L6) (S1 & S2 & S3 & S4 & S5 & S6).
  unfold locked. rewrite S1, S2, S3.
  split; [exact L1|]. split; [exact L2|]. split; [exact L3|].
  split; [|split].
  - intros e. rewrite S4. apply L4.
  - intros e. rewrite S5. apply L5.
  - intros a. rewrite S6. apply L6.
Qed.

Lemma locked_settled l s s1 :
  settled s →
  is_Some (executors s !! lock_env l) →
  wall_timers s !! lock_wall_timer l = None →
  locked l s s1 → settled s1.
Proof.
  intros (Hexcl & Hrun & Hwreg) Henv Hwall (L1 & L2 & L3 & L4 & L5 & L6).
  pose proof (proj1 (is_Some_cpu_timer_of s _) Henv) as [c Hc].
  pose proof (proj1 (is_Some_wall_timer_of s _) Henv) as [w Hw].
  assert (cpu_timer_shape s1 (lock_cpu_timer l) =
            Some (lock_env l, cpu_timer_thread s)) as Hcpu.
  { rewrite L6, decide_True by reflexivity. reflexivity. }
  split; [|split].
  - intros e a. rewrite L4.
    destruct (cpu_timer_of s e) as [c'|]; [|discriminate]. cbn.
    destruct (decide (e = lock_env l)) as [->|]; [|discriminate].
    intros [= <-]. split; [exact L1|]. eauto.
  - intros a. rewrite L1. intros [= <-].
    exists (lock_env l), (cpu_timer_thread s). split; [exact Hcpu|].
    rewrite L4, Hc. cbn. rewrite decide_True by reflexivity. reflexivity.
  - apply wall_registered_of. intros e a. rewrite L5, L3.
    pose proof (proj1 (wall_registered_of s) Hwreg) as Hreg.
    destruct (decide (e = lock_env l)) as [->|Hne].
    + rewrite Hw. cbn.
      destruct w as [b|]; cbn; intros [= <-].
      * destruct (Hreg _ _ Hw) as (t & since & Ht & Hrest).
        exists t, since. split; [|exact Hrest].
        rewrite lookup_insert_ne; [exact Ht|]. intros <-. congruence.
      * rewrite lookup_insert_eq. eexists _, _. split; [reflexivity|].
        split; [reflexivity|]. cbn.
        rewrite (wall_running_of _ _ _ Hw).
        rewrite bool_decide_eq_false_2 by (intros [? ?]; discriminate). reflexivity.
    + destruct (wall_timer_of s e) as [w'|] eqn:He; [|discriminate]. cbn.
      intros [= ->].
      destruct (Hreg _ _ He) as (t & since & Ht & Hrest).
      exists t, since. split; [|exact Hrest].
      rewrite lookup_insert_ne; [exact Ht|]. intros <-. congruence.
Qed.

Lemma lockable_inner l ls s s1 :
  lockable (l :: ls) s → locked l s s1 → lockable ls s1.
Proof.
  intros (Hcpu & Hwall & Hall) (L1 & L2 & L3 & L4 & L5 & L6).
  rewrite fmap_cons in Hcpu, Hwall.
  apply NoDup_cons in Hcpu as [Hcpu_l Hcpu], Hwall as [Hwall_l Hwall].
  split; [exact Hcpu|]. split; [exact Hwall|].
  intros l' Hl'.
  destruct (Hall l' (list_elem_of_further _ _ _ Hl')) as (Henv & Hc & Hw).
  split; [|split].
  - apply is_Some_cpu_timer_of. rewrite L4. apply fmap_is_Some.
    apply is_Some_cpu_timer_of, Henv.
  - apply cpu_timer_shape_None. rewrite L6, decide_False.
    + apply cpu_timer_shape_None, Hc.
    + intros Heq. apply Hcpu_l. rewrite <- Heq. apply list_elem_of_fmap_2, Hl'.
  - rewrite L3, lookup_insert_ne; [exact Hw|].
    intros Heq. apply Hwall_l. rewrite Heq. apply list_elem_of_fmap_2, Hl'.
Qed.

(** X20.  Locks nest.  From a settled state, any number of
    [Executor::Lock]s taken one inside the other on live environments, the
    same or not, and released in reverse order trip no assertion; what
    they leave has the thread-local pointers, the timer of every executor
    and the live timers as they were, and is settled again. *)
Theorem nested_locks_restore (ls : list LockUse) (s : State) :
  settled s →
  lockable ls s →
  returns (nested ls) s (λ _ s', same_shape s s' ∧ settled s').
Proof.
  revert s. induction ls as [|l ls IH]; intros s Hsettled Hlock.
  - apply returns_ret. split; [apply same_shape_refl|exact Hsettled].
  - destruct Hlock as (Hcpu & Hwall & Hall).
    destruct (Hall l (list_elem_of_here _ _)) as (Henv & Hc & Hw).
    cbn [nested]. apply returns_bind.
    eapply returns_mono; [apply (Lock_ctor_locks l s Hsettled Henv)|].
    intros last s1 [-> Hlocked]. cbv beta.
    apply returns_bind.
    eapply returns_mono; [apply (IH s1)|].
    + exact (locked_settled l s s1 Hsettled Henv Hw Hlocked).
    + exact (lockable_inner l ls s s1 (conj Hcpu (conj Hwall Hall)) Hlocked).
    + intros [] s1' [Hshape _]. cbv beta.
      eapply returns_mono;
        [apply (Lock_dtor_unlocks l s s1' Hsettled Henv Hc Hw);
         exact (locked_same_shape l s s1 s1' Hlocked Hshape)|].
      intros [] s2 Hrestored. split; [exact Hrestored|].
      exact (settled_same_shape s s2 Hsettled Hrestored).
Qed.

End LockProperties.

(** *** The time nested locks account for *)

Section LockTimeProperties.

Import Timers.
Local Open Scope Z_scope.

Lemma returns_and {A} (m : T A) s (P Q : A → State → Prop) :
  returns m s P →
  (∀ a s' ev, m s = (Return a, s', ev) → Q a s') →
  returns m s (λ a s', P a s' ∧ Q a s').
Proof.
  intros (a & s' & ev & Hm & HP) HQ. exists a, s', ev. eauto.
Qed.

Lemma Timers_bind_inv {A B} (m : T A) (k : A → T B) s b s' ev :
  Timers.bind m k s = (Return b, s', ev) →
  ∃ a s1 ev1 ev2, m s = (Return a, s1, ev1) ∧ k a s1 = (Return b, s', ev2).
Proof.
  unfold Timers.bind. destruct (m s) as [[[a|err] s1] ev1]; [|discriminate].
  destruct (k a s1) as [[o s2] ev2] eqn:Hk. intros [= -> -> _].
  exists a, s1, ev1, ev2. split; [reflexivity|exact Hk].
Qed.

Lemma advanced_refl g f : (∀ e, g e = 0) → advanced g f f.
Proof.
  intros Hg e. rewrite Hg. destruct (f e) as [c|]; cbn; [|reflexivity].
  f_equal. lia.
Qed.

Lemma advanced_trans g1 g2 g f f1 f2 :
  advanced g1 f f1 → advanced g2 f1 f2 → (∀ e, g e = g1 e + g2 e) →
  advanced g f f2.
Proof.
  intros H1 H2 Hg e. rewrite H2, H1, Hg.
  destruct (f e) as [c|]; cbn; [|reflexivity]. f_equal. lia.
Qed.

Lemma advanced_same f f' : (∀ e, f' e = f e) → advanced (λ _, 0) f f'.
Proof.
  intros Hf e. rewrite Hf. destruct (f e) as [c|]; cbn; [|reflexivity].
  f_equal. lia.
Qed.

(** Updating an executor. *)
Lemma cpu_time_of_insert s e0 x e :
  cpu_time_of (with_executors (<[e0 := x]> (executors s)) s) e =
    if decide (e = e0) then Some (cpu_time x) else cpu_time_of s e.
Proof.
  unfold cpu_time_of. cbn. destruct (decide (e = e0)) as [->|Hne].
  - rewrite lookup_insert_eq. reflexivity.
  - rewrite lookup_insert_ne by congruence. reflexivity.
Qed.

Lemma wall_time_of_insert s e0 x e :
  wall_time_of (with_executors (<[e0 := x]> (executors s)) s) e =
    if decide (e = e0) then Some (wall_time x) else wall_time_of s e.
Proof.
  unfold wall_time_of. cbn. destruct (decide (e = e0)) as [->|Hne].
  - rewrite lookup_insert_eq. reflexivity.
  - rewrite lookup_insert_ne by congruence. reflexivity.
Qed.

Lemma Pause_times a now s s' ev :
  Pause (Some a) now s = (Return tt, s', ev) →
  ∃ t, cpu_timers s !! a = Some t ∧
    cpu_timers s' = cpu_timers s ∧
    advanced (λ e, if decide (e = CpuTimer_executor t) then now - CpuTimer_time t else 0)
      (cpu_time_of s) (cpu_time_of s') ∧
    (∀ e, wall_time_of s' e = wall_time_of s e).
Proof.
  rewrite Pause_cases.
  destruct (cpu_timers s !! a) as [t|]; [|discriminate].
  destruct (executors s !! CpuTimer_executor t) as [x|] eqn:Hx; [|discriminate].
  case_bool_decide; [|discriminate].
  intros [= <- _]. exists t. split; [reflexivity|]. split; [reflexivity|]. split.
  - intros e. rewrite cpu_time_of_insert. unfold cpu_time_of.
    destruct (decide (e = CpuTimer_executor t)) as [->|].
    + rewrite Hx. reflexivity.
    + destruct (executors s !! e); cbn; [|reflexivity]. f_equal. lia.
  - intros e. rewrite wall_time_of_insert. unfold wall_time_of.
    destruct (decide (e = CpuTimer_executor t)) as [->|]; [|reflexivity].
    rewrite Hx. reflexivity.
Qed.

Lemma Resume_times a now s s' ev :
  Resume (Some a) now s = (Return tt, s', ev) →
  ∃ t, cpu_timers s !! a = Some t ∧
    cpu_timers s' =
      <[a := mkCpuTimer (CpuTimer_executor t) (CpuTimer_last t) now]> (cpu_timers s) ∧
    (∀ e, cpu_time_of s' e = cpu_time_of s e) ∧
    (∀ e, wall_time_of s' e = wall_time_of s e) ∧
    (∀ e, wall_timer_of s' e = wall_timer_of s e).
Proof.
  rewrite Resume_cases.
  destruct (cpu_timers s !! a) as [t|]; [|discriminate]. cbv zeta.
  destruct (executors s !! CpuTimer_executor t) as [x|] eqn:Hx; [|discriminate].
  case_bool_decide; [|discriminate].
  intros [= <- _]. exists t. split; [reflexivity|]. split; [reflexivity|].
  split; [|split].
  - intros e. unfold cpu_time_of. cbn.
    destruct (decide (e = CpuTimer_executor t)) as [->|].
    + rewrite lookup_insert_eq, Hx. reflexivity.
    + rewrite lookup_insert_ne by congruence. reflexivity.
  - intros e. unfold wall_time_of. cbn.
    destruct (decide (e = CpuTimer_executor t)) as [->|].
    + rewrite lookup_insert_eq, Hx. reflexivity.
    + rewrite lookup_insert_ne by congruence. reflexivity.
  - intros e. unfold wall_timer_of. cbn.
    destruct (decide (e = CpuTimer_executor t)) as [->|].
    + rewrite lookup_insert_eq, Hx. reflexivity.
    + rewrite lookup_insert_ne by congruence. reflexivity.
Qed.

Lemma CpuTimer_ctor_times self ex now s s' ev :
  CpuTimer_ctor self ex now s = (Return tt, s', ev) →
  cpu_timers s' = <[self := mkCpuTimer ex (cpu_timer_thread s) now]> (cpu_timers s) ∧
  (∀ e, cpu_time_of s' e = cpu_time_of s e) ∧
  (∀ e, wall_time_of s' e = wall_time_of s e).
Proof.
  rewrite CpuTimer_ctor_cases. cbv zeta.
  destruct (executors s !! ex) as [x|] eqn:Hx; [|discriminate].
  case_bool_decide; [|discriminate].
  intros [= <- _]. split; [reflexivity|]. split.
  - intros e. unfold cpu_time_of. cbn.
    destruct (decide (e = ex)) as [->|].
    + rewrite lookup_insert_eq, Hx. reflexivity.
    + rewrite lookup_insert_ne by congruence. reflexivity.
  - intros e. unfold wall_time_of. cbn.
    destruct (decide (e = ex)) as [->|].
    + rewrite lookup_insert_eq, Hx. reflexivity.
    + rewrite lookup_insert_ne by congruence. reflexivity.
Qed.

Lemma CpuTimer_dtor_times self now s s' ev :
  CpuTimer_dtor self now s = (Return tt, s', ev) →
  ∃ t, cpu_timers s !! self = Some t ∧
    cpu_timers s' = delete self (cpu_timers s) ∧
    wall_timers s' = wall_timers s ∧
    advanced (λ e, if decide (e = CpuTimer_executor t) then now - CpuTimer_time t else 0)
      (cpu_time_of s) (cpu_time_of s') ∧
    (∀ e, wall_time_of s' e = wall_time_of s e) ∧
    (∀ e, wall_timer_of s' e = wall_timer_of s e).
Proof.
  rewrite CpuTimer_dtor_cases.
  destruct (cpu_timers s !! self) as [t|]; [|discriminate]. cbv zeta.
  destruct (executors s !! CpuTimer_executor t) as [x|] eqn:Hx; [|discriminate].
  case_bool_decide; [|discriminate].
  intros [= <- _]. exists t. split; [reflexivity|]. split; [reflexivity|].
  split; [reflexivity|]. split; [|split].
  - intros e. unfold cpu_time_of. cbn.
    destruct (decide (e = CpuTimer_executor t)) as [->|].
    + rewrite lookup_insert_eq, Hx. reflexivity.
    + rewrite lookup_insert_ne by congruence.
      destruct (executors s !! e); cbn; [|reflexivity]. f_equal. lia.
  - intros e. unfold wall_time_of. cbn.
    destruct (decide (e = CpuTimer_executor t)) as [->|].
    + rewrite lookup_insert_eq, Hx. reflexivity.
    + rewrite lookup_insert_ne by congruence. reflexivity.
  - intros e. unfold wall_timer_of. cbn.
    destruct (decide (e = CpuTimer_executor t)) as [->|].
    + rewrite lookup_insert_eq, Hx. reflexivity.
    + rewrite lookup_insert_ne by congruence. reflexivity.
Qed.

Lemma WallTimer_ctor_times self ex now_cpu now s s' ev :
  WallTimer_ctor self ex now_cpu now s = (Return tt, s', ev) →
  cpu_timers s' = cpu_timers s ∧
  advanced (pause_gain s now_cpu) (cpu_time_of s) (cpu_time_of s') ∧
  (∀ e, wall_time_of s' e = wall_time_of s e).
Proof.
  rewrite WallTimer_ctor_cases. cbv zeta.
  set (s0 := with_wall_timers _ s).
  destruct (match cpu_timer_thread s with
            | Some _ => Pause (cpu_timer_thread s) now_cpu s0
            | None => (Return tt, s0, [])
            end) as [[[[]|err] s1] ev1] eqn:Hp; [|discriminate].
  assert (cpu_timers s1 = cpu_timers s ∧
          advanced (pause_gain s now_cpu) (cpu_time_of s) (cpu_time_of s1) ∧
          (∀ e, wall_time_of s1 e = wall_time_of s e)) as (C1 & C2 & C3).
  { unfold pause_gain. destruct (cpu_timer_thread s) as [a|].
    - destruct (Pause_times _ _ _ _ _ Hp) as (t & Ht & P1 & P2 & P3).
      change (cpu_timers s0) with (cpu_timers s) in Ht, P1. rewrite Ht.
      split; [exact P1|]. split; [exact P2|exact P3].
    - injection Hp as <- _. split; [reflexivity|]. split; [|reflexivity].
      apply advanced_refl. reflexivity. }
  destruct (executors s1 !! ex) as [x|] eqn:Hx; [|discriminate].
  case_bool_decide.
  - intros [= <- _]. split; [exact C1|]. split.
    + intros e. rewrite <- C2. unfold cpu_time_of. cbn.
      destruct (decide (e = ex)) as [->|].
      * rewrite lookup_insert_eq, Hx. reflexivity.
      * rewrite lookup_insert_ne by congruence. reflexivity.
    + intros e. rewrite <- C3. unfold wall_time_of. cbn.
      destruct (decide (e = ex)) as [->|].
      * rewrite lookup_insert_eq, Hx. reflexivity.
      * rewrite lookup_insert_ne by congruence. reflexivity.
  - intros [= <- _]. split; [exact C1|]. split; [exact C2|exact C3].
Qed.

Lemma WallTimer_dtor_times self now_cpu now s s' ev :
  WallTimer_dtor self now_cpu now s = (Return tt, s', ev) →
  ∃ W, wall_timers s !! self = Some W ∧
    (∀ a, cpu_timer_since s' a =
            if decide (WallTimer_cpu_timer W = Some a)
            then Some now_cpu else cpu_timer_since s a) ∧
    (∀ e, cpu_time_of s' e = cpu_time_of s e) ∧
    advanced
      (λ e, if decide (e = WallTimer_executor W ∧ wall_timer_of s e = Some (Some self))
            then now - default 0 (WallTimer_time W) else 0)
      (wall_time_of s) (wall_time_of s').
Proof.
  rewrite WallTimer_dtor_cases.
  destruct (wall_timers s !! self) as [W|]; [|discriminate].
  destruct (match WallTimer_cpu_timer W with
            | Some _ => Resume (WallTimer_cpu_timer W) now_cpu s
            | None => (Return tt, s, [])
            end) as [[[[]|err] s1] ev1] eqn:Hp; [|discriminate].
  assert ((∀ a, cpu_timer_since s1 a =
                  if decide (WallTimer_cpu_timer W = Some a)
                  then Some now_cpu else cpu_timer_since s a) ∧
          (∀ e, cpu_time_of s1 e = cpu_time_of s e) ∧
          (∀ e, wall_time_of s1 e = wall_time_of s e) ∧
          (∀ e, wall_timer_of s1 e = wall_timer_of s e)) as (C1 & C2 & C3 & C4).
  { destruct (WallTimer_cpu_timer W) as [p|].
    - destruct (Resume_times _ _ _ _ _ Hp) as (t & Ht & R1 & R2 & R3 & R4).
      split; [|split; [exact R2|split; [exact R3|exact R4]]].
      intros a. unfold cpu_timer_since. rewrite R1.
      destruct (decide (Some p = Some a)) as [[= <-]|Hne].
      + rewrite lookup_insert_eq. reflexivity.
      + rewrite lookup_insert_ne by congruence. reflexivity.
    - injection Hp as <- _. split; [|split; [|split]]; reflexivity. }
  intros Hret. exists W. split; [reflexivity|].
  destruct (executors s1 !! WallTimer_executor W) as [x|] eqn:Hx; [|discriminate].
  assert (wall_timer_of s (WallTimer_executor W) = Some (wall_timer x)) as Hreg.
  { rewrite <- C4. unfold wall_timer_of. rewrite Hx. reflexivity. }
  case_bool_decide as Hself.
  - destruct (WallTimer_time W) as [since|]; [|discriminate].
    injection Hret as <- _. split; [exact C1|]. split.
    + intros e. rewrite <- C2. unfold cpu_time_of. cbn.
      destruct (decide (e = WallTimer_executor W)) as [->|].
      * rewrite lookup_insert_eq, Hx. reflexivity.
      * rewrite lookup_insert_ne by congruence. reflexivity.
    + intros e. rewrite <- C3. unfold wall_time_of. cbn.
      destruct (decide (e = WallTimer_executor W)) as [->|Hne].
      * rewrite lookup_insert_eq, Hx. cbn.
        rewrite decide_True by (split; [reflexivity|congruence]). reflexivity.
      * rewrite lookup_insert_ne by congruence.
        rewrite decide_False by (intros [? _]; contradiction).
        destruct (executors s1 !! e); cbn; [|reflexivity]. f_equal. lia.
  - injection Hret as <- _. split; [exact C1|]. split; [exact C2|].
    intros e. change (wall_time_of (with_wall_timers _ s1) e) with (wall_time_of s1 e).
    rewrite C3. rewrite decide_False.
    + destruct (wall_time_of s e); cbn; [|reflexivity]. f_equal. lia.
    + intros [-> He]. congruence.
Qed.

Lemma Lock_ctor_times self wt ct env p w c s last s1 ev :
  Lock_ctor self wt ct env p w c s = (Return last, s1, ev) →
  (∀ a, cpu_timer_since s1 a =
          if decide (a = ct) then Some c else cpu_timer_since s a) ∧
  advanced (pause_gain s p) (cpu_time_of s) (cpu_time_of s1) ∧
  (∀ e, wall_time_of s1 e = wall_time_of s e).
Proof.
  unfold Lock_ctor. rewrite Timers_bind_get.
  intros H. apply Timers_bind_inv in H as ([] & s2 & ev2 & ev2' & Hw & H).
  apply Timers_bind_inv in H as ([] & s3 & ev3 & ev3' & [= <- _] & H).
  apply Timers_bind_inv in H as ([] & s4 & ev4 & ev4' & Hc & H).
  apply Timers_bind_inv in H as ([] & s5 & ev5 & ev5' & [= <-] & [= _ <- _]).
  destruct (WallTimer_ctor_times _ _ _ _ _ _ _ Hw) as (W1 & W2 & W3).
  destruct (CpuTimer_ctor_times _ _ _ _ _ _ Hc) as (C1 & C2 & C3).
  split; [|split].
  - intros a. unfold cpu_timer_since. cbn. rewrite C1, W1.
    destruct (decide (a = ct)) as [->|].
    + rewrite lookup_insert_eq. reflexivity.
    + rewrite lookup_insert_ne by congruence. reflexivity.
  - intros e. change (cpu_time_of (with_current _ s4) e) with (cpu_time_of s4 e).
    rewrite C2. apply W2.
  - intros e. change (wall_time_of (with_current _ s4) e) with (wall_time_of s4 e).
    rewrite C3. apply W3.
Qed.

Lemma Lock_dtor_times last wt ct env d r uw s1 u s2 ev :
  Lock_dtor last wt ct env d r uw s1 = (Return u, s2, ev) →
  ∃ t W, cpu_timers s1 !! ct = Some t ∧ wall_timers s1 !! wt = Some W ∧
    (∀ a, cpu_timer_since s2 a =
            if decide (WallTimer_cpu_timer W = Some a) then Some r
            else if decide (a = ct) then None else cpu_timer_since s1 a) ∧
    advanced (λ e, if decide (e = CpuTimer_executor t) then d - CpuTimer_time t else 0)
      (cpu_time_of s1) (cpu_time_of s2) ∧
    advanced
      (λ e, if decide (e = WallTimer_executor W ∧ wall_timer_of s1 e = Some (Some wt))
            then uw - default 0 (WallTimer_time W) else 0)
      (wall_time_of s1) (wall_time_of s2).
Proof.
  unfold Lock_dtor. rewrite Timers_bind_modify.
  intros H. apply Timers_bind_inv in H as ([] & s3 & ev3 & ev3' & Hc & H).
  apply Timers_bind_inv in H as ([] & s4 & ev4 & ev4' & [= <- _] & Hw).
  destruct u.
  destruct (CpuTimer_dtor_times _ _ _ _ _ Hc) as (t & Ht & C1 & C2 & C3 & C4 & C5).
  destruct (WallTimer_dtor_times _ _ _ _ _ _ Hw) as (W & HW & W1 & W2 & W3).
  exists t, W. split; [exact Ht|]. split; [rewrite <- HW, C2; reflexivity|].
  split; [|split].
  - intros a. rewrite W1. destruct (decide _); [reflexivity|].
    unfold cpu_timer_since. rewrite C1.
    destruct (decide (a = ct)) as [->|].
    + rewrite lookup_delete_eq. reflexivity.
    + rewrite lookup_delete_ne by congruence. reflexivity.
  - intros e. rewrite W2. apply C3.
  - intros e. rewrite W3, C4.
    change (wall_timer_of (with_current last s1) e) with (wall_timer_of s1 e) in C5.
    rewrite C5. reflexivity.
Qed.

Lemma wall_running_same s s' e :
  wall_timer_of s' e = wall_timer_of s e → wall_running e s' = wall_running e s.
Proof.
  unfold wall_timer_of, wall_running.
  destruct (executors s' !! e) as [x'|], (executors s !! e) as [x|]; cbn;
    try discriminate; [|reflexivity].
  intros [= ->]. reflexivity.
Qed.

Lemma nested_locks_account (ls : list LockUse) (s : State) :
  settled s → lockable ls s →
  returns (nested ls) s (λ _ s',
    same_shape s s' ∧ settled s' ∧
    advanced (λ e, cpu_gain ls e + outer_gain ls s e) (cpu_time_of s) (cpu_time_of s') ∧
    advanced (λ e, if wall_running e s then 0 else wall_gain ls e)
      (wall_time_of s) (wall_time_of s') ∧
    (∀ a, cpu_timer_since s' a =
            match ls with
            | l :: _ => if decide (cpu_timer_thread s = Some a)
                        then Some (unlock_readings l).1.2 else cpu_timer_since s a
            | [] => cpu_timer_since s a
            end)).
Proof.
  revert s. induction ls as [|l ls IH]; intros s Hsettled Hlock.
  - apply returns_ret. split; [apply same_shape_refl|]. split; [exact Hsettled|].
    split; [apply advanced_refl; reflexivity|]. split; [|reflexivity].
    apply advanced_refl. intros e. destruct (wall_running e s); reflexivity.
  - destruct Hlock as (Hcpu & Hwall & Hall).
    destruct (Hall l (list_elem_of_here _ _)) as (Henv & Hc & Hw).
    cbn [nested]. apply returns_bind.
    eapply returns_mono;
      [apply returns_and; [apply (Lock_ctor_locks l s Hsettled Henv)|]|].
    { intros last s1 ev. apply Lock_ctor_times. }
    intros last s1 [[-> Hlocked] (T1 & T2 & T3)]. cbv beta.
    apply returns_bind.
    eapply returns_mono; [apply (IH s1)|].
    + exact (locked_settled l s s1 Hsettled Henv Hw Hlocked).
    + exact (lockable_inner l ls s s1 (conj Hcpu (conj Hwall Hall)) Hlocked).
    + intros [] s1' (Hshape & _ & I1 & I2 & I3). cbv beta.
      eapply returns_mono;
        [apply returns_and;
           [apply (Lock_dtor_unlocks l s s1' Hsettled Henv Hc Hw);
            exact (locked_same_shape l s s1 s1' Hlocked Hshape)|]|].
      { intros u s2 ev. apply Lock_dtor_times. }
      intros [] s2 [Hrestored (t & W & Ht & HW & D1 & D2 & D3)].
      split; [exact Hrestored|].
      split; [exact (settled_same_shape s s2 Hsettled Hrestored)|].
      destruct Hlocked as (L1 & L2 & L3 & L4 & L5 & L6).
      destruct Hshape as (S1 & S2 & S3 & S4 & S5 & S6).
      (* the two timers of the lock *)
      assert (CpuTimer_executor t = lock_env l) as Ht_env.
      { specialize (S6 (lock_cpu_timer l)). rewrite L6, decide_True in S6 by reflexivity.
        unfold cpu_timer_shape in S6. rewrite Ht in S6. cbn in S6. congruence. }
      assert (cpu_timer_since s1' (lock_cpu_timer l) = Some (CpuTimer_time t)) as Ht_time
        by (unfold cpu_timer_since; rewrite Ht; reflexivity).
      assert (W = mkWallTimer (lock_env l) (cpu_timer_thread s)
                    (if wall_running (lock_env l) s then None
                     else Some (lock_readings l).1.2)) as ->.
      { rewrite S3, L3, lookup_insert_eq in HW. congruence. }
      cbn [WallTimer_executor WallTimer_cpu_timer WallTimer_time] in D1, D3.
      assert (∃ t1, cpu_timers s1 !! lock_cpu_timer l = Some t1 ∧
                    CpuTimer_executor t1 = lock_env l ∧
                    CpuTimer_time t1 = (lock_readings l).2) as (t1 & Ht1 & Ht1_env & Ht1_time).
      { specialize (L6 (lock_cpu_timer l)). rewrite decide_True in L6 by reflexivity.
        specialize (T1 (lock_cpu_timer l)). rewrite decide_True in T1 by reflexivity.
        unfold cpu_timer_shape in L6. unfold cpu_timer_since in T1.
        destruct (cpu_timers s1 !! lock_cpu_timer l) as [t1|]; [|discriminate].
        exists t1. cbn in L6, T1. split; [reflexivity|]. split; congruence. }
      split; [|split].
      * (* CPU time *)
        eapply advanced_trans; [exact T2| |].
        { eapply advanced_trans; [exact I1|exact D2|]. intros e. reflexivity. }
        intros e. cbv beta. cbn [cpu_gain outer_gain]. rewrite Ht_env.
        rewrite I3 in Ht_time.
        destruct ls as [|l' ls'].
        -- cbn [cpu_gain outer_gain].
           rewrite T1, decide_True in Ht_time by reflexivity.
           injection Ht_time as <-.
           destruct (decide (e = lock_env l)); lia.
        -- cbn [outer_gain]. rewrite decide_True in Ht_time by exact L1.
           injection Ht_time as <-.
           assert (pause_gain s1 (lock_readings l').1.1 e =
                     if decide (e = lock_env l)
                     then (lock_readings l').1.1 - (lock_readings l).2 else 0) as ->
             by (unfold pause_gain; rewrite L1, Ht1, Ht1_env, Ht1_time; reflexivity).
           destruct (decide (e = lock_env l)); lia.
      * (* wall time *)
        eapply advanced_trans; [apply advanced_same; exact T3| |].
        { eapply advanced_trans; [exact I2|exact D3|]. intros e. reflexivity. }
        intros e. cbv beta. cbn [wall_gain]. rewrite S5, L5.
        pose proof (proj1 (is_Some_wall_timer_of s _) Henv) as [w Hw'].
        destruct (decide (e = lock_env l)) as [->|Hne].
        -- assert (wall_running (lock_env l) s1 = true) as ->.
           { apply (wall_running_of _ _ (Some (default (lock_wall_timer l) w))).
             - rewrite L5, Hw'. cbn. rewrite decide_True by reflexivity. reflexivity. }
           rewrite Hw'. cbn. rewrite (wall_running_of _ _ _ Hw').
           destruct w as [b|]; cbn.
           ++ rewrite decide_False; [lia|].
              intros [_ [= ->]].
              destruct Hsettled as (_ & _ & Hwreg).
              destruct (proj1 (wall_registered_of s) Hwreg _ _ Hw') as (? & ? & ? & _).
              congruence.
           ++ rewrite decide_True by (split; reflexivity). lia.
        -- rewrite decide_False by (intros [? _]; contradiction).
           rewrite (wall_running_same s s1 e).
           ++ destruct (wall_running e s); lia.
           ++ rewrite L5. destruct (wall_timer_of s e); cbn; [|reflexivity].
              rewrite decide_False by exact Hne. reflexivity.
      * (* the timers *)
        intros a. rewrite D1.
        destruct (decide (cpu_timer_thread s = Some a)) as [Hthread|Hthread];
          [reflexivity|].
        destruct (decide (a = lock_cpu_timer l)) as [->|Hne].
        -- unfold cpu_timer_since. rewrite Hc. reflexivity.
        -- rewrite I3.
           assert (cpu_timer_since s1 a = cpu_timer_since s a) as Hsame
             by (rewrite T1, decide_False by exact Hne; reflexivity).
           destruct ls as [|l' ls']; [exact Hsame|].
           rewrite decide_False; [exact Hsame|]. rewrite L1. congruence.
Qed.

(** X25.  What nested locks count.  From a settled state, the locks of
    [ls] taken one inside the other and released in reverse order leave
    every environment with its CPU time grown by the time the timers of
    its own locks ran (from construction to the pause by the next lock
    inside, and from the resumption by that lock to destruction), and,
    for the environment of the timer found running on the thread, by the
    time up to the first pause; its wall time has grown by the span of
    the outermost lock on it, constructor reading to destructor reading,
    and not at all when a wall timer was registered for it before. *)
Theorem nested_locks_time_accounting (ls : list LockUse) (s : State) :
  settled s →
  lockable ls s →
  returns (nested ls) s (λ _ s',
    ∀ e x, executors s !! e = Some x →
      ∃ x', executors s' !! e = Some x' ∧
        cpu_time x' = cpu_time x + cpu_gain ls e + outer_gain ls s e ∧
        wall_time x' =
          wall_time x + (if wall_running e s then 0 else wall_gain ls e)).
Proof.
  intros Hsettled Hlock.
  eapply returns_mono; [apply (nested_locks_account ls s Hsettled Hlock)|].
  intros [] s' (_ & _ & Hcpu & Hwall & _) e x Hx. cbv beta.
  specialize (Hcpu e). specialize (Hwall e).
  unfold cpu_time_of in Hcpu. unfold wall_time_of in Hwall.
  rewrite Hx in Hcpu, Hwall.
  destruct (executors s' !! e) as [x'|]; [|discriminate].
  injection Hcpu as Hcpu. injection Hwall as Hwall.
  exists x'. split; [reflexivity|]. split; [lia|exact Hwall].
Qed.

End LockTimeProperties.

Section ScopeProperties.

Import Timers.

Lemma Resume_returns a t x now s :
  cpu_timers s !! a = Some t →
  executors s !! CpuTimer_executor t = Some x →
  cpu_timer x = None →
  Resume (Some a) now s =
    (Return tt,
     with_executors (<[CpuTimer_executor t := with_cpu_timer (Some a) x]> (executors s))
       (with_cpu_timers
          (<[a := mkCpuTimer (CpuTimer_executor t) (CpuTimer_last t) now]> (cpu_timers s))
          s),
     [EvTimerResume (CpuTimer_executor t)]).
Proof.
  intros Ht Hx Hnone. rewrite Resume_cases, Ht. cbv zeta.
  rewrite Hx, bool_decide_eq_true_2 by exact Hnone. reflexivity.
Qed.

Lemma Timers_bind_ret {A B} (m : T A) (b : B) s a s' ev :
  m s = (Return a, s', ev) →
  Timers.bind m (λ _, Timers.ret b) s = (Return b, s', ev).
Proof.
  intros Hm. rewrite (Timers_bind_Return _ _ _ _ _ _ Hm). cbn.
  rewrite app_nil_r. reflexivity.
Qed.

(** X23.  An [UnpauseScope] inside a [PauseScope], on a running timer:
    the timer is paused, resumed, paused and resumed, with [timer_t] told
    each time; [cpu_time] gains what ran up to the first pause and what ran
    between the inner resume and the inner pause, and nothing else; the
    timer restarts at the reading of the last resume. *)
Theorem UnpauseScope_inside_PauseScope (env : EnvPtr) (a : TimerPtr) (t : CpuTimer)
    (x : Executor) (t1 t2 t3 t4 : Z) (s : State) :
  executors s !! env = Some x →
  cpu_timer x = Some a →
  cpu_timers s !! a = Some t →
  CpuTimer_executor t = env →
  paused_unpaused (Some a) t1 t2 t3 t4 s =
    (Return tt,
     with_executors
       (<[env := with_cpu_time (cpu_time x + (t1 - CpuTimer_time t) + (t3 - t2)) x]>
          (executors s))
       (with_cpu_timers (<[a := mkCpuTimer env (CpuTimer_last t) t4]> (cpu_timers s)) s),
     [EvTimerPause env; EvTimerResume env; EvTimerPause env; EvTimerResume env]).
Proof.
  intros Hx Ha Ht <-.
  unfold paused_unpaused, PauseScope_ctor, PauseScope_dtor, UnpauseScope_ctor,
    UnpauseScope_dtor.
  rewrite (Timers_bind_Return _ _ _ _ _ _
             (Timers_bind_ret _ (Some a) _ _ _ _ (Pause_returns a t x t1 s Ht Hx Ha))).
  set (s1 := with_executors _ s).
  assert (Resume (Some a) t2 s1 = _) as H2
    by (apply (Resume_returns a t (stopped t t1 x) t2 s1 Ht);
        [apply lookup_insert_eq|reflexivity]).
  rewrite (Timers_bind_Return _ _ _ _ _ _ (Timers_bind_ret _ (Some a) _ _ _ _ H2)).
  cbn [CpuTimer_executor CpuTimer_last].
  set (s2 := with_executors _ (with_cpu_timers _ s1)).
  assert (Pause (Some a) t3 s2 = _) as H3
    by (apply (Pause_returns a (mkCpuTimer (CpuTimer_executor t) (CpuTimer_last t) t2)
                 (with_cpu_timer (Some a) (stopped t t1 x)) t3 s2);
        [apply lookup_insert_eq|apply lookup_insert_eq|reflexivity]).
  rewrite (Timers_bind_Return _ _ _ _ _ _ H3).
  cbn [CpuTimer_executor CpuTimer_last CpuTimer_time].
  set (s3 := with_executors _ s2).
  assert (Resume (Some a) t4 s3 = _) as H4
    by (apply (Resume_returns a (mkCpuTimer (CpuTimer_executor t) (CpuTimer_last t) t2)
                 (stopped (mkCpuTimer (CpuTimer_executor t) (CpuTimer_last t) t2) t3
                    (with_cpu_timer (Some a) (stopped t t1 x))) t4 s3);
        [apply lookup_insert_eq|apply lookup_insert_eq|reflexivity]).
  rewrite H4.
  unfold s3, s2, s1, with_executors, with_cpu_timers, with_cpu_timer, with_cpu_time,
    stopped.
  cbn. rewrite !insert_insert_eq, Ha. reflexivity.
Qed.

End ScopeProperties.

(** ** The end of a task *)

Section TaskProperties.

Context {I : Type} `{Engine I} `{EngineTasks I}.
Variable RunMicrotasks : TaskWorld I → TaskWorld I.

Lemma pressure_checked_none (w : World I) :
  memory_pressure (env (pressure_checked w)) = kNone.
Proof.
  unfold pressure_checked, CheckMemoryPressure, bind, get.
  case_bool_decide as Hp; cbn; [reflexivity|].
  destruct (memory_pressure (env w)); [reflexivity|discriminate Hp..].
Qed.

(** X21.  [TaskEpilogue] after the microtasks have run and parked
    pressure has been delivered: with [hit_memory_limit] set it throws the
    fatal error and keeps a rejection that is pending; otherwise a pending
    rejection of this environment is handed to the engine and cleared and
    the runtime error is thrown, so that an epilogue that follows, with no
    microtask to run, returns; with nothing pending it returns. *)
Theorem rejected_promise_reported_once (tw : TaskWorld I) :
  let tw1 := RunMicrotasks tw in
  let w2 := pressure_checked (world tw1) in
  let pending := rejected_promise_error tw1 in
  (hit_memory_limit (env w2) = true →
     TaskEpilogue RunMicrotasks tw =
       (Stopped (throw (js_fatal_error
          "Isolate was disposed during execution due to memory limit")),
        mkTaskWorld w2 pending, [])) ∧
  (hit_memory_limit (env w2) = false → pending !! this (env w2) = None →
     TaskEpilogue RunMicrotasks tw = (Return tt, mkTaskWorld w2 pending, [])) ∧
  (∀ v, hit_memory_limit (env w2) = false → pending !! this (env w2) = Some v →
     let reported :=
       mkTaskWorld (with_v8 (ThrowException v (v8 w2)) w2)
         (delete (this (env w2)) pending) in
     TaskEpilogue RunMicrotasks tw = (Stopped (throw js_runtime_error), reported, []) ∧
     (RunMicrotasks reported = reported →
        TaskEpilogue RunMicrotasks reported = (Return tt, reported, []))).
Proof.
  intros tw1 w2 pending.
  assert (CheckMemoryPressure (world tw1) = (Return tt, w2, [])) as Hcheck
    by apply CheckMemoryPressure_returns.
  split; [|split].
  - intros Hhit. unfold TaskEpilogue. fold tw1. rewrite Hcheck, Hhit. reflexivity.
  - intros Hhit Hnone. unfold TaskEpilogue. fold tw1. rewrite Hcheck, Hhit.
    fold pending. rewrite Hnone. reflexivity.
  - intros v Hhit Hsome reported. split.
    + unfold TaskEpilogue. fold tw1. rewrite Hcheck, Hhit.
      fold pending. rewrite Hsome. reflexivity.
    + intros Hquiet. unfold TaskEpilogue. rewrite Hquiet.
      rewrite CheckMemoryPressure_returns.
      assert (pressure_checked (world reported) = world reported) as ->.
      { unfold pressure_checked. rewrite CheckMemoryPressure_none; [reflexivity|].
        apply (pressure_checked_none (world tw1)). }
      cbn. rewrite Hhit, lookup_delete_eq. reflexivity.
Qed.

(** X22.  A rejection is reported once, and of two the later one.  With
    no microtasks to run and the memory limit not hit: two calls of
    [PromiseRejectCallback] for the current environment, then
    [TaskEpilogue], throw the runtime error for the second value and leave
    no rejection pending, and the epilogue after that returns.  A callback
    for another engine instance than the environment's fails its
    assertion and records nothing. *)
Theorem promise_rejection_round_trip (tw : TaskWorld I) (v1 : option JsValue) (v2 : JsValue) :
  (∀ tw', RunMicrotasks tw' = tw') →
  hit_memory_limit (env (world tw)) = false →
  let me := this (env (world tw)) in
  let iso := isolate (env (world tw)) in
  let w2 := pressure_checked (world tw) in
  ∃ tw1 tw2 tw3,
    PromiseRejectCallback (Some me) iso v1 tw = (Return tt, tw1, []) ∧
    PromiseRejectCallback (Some me) iso (Some v2) tw1 = (Return tt, tw2, []) ∧
    TaskEpilogue RunMicrotasks tw2 = (Stopped (throw js_runtime_error), tw3, []) ∧
    world tw3 = with_v8 (ThrowException v2 (v8 w2)) w2 ∧
    rejected_promise_error tw3 = delete me (rejected_promise_error tw) ∧
    TaskEpilogue RunMicrotasks tw3 = (Return tt, tw3, []) ∧
    ∀ other, other ≠ iso →
      PromiseRejectCallback (Some me) other v1 tw =
        (Stopped (assertion_failed "that->isolate == Isolate::GetCurrent()"), tw, []).
Proof.
  intros Hquiet Hhit me iso w2. subst me iso.
  assert (∀ w : World I, deref (this (env w)) w = Some (env w)) as Hme.
  { intros w. unfold deref. rewrite bool_decide_eq_true_2 by reflexivity. reflexivity. }
  assert (env w2 = with_memory_pressure kNone (env (world tw)) ∨ env w2 = env (world tw))
    as Henv.
  { unfold w2, pressure_checked, CheckMemoryPressure, bind, get.
    case_bool_decide; cbn; auto. }
  assert (this (env w2) = this (env (world tw)) ∧ hit_memory_limit (env w2) = false)
    as [Hthis Hhit2].
  { destruct Henv as [-> | ->]; split; first [reflexivity|exact Hhit]. }
  eexists _, _, _. split; [|split; [|split; [|split; [|split; [|split]]]]].
  - unfold PromiseRejectCallback. rewrite Hme.
    rewrite bool_decide_eq_true_2 by reflexivity. reflexivity.
  - unfold PromiseRejectCallback. cbn [world]. rewrite Hme.
    rewrite bool_decide_eq_true_2 by reflexivity. reflexivity.
  - unfold TaskEpilogue. rewrite Hquiet. cbn [world rejected_promise_error].
    rewrite CheckMemoryPressure_returns. fold w2. rewrite Hhit2, Hthis.
    rewrite lookup_insert_eq. reflexivity.
  - reflexivity.
  - cbn. rewrite delete_insert_eq.
    destruct v1; [rewrite delete_insert_eq|rewrite delete_delete_eq]; reflexivity.
  - unfold TaskEpilogue. rewrite Hquiet. cbn [world rejected_promise_error].
    rewrite CheckMemoryPressure_returns.
    assert (pressure_checked (with_v8 (ThrowException v2 (v8 w2)) w2) =
              with_v8 (ThrowException v2 (v8 w2)) w2) as ->.
    { unfold pressure_checked. rewrite CheckMemoryPressure_none; [reflexivity|].
      apply (pressure_checked_none (world tw)). }
    cbn. fold w2. rewrite Hhit2, Hthis, lookup_delete_eq. reflexivity.
  - intros other Hother. unfold PromiseRejectCallback. rewrite Hme.
    rewrite bool_decide_eq_false_2 by (intros Heq; apply Hother; symmetry; exact Heq).
    reflexivity.
Qed.

End TaskProperties.

(** *** The end of a pass *)

Section PassEndProperties.

Context {I : Type} `{Engine I}.
Variable Run : Runnable → World I → World I.
Hypothesis Run_keeps_status : ∀ r w, status_of (Run r w) = status_of w.

Lemma runs_status q (w : World I) : status_of (runs Run q w) = status_of w.
Proof.
  revert w. induction q as [|r q IH]; intros w; [reflexivity|].
  change (status_of (runs Run q (Run r w)) = status_of w).
  rewrite IH. apply Run_keeps_status.
Qed.

Lemma pressure_checked_status (w : World I) :
  status_of (pressure_checked w) = status_of w.
Proof.
  unfold pressure_checked, CheckMemoryPressure, bind, get.
  case_bool_decide; reflexivity.
Qed.

Lemma task_world_status q (w : World I) : status_of (task_world Run q w) = status_of w.
Proof.
  revert w. induction q as [|r q IH]; intros w; [reflexivity|].
  change (status_of (task_world Run q (pressure_checked (Run r w))) = status_of w).
  rewrite IH, pressure_checked_status. apply Run_keeps_status.
Qed.

Lemma before_tasks_status (w : World I) : status_of (before_tasks Run w) = status_of w.
Proof. unfold before_tasks. rewrite !runs_status. reflexivity. Qed.

(** X24.  How a pass ends.  When running a task never changes the
    status, a pass of [AsyncEntry] that returns has either found the three
    queues empty and left the status [Waiting], or stopped on
    [hit_memory_limit] with the status still [Running]: from then on no
    [WakeIsolate], however often it is called, wakes the environment or
    dispatches anything. *)
Theorem pass_ends_waiting_or_dead (fuel : nat) (w w' : World I) ev :
  status_of w = Running →
  AsyncEntry_loop Run fuel w = (Return tt, w', ev) →
  (status_of w' = Waiting ∧ nothing_queued w') ∨
  (status_of w' = Running ∧ hit_memory_limit (env w') = true ∧
   ∀ n, wake_many n w' = (Return O, w', [])).
Proof.
  intros Hst Hloop. apply AsyncEntry_loop_sound in Hloop.
  revert Hst.
  induction Hloop as [w Hq _|w p r left w3 Hq Hsplit Hnone -> Hhit
                     |w w3 ev w' Hq Hnone -> Hpass IH].
  - intros _. left. split; [reflexivity|repeat split].
  - intros Hst. right.
    assert (status_of (Run r (task_world Run p (before_tasks Run w))) = Running)
      as Hrunning.
    { rewrite Run_keeps_status, task_world_status, before_tasks_status. exact Hst. }
    split; [exact Hrunning|]. split; [exact Hhit|].
    intros n. apply wake_many_running. exact Hrunning.
  - intros Hst. apply IH. rewrite task_world_status, before_tasks_status. exact Hst.
Qed.

End PassEndProperties.

(** * More of the file, on concrete worlds *)

Section ConcreteMore.

Local Open Scope N_scope.

(** *** Scheduler and dispatch *)

Lemma weak_callback_round_trip_witness :
  bind (AddWeakCallback 62 50 62) (λ _, RemoveWeakCallback 62) Toy.populated =
    (Return tt, Toy.populated, []) ∧
  bind (RemoveWeakCallback 60) (λ _, AddWeakCallback 60 50 60) Toy.populated =
    (Return tt, Toy.populated, []).
Proof.
  pose proof (weak_callback_round_trip Toy.populated 62 50 62 eq_refl) as Habsent.
  pose proof (weak_callback_round_trip Toy.populated 60 50 60 eq_refl) as Hpresent.
  cbv zeta in Habsent, Hpresent.
  destruct Habsent as [Habsent _]. destruct Hpresent as [_ Hpresent].
  split.
  - apply Habsent. vm_compute. reflexivity.
  - apply Hpresent. vm_compute. reflexivity.
Defined.

Lemma uv_ref_count_balanced_witness :
  bind IncrementUvRef (λ _, DecrementUvRef) Toy.world =
    (Return tt, Toy.world, [EvUvRef; EvUvUnref]).
Proof.
  destruct (uv_ref_count_balanced Toy.world) as [Hok _]; [reflexivity|].
  exact (Hok (or_introl eq_refl)).
Defined.

Lemma wake_many_dispatches_once_witness :
  wake_many 3 Toy.world = (Return 1%nat, woken Toy.world, wake_events Toy.world) ∧
  dispatches (wake_events Toy.world) = [EvThreadPoolExec 1000].
Proof.
  destruct (wake_many_dispatches_once 2 Toy.world) as [_ Hwake].
  destruct Hwake as (Heq & _ & _); [reflexivity|intros _; reflexivity|discriminate|].
  split; [exact Heq|reflexivity].
Defined.

Lemma Toy_Run_keeps_count r w : uv_ref_count (Toy.Run r w) = uv_ref_count w.
Proof. unfold Toy.Run. repeat case_bool_decide; reflexivity. Qed.

Lemma Toy_invoke_keeps_count fn p w :
  uv_ref_count (Toy.invoke fn p w) = uv_ref_count w.
Proof. unfold Toy.invoke. case_bool_decide; reflexivity. Qed.

Lemma Toy_Run_keeps_view r w :
  default_thread_view (Toy.Run r w) = default_thread_view w.
Proof. unfold Toy.Run. repeat case_bool_decide; reflexivity. Qed.

Lemma wake_and_pool_callback_balance_witness :
  (let w := Toy.with_queues Waiting [1; 2] [] [] [] Toy.world in
   ∃ w' ev,
     AsyncCallbackNonDefaultIsolate Toy.Run None Toy.invoke true false 2
       (on_thread 8 (woken w)) = (Return tt, w', ev) ∧
     uv_ref_count w' = 0 ∧
     dispatches ev = [EvUvAsyncSend] ∧
     status_of w' = Waiting) ∧
  (∃ w' ev wp wd evd,
     AsyncCallbackNonDefaultIsolate Toy.Run None Toy.invoke true true 2
       (on_thread 8 (woken Toy.populated)) = (Return tt, w', ev) ∧
     uv_ref_count w' = 0 ∧
     dispatches ev = [EvUvAsyncSend] ∧
     IsolateEnvironment_dtor Toy.invoke wp = (Return tt, wd, evd) ∧
     w' = with_uv_ref_count 0 wd ∧
     isolate_map w' !! 2000 = None).
Proof.
  split.
  - intros w.
    pose (r := AsyncCallbackNonDefaultIsolate Toy.Run None Toy.invoke true false 2
                 (on_thread 8 (woken w))).
    assert (r = (Return tt, r.1.2, r.2)) as Heq by (vm_compute; reflexivity).
    destruct (wake_and_pool_callback_balance Toy.Run None Toy.invoke
                Toy_Run_keeps_count Toy_invoke_keeps_count
                true false 8 2 w r.1.2 r.2)
      as (_ & _ & Hcount & Hdisp & wp & evp & _ & Hend & Hshared & _).
    + reflexivity.
    + reflexivity.
    + reflexivity.
    + intros _. reflexivity.
    + exact Heq.
    + exists r.1.2, r.2. split; [exact Heq|]. split; [exact Hcount|].
      split; [exact Hdisp|].
      destruct (Hshared eq_refl) as [Hw' _].
      destruct Hend as [Hhit|[_ Hst]]; [|rewrite Hw'; exact Hst].
      assert (hit_memory_limit (env r.1.2) = true) as Hbad
        by (rewrite Hw'; exact Hhit).
      vm_compute in Hbad. discriminate Hbad.
  - pose (r := AsyncCallbackNonDefaultIsolate Toy.Run None Toy.invoke true true 2
                 (on_thread 8 (woken Toy.populated))).
    assert (r = (Return tt, r.1.2, r.2)) as Heq by (vm_compute; reflexivity).
    destruct (wake_and_pool_callback_balance Toy.Run None Toy.invoke
                Toy_Run_keeps_count Toy_invoke_keeps_count
                true true 8 2 Toy.populated r.1.2 r.2)
      as (_ & _ & Hcount & Hdisp & wp & evp & _ & _ & _ & Hlast).
    + reflexivity.
    + reflexivity.
    + reflexivity.
    + intros _. reflexivity.
    + exact Heq.
    + destruct (Hlast eq_refl) as (wd & evd & Hdtor & Hw' & _).
      exists r.1.2, r.2, wp, wd, evd. split; [exact Heq|]. split; [exact Hcount|].
      split; [exact Hdisp|]. split; [exact Hdtor|]. split; [exact Hw'|].
      vm_compute. reflexivity.
Defined.

Lemma default_thread_callback_witness :
  AsyncCallbackDefaultIsolate Toy.Run None Toy.invoke false 1 Toy.root_world =
    (Return tt, Toy.root_world, [EvSchedulerLock; EvSchedulerUnlock; EvUvUnref]) ∧
  ∃ w' ev,
    AsyncCallbackDefaultIsolate Toy.Run None Toy.invoke true 1 (woken Toy.root_world) =
      (Return tt, w', ev) ∧
    root_async_data (woken Toy.root_world) = Some 1 ∧
    root_async_data w' = None ∧
    uv_ref_count w' = 0 ∧
    status_of w' = Waiting.
Proof.
  split.
  - exact (proj1 (default_thread_callback Toy.Run None Toy.invoke Toy_Run_keeps_view
                    false 1 Toy.root_world) eq_refl).
  - pose (r := AsyncCallbackDefaultIsolate Toy.Run None Toy.invoke true 1
                 (woken Toy.root_world)).
    assert (r = (Return tt, r.1.2, r.2)) as Heq by (vm_compute; reflexivity).
    destruct (proj2 (default_thread_callback Toy.Run None Toy.invoke Toy_Run_keeps_view
                       true 1 (woken Toy.root_world)) r.1.2 r.2 eq_refl eq_refl Heq)
      as (_ & Hslot & Hcount & _ & Hend).
    exists r.1.2, r.2. split; [exact Heq|]. split; [reflexivity|].
    split; [exact Hslot|]. split; [exact Hcount|].
    destruct Hend as [Hhit|[_ Hst]]; [vm_compute in Hhit; discriminate Hhit|exact Hst].
Defined.

Lemma interrupt_callback_drains_witness :
  ∃ w' ev,
    interrupt_callback Toy.Run true 2 Toy.sync_pending = (Return tt, w', ev) ∧
    interrupt_queue true w' = [].
Proof.
  pose (r := interrupt_callback Toy.Run true 2 Toy.sync_pending).
  assert (r = (Return tt, r.1.2, r.2)) as Heq by (vm_compute; reflexivity).
  exists r.1.2, r.2. split; [exact Heq|].
  exact (proj1 (interrupt_callback_drains Toy.Run true 2 Toy.sync_pending _ _ Heq)).
Defined.

(** *** Memory *)

Lemma MarkSweepCompactEpilogue_over_budget_witness :
  (budget Toy.bloated <? total_memory Toy.bloated) = true ∧
  MarkSweepCompactEpilogue true false 2 kNoGCCallbackFlags Toy.bloated =
    (Return tt, terminated_for_memory (delivered kCritical Toy.bloated),
     [EvSchedulerLock; EvSchedulerUnlock]) ∧
  MarkSweepCompactEpilogue false false 1 kNoGCCallbackFlags Toy.bloated =
    (Return tt, parked kCritical Toy.bloated,
     [EvRequestInterrupt MemoryPressureInterrupt]).
Proof.
  assert ((budget Toy.bloated <? total_memory Toy.bloated) = true) as Hover
    by (vm_compute; reflexivity).
  split; [exact Hover|].
  pose proof (MarkSweepCompactEpilogue_over_budget true false 0 kNoGCCallbackFlags
                Toy.bloated eq_refl Hover) as Hdirect.
  pose proof (MarkSweepCompactEpilogue_over_budget false false 0 kNoGCCallbackFlags
                Toy.bloated eq_refl Hover) as Hparked.
  cbv zeta in Hdirect, Hparked.
  destruct Hdirect as (_ & _ & Hdirect). destruct Hparked as (_ & Hparked & _).
  split.
  - destruct (Hdirect eq_refl eq_refl) as [_ Hstill].
    apply Hstill. vm_compute. reflexivity.
  - apply Hparked; reflexivity.
Defined.

Lemma MarkSweepCompactEpilogue_reenters_once_witness :
  (MarkSweepCompactEpilogue true false 5 kNoGCCallbackFlags Toy.bloated).1.1 = Return tt ∧
  MarkSweepCompactEpilogue true false 5 kNoGCCallbackFlags Toy.bloated =
    MarkSweepCompactEpilogue true false 2 kNoGCCallbackFlags Toy.bloated.
Proof.
  exact (MarkSweepCompactEpilogue_reenters_once true false 3 kNoGCCallbackFlags
           Toy.bloated eq_refl).
Defined.

Lemma HeapCheck_bracket_witness :
  over_limit Toy.bloated = true ∧
  bind (HeapCheck_ctor false) (λ hc, bind (ret tt) (λ _, Epilogue hc)) Toy.bloated =
    (Return tt, Toy.bloated, []).
Proof.
  split; [vm_compute; reflexivity|].
  pose proof (HeapCheck_bracket false (ret tt) Toy.bloated Toy.bloated [] eq_refl)
    as Hbracket.
  cbv zeta in Hbracket. destruct Hbracket as (_ & _ & Hsame).
  apply Hsame; reflexivity.
Defined.

(** *** Terminate, destruction, construction *)

Lemma Terminate_twice_witness :
  ∃ w',
    bind Terminate (λ _, Terminate) Toy.populated =
      (Return tt, w',
       [EvSchedulerLock; EvAgentTerminate 77; EvSchedulerUnlock;
        EvSchedulerLock; EvAgentTerminate 77; EvSchedulerUnlock]) ∧
    env w' = env (Terminate_world Toy.populated) ∧
    holder_isolate w' = holder_isolate (Terminate_world Toy.populated).
Proof.
  eexists. split; [exact (Terminate_twice Toy.populated eq_refl)|].
  split; reflexivity.
Defined.

Lemma destroyed_environment_not_found_witness :
  (bind (IsolateEnvironment_dtor Toy.invoke) (λ _, LookupIsolate 2000)
     Toy.populated).1.1 = Return None.
Proof.
  pose (entries := map_to_list (weak_persistents (env Toy.populated))).
  pose (wk := Toy.exec (kill_weak_persistents Toy.invoke entries
                          (fst <$> head entries)) (detached Toy.populated)).
  assert (kill_weak_persistents Toy.invoke entries (fst <$> head entries)
            (detached Toy.populated) =
          (Return tt, wk, [EvWeakCallback 50 60; EvWeakCallback 50 61])) as Hk
    by (vm_compute; reflexivity).
  assert (weak_persistents (env wk) = ∅) as Hempty by (vm_compute; reflexivity).
  assert (is_Some (isolate_map wk !! isolate (env wk))) as Hreg
    by (vm_compute; eauto).
  assert (isolate (env wk) = 2000) as Hiso by (vm_compute; reflexivity).
  destruct (destroyed_environment_not_found Toy.invoke Toy.populated wk _
              eq_refl Hk Hempty Hreg) as [Heq _].
  rewrite Hiso in Heq. rewrite Heq. reflexivity.
Defined.

Lemma IsolateCtor_root_spec_witness :
  ∃ w',
    IsolateCtor_root 2 Toy.root_world = (Return tt, w', [EvUvUnref]) ∧
    root (env w') = true ∧
    current_env w' = Some 1 ∧
    WakeIsolate w' = (Return true, woken w', wake_events w') ∧
    (IsolateCtor_root 2 w').1.1 = Stopped (assertion_failed "current_env == nullptr").
Proof.
  destruct (proj1 (IsolateCtor_root_spec 2 Toy.root_world) eq_refl)
    as (w' & Heq & Hroot & _ & Hcur & _ & _ & _ & _ & Hwake & Htwice).
  exists w'. split; [exact Heq|]. split; [exact Hroot|]. split; [exact Hcur|].
  split; [apply Hwake; reflexivity|apply Htwice].
Defined.

Lemma IsolateCtor_sandbox_spec_witness :
  ∃ w',
    IsolateCtor_sandbox 128 2000 Toy.fresh_isolate Toy.world = (Return tt, w', []) ∧
    memory_limit (env w') = 128 * 1024 * 1024 ∧
    budget w' = 128 * 1024 * 1024 + 4096.
Proof.
  pose proof (IsolateCtor_sandbox_spec 128 2000 Toy.fresh_isolate Toy.world) as Hctor.
  cbv zeta in Hctor.
  destruct Hctor as (w' & Heq & _ & _ & Hlimit & _ & Hbudget & _);
    [vm_compute; reflexivity|].
  exists w'. split; [exact Heq|]. split; [exact Hlimit|exact Hbudget].
Defined.

Lemma inspector_agent_lifecycle_witness :
  bind (EnableInspectorAgent 78) (λ _, GetInspectorAgent) Toy.populated =
    (Return (Some 78),
     with_env (with_inspector_agent (Some 78) (env Toy.populated)) Toy.populated,
     [EvAgentDestroy 77]) ∧
  (bind (EnableInspectorAgent 78) (λ _, Terminate) Toy.populated).2 =
    [EvAgentDestroy 77; EvSchedulerLock; EvAgentTerminate 78; EvSchedulerUnlock].
Proof.
  pose proof (inspector_agent_lifecycle 78 Toy.populated eq_refl) as Hagent.
  cbv zeta in Hagent. destruct Hagent as (Hget & Hterm & _).
  split; [exact Hget|]. rewrite Hterm. reflexivity.
Defined.

(** *** Timers *)

Lemma Timers_busy_registered : Timers.registered Timers.busy.
Proof.
  intros e x a He Ha. unfold Timers.busy, Timers.executors in He.
  apply lookup_singleton_Some in He as [<- <-].
  injection Ha as <-. eexists. split; reflexivity.
Qed.

Lemma Timers_busy_wall_registered : Timers.wall_registered Timers.busy.
Proof.
  intros e x a He Ha. unfold Timers.busy, Timers.executors in He.
  apply lookup_singleton_Some in He as [<- <-].
  injection Ha as <-. eexists _, _. repeat split.
Qed.

Lemma cpu_time_accounting_witness :
  (Timers.GetCpuTime 1 20 Timers.busy).1.1 = Return 13%Z ∧
  ∃ s',
    Timers.Pause (Some 902) 20 Timers.busy = (Return tt, s', [Timers.EvTimerPause 1]) ∧
    (Timers.GetCpuTime 1 20 s').1.1 = Return 13%Z ∧
    (Timers.GetCpuTime 1 99 s').1.1 = Return 13%Z.
Proof.
  destruct (cpu_time_accounting Timers.busy Timers_busy_registered) as [Hgrow Hop].
  assert ((Timers.GetCpuTime 1 7 Timers.busy).1.1 = Return 0%Z) as Hstart
    by reflexivity.
  pose proof (Hgrow 1 7%Z 20%Z 0%Z Hstart) as Hnow.
  split; [exact Hnow|].
  pose (r := Timers.Pause (Some 902) 20 Timers.busy).
  assert (r = (Return tt, r.1.2, [Timers.EvTimerPause 1])) as Heq
    by (vm_compute; reflexivity).
  destruct (Hop (Timers.OpPause 902) 20%Z r.1.2 _ I Heq) as [Hreg' Hsame].
  exists r.1.2. split; [exact Heq|].
  assert ((Timers.GetCpuTime 1 20 r.1.2).1.1 = Return 13%Z) as Hpaused
    by (rewrite Hsame; exact Hnow).
  split; [exact Hpaused|].
  destruct (cpu_time_accounting r.1.2 Hreg') as [Hgrow' _].
  exact (Hgrow' 1 20%Z 99%Z 13%Z Hpaused).
Defined.

Lemma wall_time_accounting_witness :
  (Timers.GetWallTime 1 25 Timers.busy).1.1 = Return 20%Z ∧
  ∃ s' ev,
    Timers.WallTimer_dtor 901 24 25 Timers.busy = (Return tt, s', ev) ∧
    (Timers.GetWallTime 1 25 s').1.1 = Return 20%Z.
Proof.
  destruct (wall_time_accounting Timers.busy Timers_busy_wall_registered)
    as [Hgrow Hop].
  assert ((Timers.GetWallTime 1 5 Timers.busy).1.1 = Return 0%Z) as Hstart
    by reflexivity.
  pose proof (Hgrow 1 5%Z 25%Z 0%Z Hstart) as Hnow.
  split; [exact Hnow|].
  pose (r := Timers.WallTimer_dtor 901 24 25 Timers.busy).
  assert (r = (Return tt, r.1.2, r.2)) as Heq by (vm_compute; reflexivity).
  destruct (Hop (Timers.OpWallTimerEnd 901) 24%Z 25%Z r.1.2 r.2 I Heq) as [_ Hsame].
  exists r.1.2, r.2. split; [exact Heq|]. rewrite Hsame. exact Hnow.
Defined.

Lemma Unlock_bracket_witness :
  Timers.unlocked 1 20 30 Timers.busy =
    (Return tt,
     Timers.mkState {[ 1 := Timers.mkExecutor (Some 902) (Some 901) 13 0 ]}
       {[ 902 := Timers.mkCpuTimer 1 None 30 ]}
       {[ 901 := Timers.mkWallTimer 1 None (Some 5%Z) ]}
       (Some 902) (Some 900),
     [Timers.EvTimerPause 1; Timers.EvUnlocker 1;
      Timers.EvUnlockerRelease 1; Timers.EvTimerResume 1]) ∧
  ∃ paused,
    Timers.Unlock_ctor 1 20 Timers.busy =
      (Return (Some 902), paused, [Timers.EvTimerPause 1; Timers.EvUnlocker 1]) ∧
    (Timers.GetCpuTime 1 25 paused).1.1 = Return 13%Z ∧
    (Timers.Lock_ctor 910 911 912 1000 26 27 28 paused).1.1 =
      Stopped (assertion_failed "executor.cpu_timer == this").
Proof.
  pose proof (Unlock_bracket 1 902 (Timers.mkCpuTimer 1 None 7)
                (Timers.mkExecutor (Some 902) (Some 901) 0 0) 20 30 Timers.busy
                eq_refl eq_refl eq_refl eq_refl) as Hunlock.
  cbv zeta in Hunlock.
  destruct Hunlock as (Hbracket & Hctor & _ & Htotal & _ & Hlock).
  split.
  - rewrite Hbracket. vm_compute. reflexivity.
  - eexists. split; [exact Hctor|]. split; [apply Htotal|].
    apply Hlock. reflexivity.
Defined.

Lemma UnpauseScope_inside_PauseScope_witness :
  Timers.paused_unpaused (Some 902) 20 22 26 30 Timers.busy =
    (Return tt,
     Timers.mkState {[ 1 := Timers.mkExecutor (Some 902) (Some 901) 17 0 ]}
       {[ 902 := Timers.mkCpuTimer 1 None 30 ]}
       {[ 901 := Timers.mkWallTimer 1 None (Some 5%Z) ]}
       (Some 902) (Some 900),
     [Timers.EvTimerPause 1; Timers.EvTimerResume 1;
      Timers.EvTimerPause 1; Timers.EvTimerResume 1]).
Proof.
  etransitivity.
  - exact (UnpauseScope_inside_PauseScope 1 902 (Timers.mkCpuTimer 1 None 7)
             (Timers.mkExecutor (Some 902) (Some 901) 0 0) 20 22 26 30 Timers.busy
             eq_refl eq_refl eq_refl eq_refl).
  - vm_compute. reflexivity.
Defined.

Lemma Timers_idle_settled : Timers.settled Timers.idle.
Proof.
  assert (∀ e x, Timers.executors Timers.idle !! e = Some x →
            x = Timers.mkExecutor None None 0 0) as Hidle.
  { intros e x He. unfold Timers.idle, Timers.executors in He.
    apply lookup_insert_Some in He as [[_ <-]|[_ He]]; [reflexivity|].
    apply lookup_singleton_Some in He as [_ <-]. reflexivity. }
  split; [|split].
  - intros e a He. unfold Timers.cpu_timer_of in He.
    destruct (Timers.executors Timers.idle !! e) as [x|] eqn:Hx; [|discriminate].
    rewrite (Hidle e x Hx) in He. discriminate.
  - intros a Ha. discriminate.
  - intros e x a He Ha. rewrite (Hidle e x He) in Ha. discriminate.
Qed.

Lemma Timers_idle_lockable : Timers.lockable [Timers.outer; Timers.inner] Timers.idle.
Proof.
  split; [|split].
  - apply NoDup_cons. split; [|apply NoDup_singleton].
    intros Hin. apply list_elem_of_singleton in Hin. discriminate.
  - apply NoDup_cons. split; [|apply NoDup_singleton].
    intros Hin. apply list_elem_of_singleton in Hin. discriminate.
  - intros l Hl. apply elem_of_cons in Hl as [->|Hl];
      [|apply list_elem_of_singleton in Hl as ->].
    + split; [eexists; reflexivity|]. split; reflexivity.
    + split; [eexists; reflexivity|]. split; reflexivity.
Qed.

Lemma nested_locks_restore_witness :
  Timers.returns (Timers.nested [Timers.outer; Timers.inner]) Timers.idle
    (λ _ s', Timers.cpu_timer_thread s' = None ∧ Timers.current s' = None ∧
             Timers.wall_timers s' = ∅).
Proof.
  destruct (nested_locks_restore [Timers.outer; Timers.inner] Timers.idle
              Timers_idle_settled Timers_idle_lockable)
    as ([] & s' & ev & Heq & (S1 & S2 & S3 & _) & _).
  exists tt, s', ev. split; [exact Heq|].
  rewrite S1, S2, S3. repeat split.
Defined.

(** *** The end of a task *)

Lemma rejected_promise_reported_once_witness :
  let tw := mkTaskWorld Toy.world {[ 1000 := 5 ]} in
  let reported := mkTaskWorld Toy.world ∅ in
  TaskEpilogue (λ tw, tw) tw = (Stopped (throw js_runtime_error), reported, []) ∧
  TaskEpilogue (λ tw, tw) reported = (Return tt, reported, []).
Proof.
  intros tw reported.
  pose proof (rejected_promise_reported_once (λ tw, tw) tw) as Hepilogue.
  cbv zeta in Hepilogue. destruct Hepilogue as (_ & _ & Hreport).
  destruct (Hreport 5 eq_refl eq_refl) as [Hthrow Hquiet].
  split.
  - rewrite Hthrow. vm_compute. reflexivity.
  - specialize (Hquiet eq_refl). vm_compute in Hquiet |- *. exact Hquiet.
Defined.

Lemma promise_rejection_round_trip_witness :
  ∃ tw1 tw2 tw3,
    PromiseRejectCallback (Some 1000) 2000 (Some 4) (mkTaskWorld Toy.world ∅) =
      (Return tt, tw1, []) ∧
    PromiseRejectCallback (Some 1000) 2000 (Some 5) tw1 = (Return tt, tw2, []) ∧
    TaskEpilogue (λ tw, tw) tw2 = (Stopped (throw js_runtime_error), tw3, []) ∧
    rejected_promise_error tw3 = ∅ ∧
    TaskEpilogue (λ tw, tw) tw3 = (Return tt, tw3, []).
Proof.
  pose proof (promise_rejection_round_trip (λ tw, tw) (mkTaskWorld Toy.world ∅)
                (Some 4) 5 (λ _, eq_refl) eq_refl) as Htrip.
  cbv zeta in Htrip.
  destruct Htrip as (tw1 & tw2 & tw3 & H1 & H2 & H3 & _ & Hrej & H4 & _).
  exists tw1, tw2, tw3. split; [exact H1|]. split; [exact H2|]. split; [exact H3|].
  split; [rewrite Hrej; reflexivity|exact H4].
Defined.

(** *** The end of a pass *)

Lemma pass_ends_waiting_or_dead_witness :
  let r := AsyncEntry_loop Toy.Run 3 Toy.doomed in
  r.1.1 = Return tt ∧
  status_of r.1.2 = Running ∧
  ∀ n, wake_many n r.1.2 = (Return O, r.1.2, []).
Proof.
  intros r.
  assert (r = (Return tt, r.1.2, r.2)) as Heq by (vm_compute; reflexivity).
  destruct (pass_ends_waiting_or_dead Toy.Run Toy_Run_keeps_status 3 Toy.doomed
              r.1.2 r.2 eq_refl Heq) as [[Hwaiting _]|(Hrunning & _ & Hwake)].
  - vm_compute in Hwaiting. discriminate Hwaiting.
  - split; [rewrite Heq; reflexivity|]. split; [exact Hrunning|exact Hwake].
Defined.

(** *** The time nested locks account for *)

Lemma Timers_idle_lockable_reentered :
  Timers.lockable [Timers.outer; Timers.inner; Timers.reentered] Timers.idle.
Proof.
  split; [|split].
  - repeat (apply NoDup_cons; split; [|]); try apply NoDup_nil_2;
      rewrite ?elem_of_cons, ?elem_of_nil; intros H; repeat destruct H as [H|H];
      try discriminate H; exact H.
  - repeat (apply NoDup_cons; split; [|]); try apply NoDup_nil_2;
      rewrite ?elem_of_cons, ?elem_of_nil; intros H; repeat destruct H as [H|H];
      try discriminate H; exact H.
  - intros l Hl. rewrite !elem_of_cons, elem_of_nil in Hl.
    destruct Hl as [->|[->|[->|[]]]];
      (split; [eexists; reflexivity|]; split; reflexivity).
Qed.

Lemma nested_locks_time_accounting_witness :
  Timers.returns (Timers.nested [Timers.outer; Timers.inner; Timers.reentered]) Timers.idle
    (λ _ s', ∃ x1 x2,
       Timers.executors s' !! 1 = Some x1 ∧ Timers.executors s' !! 1000 = Some x2 ∧
       Timers.cpu_time x1 = 15%Z ∧ Timers.wall_time x1 = 38%Z ∧
       Timers.cpu_time x2 = 12%Z ∧ Timers.wall_time x2 = 22%Z).
Proof.
  destruct (nested_locks_time_accounting [Timers.outer; Timers.inner; Timers.reentered]
              Timers.idle Timers_idle_settled Timers_idle_lockable_reentered)
    as ([] & s' & ev & Heq & Hacc).
  destruct (Hacc 1 _ eq_refl) as (x1 & H1 & Hc1 & Hw1).
  destruct (Hacc 1000 _ eq_refl) as (x2 & H2 & Hc2 & Hw2).
  exists tt, s', ev. split; [exact Heq|].
  exists x1, x2. split; [exact H1|]. split; [exact H2|].
  rewrite Hc1, Hw1, Hc2, Hw2. repeat split.
Defined.

End ConcreteMore.
